(** * Diet optimisation calculator: the tableau simplex of the Express server

    Shallow embedding of the server-side solver ([Tableau], [simplexSolve]
    and the [/api/optimize] and [/api/sensitivity] handlers) and of the
    browser copy of the solver ([simplex] of the React component).

    Numbers.  The program computes with JavaScript numbers, which are IEEE
    754 doubles.  Two models of them are used.

    - In the main development every number is an exact rational ([Q]):
      rounding, overflow, [Infinity] as a computed value and [NaN] are
      outside it.  The one place where the source writes [Infinity] as a
      literal (the initial [minRatio]) is modelled by [None] in an
      [option Q].  Equality of numbers is [Qeq] ([==]).  What is proved here
      is what the code does as long as its numbers stay finite and its
      operations exact.

    - In [Double] the tableau class is embedded once more over binary64
      values with the IEEE operations, which round, overflow and produce
      [NaN] as the program's do.  It is used for the ratio test, whose
      result depends on a quotient overflowing, and to run the engine on
      inputs where a product overflows.

    Arrays.  A JavaScript array is a list; [a[i]] is stdpp's lookup and
    [a[i] = v] is stdpp's insert.  Out of range a JavaScript read gives
    [undefined] and a write extends the array, whereas here a read gives [0]
    and a write does nothing; every index the solver uses on a tableau made
    by its constructor is in range (see [wf]).  Indices are natural numbers:
    [rows - 1] and [cols - 1] are the source's on the tableaux the solver
    builds, which have at least one row and one column. *)

From Stdlib Require Import Floats.
From Stdlib Require Import QArith Qabs Qminmax Lqa Lia ZArith String.
From stdpp Require Import base list.

Set Default Proof Using "Type".

(** ** Numbers *)

Definition epsilon : Q := 1 # 1000000.

(** [x < y] on numbers, as a boolean. *)
Definition Qltb (x y : Q) : bool :=
  match (x ?= y)%Q with Lt => true | _ => false end.

(** [ratio < minRatio] where [minRatio] may still be the initial [Infinity]. *)
Definition ltInf (x : Q) (bound : option Q) : bool :=
  match bound with
  | None => true
  | Some b => Qltb x b
  end.

(** [Math.max(0, x)] and [Math.abs]. *)
Definition max0 (x : Q) : Q := if Qltb 0 x then x else 0%Q.
Definition absQ (x : Q) : Q := if Qltb x 0 then (- x)%Q else x.

(** ** Arrays and loops *)

Abbreviation Matrix := (list (list Q)).

Definition getRow (m : Matrix) (i : nat) : list Q := default [] (m !! i).
Definition entry (row : list Q) (j : nat) : Q := default 0%Q (row !! j).
Definition cell (m : Matrix) (i j : nat) : Q := entry (getRow m i) j.
Definition setCell (m : Matrix) (i j : nat) (v : Q) : Matrix :=
  alter (fun row => <[j := v]> row) i m.

(** [for (let i = lo; i < hi; i++) body], threading the mutated state. *)
Definition forRange {S : Type} (lo hi : nat) (body : nat -> S -> S) (s : S) : S :=
  foldl (fun s i => body i s) s (seq lo (hi - lo)).

(** A loop over the elements of [idx] whose body may [break]: the body
    returns the new state and whether it broke out. *)
Fixpoint forBreakOver {A S : Type} (idx : list A) (body : A -> S -> S * bool)
    (s : S) : S :=
  match idx with
  | [] => s
  | i :: rest =>
      let '(s', brk) := body i s in
      if brk then s' else forBreakOver rest body s'
  end.

(** [for (let i = lo; i < hi; i++) body] with [break]. *)
Definition forBreak {S : Type} (lo hi : nat) (body : nat -> S -> S * bool)
    (s : S) : S :=
  forBreakOver (seq lo (hi - lo)) body s.

(** ** class Tableau *)

Record Tableau := mkTableau {
  rows : nat;
  cols : nat;
  matrix : Matrix;
  basis : list nat
}.

(** [constructor(rows, cols)] *)
Definition newTableau (rows cols : nat) : Tableau :=
  mkTableau rows cols (replicate rows (replicate cols 0%Q)) (replicate rows 0%nat).

(** [findPivotColumn()]; [None] is the source's [-1]. *)
Definition findPivotColumn (t : Tableau) : option nat :=
  let objRow := getRow (matrix t) (rows t - 1) in
  snd (forRange 0 (cols t - 1)
         (fun j '(minVal, pivotCol) =>
            if Qltb (entry objRow j) minVal
            then (entry objRow j, Some j)
            else (minVal, pivotCol))
         (0%Q, None)).

(** One iteration of the loop of [findPivotRow]. *)
Definition pivotRowBody (t : Tableau) (pivotCol : nat) (i : nat)
    (st : option Q * option nat) : option Q * option nat :=
  let '(minRatio, pivotRow) := st in
  let elem := cell (matrix t) i pivotCol in
  if Qltb elem (- epsilon) then
    let rhs := cell (matrix t) i (cols t - 1) in
    let ratio := (- rhs / elem)%Q in
    if Qltb 0 ratio && ltInf ratio minRatio
    then (Some ratio, Some i)
    else (minRatio, pivotRow)
  else (minRatio, pivotRow).

(** [findPivotRow(pivotCol)]; [None] is the source's [-1]. *)
Definition findPivotRow (t : Tableau) (pivotCol : nat) : option nat :=
  snd (forRange 0 (rows t - 1) (pivotRowBody t pivotCol) (None, None)).

(** [pivot(pivotRow, pivotCol)].  The source divides by the pivot element
    without a test; the engine only calls it with an element below
    [-epsilon]. *)
Definition pivot (t : Tableau) (pivotRow pivotCol : nat) : Tableau :=
  let pivotElem := cell (matrix t) pivotRow pivotCol in
  let m1 :=
    forRange 0 (cols t)
      (fun j m => setCell m pivotRow j (cell m pivotRow j / pivotElem)%Q)
      (matrix t) in
  let m2 :=
    forRange 0 (rows t)
      (fun i m =>
         if decide (i ≠ pivotRow) then
           let factor := cell m i pivotCol in
           forRange 0 (cols t)
             (fun j m' =>
                setCell m' i j (cell m' i j - factor * cell m' pivotRow j)%Q)
             m
         else m)
      m1 in
  mkTableau (rows t) (cols t) m2 (<[pivotRow := pivotCol]> (basis t)).

(** ** Inputs of [simplexSolve] *)

Inductive Nutrient := protein | carbs | fat | fiber | vitamins.

Definition constraintKeys : list Nutrient :=
  [protein; carbs; fat; fiber; vitamins].

Definition keyName (k : Nutrient) : string :=
  match k with
  | protein => "protein"
  | carbs => "carbs"
  | fat => "fat"
  | fiber => "fiber"
  | vitamins => "vitamins"
  end.

Record Food := mkFood {
  name : string;
  cost : Q;
  f_protein : Q;
  f_carbs : Q;
  f_fat : Q;
  f_fiber : Q;
  f_vitamins : Q
}.

Record Constraints := mkConstraints {
  c_protein : Q;
  c_carbs : Q;
  c_fat : Q;
  c_fiber : Q;
  c_vitamins : Q
}.

(** [food[key]] and [constraints[key]] *)
Definition foodGet (f : Food) (k : Nutrient) : Q :=
  match k with
  | protein => f_protein f
  | carbs => f_carbs f
  | fat => f_fat f
  | fiber => f_fiber f
  | vitamins => f_vitamins f
  end.

Definition constraintGet (c : Constraints) (k : Nutrient) : Q :=
  match k with
  | protein => c_protein c
  | carbs => c_carbs c
  | fat => c_fat c
  | fiber => c_fiber c
  | vitamins => c_vitamins c
  end.

Definition noFood : Food := mkFood "" 0 0 0 0 0 0.
Definition foodAt (foods : list Food) (j : nat) : Food := default noFood (foods !! j).
Definition keyAt (i : nat) : Nutrient := default protein (constraintKeys !! i).

Definition numConstraints : nat := 5.
Definition maxIterations : nat := 100.

(** The body of the loop of [simplexSolve] over the constraints: row [i]
    gets the negated nutrient values, its slack entry and its right-hand
    side, and [basis[i]] its slack column. *)
Definition fillConstraintRow (foods : list Food) (constraints : Constraints)
    (i : nat) (tableau : Tableau) : Tableau :=
  let numFoods := length foods in
  let numVars := numFoods in
  let totalCols := numVars + numConstraints + 1 in
  let key := keyAt i in
  let m := forRange 0 numFoods
             (fun j m => setCell m i j (- foodGet (foodAt foods j) key)%Q)
             (matrix tableau) in
  let m := setCell m i (numVars + i) (- 1)%Q in
  let m := setCell m i (totalCols - 1) (- constraintGet constraints key)%Q in
  mkTableau (rows tableau) (cols tableau) m (<[i := numVars + i]> (basis tableau)).

(** The tableau [simplexSolve] builds before it iterates. *)
Definition initialTableau (foods : list Food) (constraints : Constraints) : Tableau :=
  let numFoods := length foods in
  let numVars := numFoods in
  let numSlack := numConstraints in
  let totalCols := numVars + numSlack + 1 in
  let totalRows := numConstraints + 1 in
  let tableau := newTableau totalRows totalCols in
  let tableau :=
    forRange 0 numConstraints (fillConstraintRow foods constraints) tableau in
  forRange 0 numFoods
    (fun j tb =>
       mkTableau (rows tb) (cols tb)
         (setCell (matrix tb) (totalRows - 1) j (cost (foodAt foods j)))
         (basis tb))
    tableau.

(** ** The iteration of [simplexSolve] *)

(** The variables the [while] loop mutates: the tableau, the counter
    [iteration] and the snapshot array [iterations]. *)
Record LoopState := mkLoop {
  ls_tableau : Tableau;
  ls_iteration : nat;
  ls_iterations : list Matrix
}.

Inductive LoopExit :=
| LoopDone (st : LoopState)   (* the loop was left, by its condition or by [break] *)
| LoopUnbounded               (* [return { error: 'Problem is unbounded' }] *)
| LoopOutOfFuel.              (* the model's fuel ran out: no counterpart in the source *)

(** [while (iteration < maxIterations) { ... }] *)
Fixpoint simplexLoop (fuel : nat) (st : LoopState) : LoopExit :=
  match fuel with
  | O => LoopOutOfFuel
  | S fuel' =>
      if decide (ls_iteration st < maxIterations) then
        let tableau := ls_tableau st in
        let iterations := ls_iterations st ++ [matrix tableau] in
        match findPivotColumn tableau with
        | None => LoopDone (mkLoop tableau (ls_iteration st) iterations)
        | Some pivotCol =>
            match findPivotRow tableau pivotCol with
            | None => LoopUnbounded
            | Some pivotRow =>
                simplexLoop fuel'
                  (mkLoop (pivot tableau pivotRow pivotCol)
                          (S (ls_iteration st)) iterations)
            end
        end
      else LoopDone st
  end.

(** ** Reading the solution off the tableau *)

(** The inner search of the extraction loop for column [j]: the pair
    [(isBasic, basicRow)] it leaves; [None] is the source's [-1]. *)
Definition basicRowOf (m : Matrix) (j : nat) : bool * option nat :=
  forBreak 0 numConstraints
    (fun i '(isBasic, basicRow) =>
       if Qltb (absQ (cell m i j - 1)) epsilon then
         let allZero :=
           forBreak 0 numConstraints
             (fun k allZero =>
                if bool_decide (k ≠ i) && Qltb epsilon (absQ (cell m k j))
                then (false, true)
                else (allZero, false))
             true in
         if allZero then ((true, Some i), true) else ((isBasic, basicRow), false)
       else ((isBasic, basicRow), false))
    (false, None).

Definition extractAmounts (m : Matrix) (numFoods numVars totalCols : nat) : list Q :=
  forRange 0 numVars
    (fun j amounts =>
       match basicRowOf m j with
       | (true, Some basicRow) =>
           <[j := max0 (cell m basicRow (totalCols - 1))]> amounts
       | _ => amounts
       end)
    (replicate numFoods 0%Q).

(** [array.reduce((acc, x, i) => f(acc, x, i), init)] *)
Fixpoint reduceFrom {A B : Type} (f : B -> A -> nat -> B) (i : nat) (l : list A)
    (acc : B) : B :=
  match l with
  | [] => acc
  | x :: l' => reduceFrom f (S i) l' (f acc x i)
  end.

Definition reduce {A B : Type} (f : B -> A -> nat -> B) (l : list A) (init : B) : B :=
  reduceFrom f 0 l init.

Definition totalCostOf (amounts : list Q) (foods : list Food) : Q :=
  reduce (fun sum amt i => (sum + amt * cost (foodAt foods i))%Q) amounts 0%Q.

Definition shadowPricesOf (m : Matrix) (totalRows numVars : nat) : list (string * Q) :=
  imap (fun i key => (keyName key, absQ (cell m (totalRows - 1) (numVars + i))))
       constraintKeys.

Record Solution := mkSolution {
  amounts : list Q;
  totalCost : Q;
  shadowPrices : list (string * Q);
  iterations : list Matrix;
  feasible : bool
}.

Inductive SolveResult :=
| SolveError (error : string)
| SolveOk (sol : Solution).

(** What [simplexSolve] does once the loop is left. *)
Definition extractSolution (foods : list Food) (st : LoopState) : Solution :=
  let numFoods := length foods in
  let numVars := numFoods in
  let totalCols := numVars + numConstraints + 1 in
  let totalRows := numConstraints + 1 in
  let m := matrix (ls_tableau st) in
  let amounts := extractAmounts m numFoods numVars totalCols in
  mkSolution amounts (totalCostOf amounts foods)
             (shadowPricesOf m totalRows numVars) (ls_iterations st) true.

(** [simplexSolve(foods, constraints)] with the loop given [fuel] turns;
    [None] only when the fuel runs out. *)
Definition simplexSolveFuel (fuel : nat) (foods : list Food)
    (constraints : Constraints) : option SolveResult :=
  match simplexLoop fuel (mkLoop (initialTableau foods constraints) 0 []) with
  | LoopOutOfFuel => None
  | LoopUnbounded => Some (SolveError "Problem is unbounded")
  | LoopDone st => Some (SolveOk (extractSolution foods st))
  end.

(** The loop tests its condition at most [maxIterations + 1] times. *)
Definition simplexSolve (foods : list Food) (constraints : Constraints)
    : option SolveResult :=
  simplexSolveFuel (S maxIterations) foods constraints.

(** ** The request handlers *)

(** An element of the array [foods]: [null] or [undefined], where reading a
    property throws a [TypeError], or an object whose cost and nutrient
    fields are numbers.  (Objects with other fields are outside the model:
    they put [NaN] into the tableau.) *)
Inductive FoodItem :=
| ItemNull
| ItemFood (fd : Food).

(** The field [foods] of a request body: falsy (absent, [null], ...), some
    value that is not an array, or an array. *)
Inductive FoodsField :=
| FoodsFalsy
| FoodsNotArray
| FoodsArray (items : list FoodItem).

(** The field [constraints]: falsy, or an object whose property [key] is a
    number ([Some]) or anything else ([None]). *)
Inductive ConstraintsField :=
| ConstraintsFalsy
| ConstraintsObject (get : Nutrient -> option Q).

Record OptimizeBody := mkOptimizeBody {
  b_foods : FoodsField;
  b_constraints : ConstraintsField
}.

(** One point of the price sweep and one entry of the sensitivity report. *)
Record SweepPoint := mkSweepPoint {
  priceChange : Z;
  newPrice : Q;
  impactOnTotal : Q
}.

Record SensEntry := mkSensEntry {
  food : string;
  currentPrice : Q;
  quantity : Q;
  analysis : list SweepPoint
}.

(** [BodyInternalError] is [{ error: 'Internal server error', message }];
    the message is the runtime's text for the exception. *)
Inductive ResponseBody :=
| BodyError (error : string)
| BodyResult (sol : Solution)
| BodySensitivity (sensData : list SensEntry)
| BodyInternalError.

(** [res.status(status).json(body)]; [res.json(body)] has status 200. *)
Record Response := mkResponse {
  status : nat;
  body : ResponseBody
}.

(** The object handed to [simplexSolve] once every key is known to be a number. *)
Definition constraintsOf (get : Nutrient -> option Q) : Constraints :=
  mkConstraints (default 0%Q (get protein)) (default 0%Q (get carbs))
                (default 0%Q (get fat)) (default 0%Q (get fiber))
                (default 0%Q (get vitamins)).

(** The loop over [requiredConstraints]: the first key that is not a number
    (the handler returns from inside the loop). *)
Definition firstInvalidKey (get : Nutrient -> option Q) : option Nutrient :=
  forBreakOver constraintKeys
    (fun key (bad : option Nutrient) =>
       match get key with
       | None => (Some key, true)
       | Some _ => (bad, false)
       end)
    None.

(** How a call made inside a [try] block ends. *)
Inductive Completion (A : Type) :=
| Returned (a : A)
| Thrown.

Arguments Returned {A} a.
Arguments Thrown {A}.

(** The foods of an array none of whose elements is [null] or [undefined]. *)
Definition foodsOf (items : list FoodItem) : option (list Food) :=
  mapM (fun item => match item with
                    | ItemFood fd => Some fd
                    | ItemNull => None
                    end) items.

(** [simplexSolve(foods, constraints)] on the array as it was received: the
    first pass of the loop that fills the tableau reads [foods[j][key]] for
    every [j] and throws at an element that is [null] or [undefined]. *)
Definition simplexSolveItems (items : list FoodItem) (constraints : Constraints)
    : Completion (option SolveResult) :=
  match foodsOf items with
  | None => Thrown
  | Some foods => Returned (simplexSolve foods constraints)
  end.

(** [app.post('/api/optimize', ...)], with its [try] and [catch]; [None]
    only when the solver's fuel runs out. *)
Definition optimizeHandler (req : OptimizeBody) : option Response :=
  match b_foods req, b_constraints req with
  | FoodsFalsy, _ | _, ConstraintsFalsy =>
      Some (mkResponse 400 (BodyError "Missing foods or constraints"))
  | FoodsNotArray, _ | FoodsArray [], _ =>
      Some (mkResponse 400 (BodyError "Invalid foods array"))
  | FoodsArray items, ConstraintsObject get =>
      match firstInvalidKey get with
      | Some key =>
          Some (mkResponse 400
                  (BodyError ("Missing or invalid constraint: " ++ keyName key)))
      | None =>
          match simplexSolveItems items (constraintsOf get) with
          | Thrown => Some (mkResponse 500 BodyInternalError)
          | Returned None => None
          | Returned (Some (SolveError e)) => Some (mkResponse 400 (BodyError e))
          | Returned (Some (SolveOk sol)) => Some (mkResponse 200 (BodyResult sol))
          end
      end
  end.

(** [for (let x = lo; x <= hi; x += step) body] for a positive [step]. *)
Definition forStep {S : Type} (lo hi step : Z) (body : Z -> S -> S) (s : S) : S :=
  foldl (fun s k => body (lo + step * Z.of_nat k)%Z s) s
        (seq 0 (Z.to_nat ((hi - lo) / step + 1))).

(** The sweep computed for one used food. *)
Definition sweepOf (fd : Food) (amount : Q) : list SweepPoint :=
  forStep (-50) 50 10
    (fun pct analysis =>
       let newCost := (cost fd * (1 + inject_Z pct / 100))%Q in
       let impact := (amount * (newCost - cost fd))%Q in
       analysis ++ [mkSweepPoint pct newCost impact])
    [].

(** [solution.amounts[idx] > epsilon]; out of range the read is [undefined]
    and the comparison is false. *)
Definition isUsed (amounts : list Q) (idx : nat) : bool :=
  match amounts !! idx with
  | Some a => Qltb epsilon a
  | None => false
  end.

(** The [foods.forEach] of the sensitivity handler. *)
Definition sensitivityData (amounts : list Q) (foods : list Food) : list SensEntry :=
  reduce
    (fun sensData fd idx =>
       if isUsed amounts idx then
         sensData ++ [mkSensEntry (name fd) (cost fd) (entry amounts idx)
                                  (sweepOf fd (entry amounts idx))]
       else sensData)
    foods [].

(** [app.post('/api/sensitivity', ...)]: [solution] is [None] when falsy and
    otherwise carries its [amounts]; [foods] is [None] when falsy. *)
Definition sensitivityHandler (solution : option (list Q))
    (foods : option (list Food)) : Response :=
  match solution, foods with
  | Some amounts, Some foods =>
      mkResponse 200 (BodySensitivity (sensitivityData amounts foods))
  | _, _ => mkResponse 400 (BodyError "Missing solution or foods")
  end.

(** ** The reference data of the repository *)

Definition referenceFoods : list Food :=
  [ mkFood "Oatmeal" (1 # 2) 5 27 3 4 15;
    mkFood "Chicken Breast" 3 31 0 (18 # 5) 0 10;
    mkFood "Brown Rice" (3 # 10) (13 # 5) 23 (9 # 10) (9 # 5) 5;
    mkFood "Broccoli" (3 # 2) (14 # 5) 7 (2 # 5) (13 # 5) 135;
    mkFood "Banana" (1 # 4) (13 # 10) 27 (3 # 10) (31 # 10) 17 ].

Definition referenceConstraints : Constraints := mkConstraints 50 130 44 25 100.

(** ** Well-formed tableaux *)

(** A matrix of [r] rows of [c] columns each. *)
Definition dims (m : Matrix) (r c : nat) : Prop :=
  length m = r /\ forall i, i < r -> length (getRow m i) = c.

(** What the constructor establishes and [pivot] keeps. *)
Definition wf (t : Tableau) : Prop :=
  dims (matrix t) (rows t) (cols t) /\ length (basis t) = rows t.

(** Column [c] of the first [R] rows is the unit vector of row [r]. *)
Definition unitColumn (m : Matrix) (R c r : nat) : Prop :=
  forall i, i < R -> (cell m i c == if decide (i = r) then 1 else 0)%Q.

(** ** The ratio test, as the text states it *)

(** The ratio [-RHS[i] / matrix[i][c]] of row [i]. *)
Definition ratioOf (t : Tableau) (c i : nat) : Q :=
  (- cell (matrix t) i (cols t - 1) / cell (matrix t) i c)%Q.

(** Row [i] takes part in the ratio test of column [c] with a positive ratio. *)
Definition qualifies (t : Tableau) (c i : nat) : Prop :=
  (cell (matrix t) i c < - epsilon)%Q /\ (0 < ratioOf t c i)%Q.

(** Row [r] is the lowest constraint row with the smallest positive ratio. *)
Definition leavingRow (t : Tableau) (c r : nat) : Prop :=
  r < rows t - 1 /\ qualifies t c r /\
  (forall i, i < rows t - 1 -> qualifies t c i -> (ratioOf t c r <= ratioOf t c i)%Q) /\
  (forall i, i < r -> qualifies t c i -> (ratioOf t c r < ratioOf t c i)%Q).

(** The objective-row entry of column [j]. *)
Definition objEntry (t : Tableau) (j : nat) : Q :=
  entry (getRow (matrix t) (rows t - 1)) j.

(** Column [c] is the lowest column with the most negative objective entry. *)
Definition enteringColumn (t : Tableau) (c : nat) : Prop :=
  c < cols t - 1 /\ (objEntry t c < 0)%Q /\
  (forall j, j < cols t - 1 -> (objEntry t c <= objEntry t j)%Q) /\
  (forall j, j < c -> (objEntry t c < objEntry t j)%Q).

(** ** Runs of the engine *)

(** One turn of the loop that pivots: the entering column [c] and the
    leaving row [r] are found and the tableau is pivoted there. *)
Inductive engineStep : Tableau -> Tableau -> Prop :=
| EngineStep (t : Tableau) (c r : nat) :
    findPivotColumn t = Some c ->
    findPivotRow t c = Some r ->
    engineStep t (pivot t r c).

(** [pivots t k t']: [k] successive pivoting turns lead from [t] to [t']. *)
Inductive pivots : Tableau -> nat -> Tableau -> Prop :=
| PivotsNone (t : Tableau) : pivots t 0 t
| PivotsNext (t t1 t' : Tableau) (k : nat) :
    engineStep t t1 -> pivots t1 k t' -> pivots t (S k) t'.

(** The initial tableau, cell by cell. *)
Definition initCell (foods : list Food) (constraints : Constraints) (i j : nat) : Q :=
  let n := length foods in
  if decide (i < numConstraints) then
    if decide (j < n) then (- foodGet (foodAt foods j) (keyAt i))%Q
    else if decide (j = n + i) then (- 1)%Q
    else if decide (j = n + numConstraints) then (- constraintGet constraints (keyAt i))%Q
    else 0%Q
  else if decide (j < n) then cost (foodAt foods j) else 0%Q.

(** ** The extraction, as a property of columns *)

(** Column [j] is basic at row [i], as the code tests it: its entry in row
    [i] is within [epsilon] of 1 and no other constraint row has an entry
    beyond [epsilon]. *)
Definition basicAt (m : Matrix) (j i : nat) : Prop :=
  (absQ (cell m i j - 1) < epsilon)%Q /\
  forall k, k < numConstraints -> k ≠ i -> (absQ (cell m k j) <= epsilon)%Q.


(** [f 0 + f 1 + ... + f (n - 1)], summed from the left starting at 0. *)
Fixpoint sumUpTo (n : nat) (f : nat -> Q) : Q :=
  match n with
  | O => 0%Q
  | S k => (sumUpTo k f + f k)%Q
  end.

(** The nutrient [key] delivered by the quantities [amounts]. *)
Definition delivered (foods : list Food) (amounts : list Q) (key : Nutrient) : Q :=
  sumUpTo (length foods) (fun j => (entry amounts j * foodGet (foodAt foods j) key)%Q).

(** The test the inner loops of the extraction make on column [j], row [i]. *)
Definition offRowBeyond (m : Matrix) (j i k : nat) : bool :=
  bool_decide (k ≠ i) && Qltb epsilon (absQ (cell m k j)).

Definition basicTest (m : Matrix) (j i : nat) : bool :=
  Qltb (absQ (cell m i j - 1)) epsilon &&
  negb (existsb (offRowBeyond m j i) (seq 0 numConstraints)).

(** The quantity the extraction assigns to column [j]. *)
Definition amountOf (m : Matrix) (totalCols j : nat) : Q :=
  match basicRowOf m j with
  | (true, Some basicRow) => max0 (cell m basicRow (totalCols - 1))
  | _ => 0%Q
  end.

(** ** Concrete inputs *)



(** Two foods of negative cost; the engine pivots once on the first. *)
Definition negativeFoods : list Food :=
  [ mkFood "C" (- 2) 0 1 0 0 0;
    mkFood "B" (- (1 # 10000000)) (- 1) (1 # 10000000) 0 0 0 ].

Definition negativeConstraints : Constraints := mkConstraints (- 5) (- 1) 0 0 0.

(** A food that costs nothing and delivers nothing, and one that pays. *)
Definition zeroFood : Food := mkFood "Z" 0 0 0 0 0 0.
Definition payingFood : Food := mkFood "P" (- 1) 0 0 0 0 0.

(** A tableau whose first two rows tie in the ratio test of column 0. *)
Definition tieTableau : Tableau :=
  mkTableau 4 3
    [ [- 1; 0; 2]; [- 2; 0; 4]; [1; 0; 3]; [- 1; 0; 0] ]%Q
    [1; 1; 1; 0].

(** The request whose foods are the objects [foods] and whose requirements
    are the numbers of [constraints]. *)
Definition requestOf (foods : list Food) (constraints : Constraints) : OptimizeBody :=
  mkOptimizeBody (FoodsArray (ItemFood <$> foods))
                 (ConstraintsObject (fun key => Some (constraintGet constraints key))).

(** ** The sensitivity sweep, as the text states it *)

Definition sweepPercents : list Z := [-50; -40; -30; -20; -10; 0; 10; 20; 30; 40; 50]%Z.

(** The point of the sweep at [pct] for a food of quantity [amount]. *)
Definition sweepPoint (fd : Food) (amount : Q) (pct : Z) : SweepPoint :=
  let newCost := (cost fd * (1 + inject_Z pct / 100))%Q in
  mkSweepPoint pct newCost (amount * (newCost - cost fd))%Q.

(** The items in use, with their indices, in the order of the list. *)
Definition usedItems (amounts : list Q) (foods : list Food) : list (nat * Food) :=
  List.filter (fun p => isUsed amounts (fst p)) (imap pair foods).

(** The report entry of item [p]. *)
Definition sensEntryOf (amounts : list Q) (p : nat * Food) : SensEntry :=
  mkSensEntry (name (snd p)) (cost (snd p)) (entry amounts (fst p))
              (map (sweepPoint (snd p) (entry amounts (fst p))) sweepPercents).

(** * The tableau in double precision

    The same [class Tableau] and the same construction of the initial
    tableau, with every number a binary64 value and every operation the
    IEEE 754 one ([PrimFloat]): a quotient or a product can round, overflow
    to an infinity or be [NaN], and a comparison with [NaN] is false.  This
    is the arithmetic the program runs on; it is used where a statement
    depends on it.  A read outside an array gives [undefined] in the source,
    which compares as [NaN] does and turns into [NaN] in arithmetic: it is
    [nan] here. *)

Module Double.

Abbreviation Matrix := (list (list float)).

#[warnings="-inexact-float"]
Definition epsilon : float := 1e-6%float.

Definition getRow (m : Matrix) (i : nat) : list float := default [] (m !! i).
Definition entry (row : list float) (j : nat) : float := default nan (row !! j).
Definition cell (m : Matrix) (i j : nat) : float := entry (getRow m i) j.
Definition setCell (m : Matrix) (i j : nat) (v : float) : Matrix :=
  alter (fun row => <[j := v]> row) i m.

Record Tableau := mkTableau {
  rows : nat;
  cols : nat;
  matrix : Matrix;
  basis : list nat
}.

(** [constructor(rows, cols)] *)
Definition newTableau (rows cols : nat) : Tableau :=
  mkTableau rows cols (replicate rows (replicate cols 0%float)) (replicate rows 0%nat).

(** [findPivotColumn()]; [None] is the source's [-1]. *)
Definition findPivotColumn (t : Tableau) : option nat :=
  let objRow := getRow (matrix t) (rows t - 1) in
  snd (forRange 0 (cols t - 1)
         (fun j '(minVal, pivotCol) =>
            if (entry objRow j <? minVal)%float
            then (entry objRow j, Some j)
            else (minVal, pivotCol))
         (0%float, None)).

(** One iteration of the loop of [findPivotRow]. *)
Definition pivotRowBody (t : Tableau) (pivotCol : nat) (i : nat)
    (st : float * option nat) : float * option nat :=
  let '(minRatio, pivotRow) := st in
  let elem := cell (matrix t) i pivotCol in
  if (elem <? - epsilon)%float then
    let rhs := cell (matrix t) i (cols t - 1) in
    let ratio := (- rhs / elem)%float in
    if (0 <? ratio)%float && (ratio <? minRatio)%float
    then (ratio, Some i)
    else (minRatio, pivotRow)
  else (minRatio, pivotRow).

(** [findPivotRow(pivotCol)]; [None] is the source's [-1]. *)
Definition findPivotRow (t : Tableau) (pivotCol : nat) : option nat :=
  snd (forRange 0 (rows t - 1) (pivotRowBody t pivotCol) (infinity, None)).

(** [pivot(pivotRow, pivotCol)] *)
Definition pivot (t : Tableau) (pivotRow pivotCol : nat) : Tableau :=
  let pivotElem := cell (matrix t) pivotRow pivotCol in
  let m1 :=
    forRange 0 (cols t)
      (fun j m => setCell m pivotRow j (cell m pivotRow j / pivotElem)%float)
      (matrix t) in
  let m2 :=
    forRange 0 (rows t)
      (fun i m =>
         if decide (i ≠ pivotRow) then
           let factor := cell m i pivotCol in
           forRange 0 (cols t)
             (fun j m' =>
                setCell m' i j (cell m' i j - factor * cell m' pivotRow j)%float)
             m
         else m)
      m1 in
  mkTableau (rows t) (cols t) m2 (<[pivotRow := pivotCol]> (basis t)).

(** The inputs of [simplexSolve]. *)
Record Food := mkFood {
  name : string;
  cost : float;
  f_protein : float;
  f_carbs : float;
  f_fat : float;
  f_fiber : float;
  f_vitamins : float
}.

Record Constraints := mkConstraints {
  c_protein : float;
  c_carbs : float;
  c_fat : float;
  c_fiber : float;
  c_vitamins : float
}.

Definition foodGet (f : Food) (k : Nutrient) : float :=
  match k with
  | protein => f_protein f
  | carbs => f_carbs f
  | fat => f_fat f
  | fiber => f_fiber f
  | vitamins => f_vitamins f
  end.

Definition constraintGet (c : Constraints) (k : Nutrient) : float :=
  match k with
  | protein => c_protein c
  | carbs => c_carbs c
  | fat => c_fat c
  | fiber => c_fiber c
  | vitamins => c_vitamins c
  end.

Definition noFood : Food := mkFood "" nan nan nan nan nan nan.
Definition foodAt (foods : list Food) (j : nat) : Food := default noFood (foods !! j).

Definition fillConstraintRow (foods : list Food) (constraints : Constraints)
    (i : nat) (tableau : Tableau) : Tableau :=
  let numFoods := length foods in
  let numVars := numFoods in
  let totalCols := numVars + numConstraints + 1 in
  let key := keyAt i in
  let m := forRange 0 numFoods
             (fun j m => setCell m i j (- foodGet (foodAt foods j) key)%float)
             (matrix tableau) in
  let m := setCell m i (numVars + i) (- 1)%float in
  let m := setCell m i (totalCols - 1) (- constraintGet constraints key)%float in
  mkTableau (rows tableau) (cols tableau) m (<[i := numVars + i]> (basis tableau)).

(** The tableau [simplexSolve] builds before it iterates. *)
Definition initialTableau (foods : list Food) (constraints : Constraints) : Tableau :=
  let numFoods := length foods in
  let numVars := numFoods in
  let numSlack := numConstraints in
  let totalCols := numVars + numSlack + 1 in
  let totalRows := numConstraints + 1 in
  let tableau := newTableau totalRows totalCols in
  let tableau :=
    forRange 0 numConstraints (fillConstraintRow foods constraints) tableau in
  forRange 0 numFoods
    (fun j tb =>
       mkTableau (rows tb) (cols tb)
         (setCell (matrix tb) (totalRows - 1) j (cost (foodAt foods j)))
         (basis tb))
    tableau.

(** ** Well-formed tableaux and finite entries *)

(** A double that is neither an infinity nor [NaN]. *)
Definition finite (x : float) : Prop := (abs x <? infinity)%float = true.

(** A matrix of [r] rows of [c] columns each. *)
Definition dims (m : Matrix) (r c : nat) : Prop :=
  length m = r /\ forall i, i < r -> length (getRow m i) = c.

(** What the constructor establishes and [pivot] keeps. *)
Definition wf (t : Tableau) : Prop :=
  dims (matrix t) (rows t) (cols t) /\ length (basis t) = rows t.

(** Column [c] of the first [R] rows is the unit vector of row [r]. *)
Definition unitColumn (m : Matrix) (R c r : nat) : Prop :=
  forall i, i < R -> cell m i c = if decide (i = r) then 1%float else 0%float.

(** One turn of the loop of [simplexSolve] that pivots. *)
Inductive engineStep : Tableau -> Tableau -> Prop :=
| EngineStep (t : Tableau) (c r : nat) :
    findPivotColumn t = Some c ->
    findPivotRow t c = Some r ->
    engineStep t (pivot t r c).

(** ** The search for the entering column, as the text states it *)

(** The objective-row entry of column [j]. *)
Definition objEntry (t : Tableau) (j : nat) : float :=
  entry (getRow (matrix t) (rows t - 1)) j.

(** Column [c] is the lowest column whose objective entry is negative and
    has no entry below it. *)
Definition enteringColumn (t : Tableau) (c : nat) : Prop :=
  c < cols t - 1 /\ (objEntry t c <? 0)%float = true /\
  (forall j, j < cols t - 1 -> (objEntry t j <? objEntry t c)%float = false) /\
  (forall j, j < c -> (objEntry t j <? 0)%float = true ->
     (objEntry t c <? objEntry t j)%float = true).

(** ** The ratio test, as the text states it *)

(** The ratio [-RHS[i] / matrix[i][c]] of row [i], as computed. *)
Definition ratioOf (t : Tableau) (c i : nat) : float :=
  (- cell (matrix t) i (cols t - 1) / cell (matrix t) i c)%float.

(** Row [i] takes part in the ratio test of column [c] with a ratio that is
    strictly positive. *)
Definition positiveRatio (t : Tableau) (c i : nat) : Prop :=
  (cell (matrix t) i c <? - epsilon)%float = true /\
  (0 <? ratioOf t c i)%float = true.

(** The same, with a ratio that is also below [Infinity]. *)
Definition qualifies (t : Tableau) (c i : nat) : Prop :=
  positiveRatio t c i /\ (ratioOf t c i <? infinity)%float = true.

(** Row [r] is the lowest constraint row with the smallest ratio among the
    rows that qualify. *)
Definition leavingRow (t : Tableau) (c r : nat) : Prop :=
  r < rows t - 1 /\ qualifies t c r /\
  (forall i, i < rows t - 1 -> qualifies t c i ->
     (ratioOf t c i <? ratioOf t c r)%float = false) /\
  (forall i, i < r -> qualifies t c i ->
     (ratioOf t c r <? ratioOf t c i)%float = true).

(** ** Concrete inputs *)

(** One constraint row whose ratio [2^1020 / 2^-10] is beyond the largest
    double. *)
Definition overflowTableau : Tableau :=
  mkTableau 2 2 [ [- 0x1p-10; 0x1p1020]; [0; 0] ]%float [0; 0].

(** Two foods with an entry of [-2^700]: the first pivot multiplies it with
    itself. *)
Definition overflowFoods : list Food :=
  [ mkFood "A" (- 2) 1 (- 0x1p700) 0 0 0;
    mkFood "B" 0 (- 0x1p700) 0 1 0 0 ]%float.

Definition overflowConstraints : Constraints :=
  mkConstraints (- 1) 0 (- 1) 0 0.

(** The first two rows tie in the ratio test of column 0. *)
Definition tieTableau : Tableau :=
  mkTableau 4 3
    [ [- 1; 0; 2]; [- 2; 0; 4]; [1; 0; 3]; [- 1; 0; 0] ]%float
    [1; 1; 1; 0].

End Double.

(** * The browser copy of the solver

    [simplex] of the React component in [diet-optimizer.jsx] holds the same
    algorithm inline, over a tableau built by pushing rows, with three
    differences: the loop is capped at 50 turns, the ratio test takes every
    negative entry (there is no epsilon), and a failed ratio test leaves the
    loop by [break], after which the quantities are read off the tableau as
    after an optimum.  Numbers are exact rationals, as in the main
    development. *)

Module Browser.

Definition maxIter : nat := 50.

(** [col.findIndex(p)]; [None] is the source's [-1]. *)
Fixpoint findIndexFrom {A : Type} (p : A -> bool) (i : nat) (l : list A) : option nat :=
  match l with
  | [] => None
  | x :: l' => if p x then Some i else findIndexFrom p (S i) l'
  end.

Definition findIndex {A : Type} (p : A -> bool) (l : list A) : option nat :=
  findIndexFrom p 0 l.

(** The tableau [tab] the function builds by pushing rows. *)
Definition initialTab (foods : list Food) (constraints : Constraints) : Matrix :=
  let numConstraints := 5 in
  let tab :=
    reduce
      (fun (tab : Matrix) constraint i =>
         let row := reduce (fun row fd _ => row ++ [(- foodGet fd constraint)%Q])
                           foods [] in
         let row := forRange 0 numConstraints
                      (fun j row => row ++ [if decide (i = j) then (- 1)%Q else 0%Q])
                      row in
         let row := row ++ [(- constraintGet constraints constraint)%Q] in
         tab ++ [row])
      constraintKeys [] in
  let objRow := reduce (fun objRow fd _ => objRow ++ [cost fd]) foods [] in
  let objRow := forRange 0 numConstraints (fun _ objRow => objRow ++ [0%Q]) objRow in
  let objRow := objRow ++ [0%Q] in
  tab ++ [objRow].

(** The search for the entering column, inline in the loop. *)
Definition enterColOf (tab : Matrix) : option nat :=
  let objRow := getRow tab (length tab - 1) in
  snd (forRange 0 (length objRow - 1)
         (fun j '(minVal, enterCol) =>
            if Qltb (entry objRow j) minVal
            then (entry objRow j, Some j)
            else (minVal, enterCol))
         (0%Q, None)).

(** One turn of the ratio test: here every negative entry takes part. *)
Definition leaveRowBody (tab : Matrix) (enterCol : nat) (i : nat)
    (st : option Q * option nat) : option Q * option nat :=
  let '(minRatio, leaveRow) := st in
  if Qltb (cell tab i enterCol) 0 then
    let ratio := (- cell tab i (length (getRow tab i) - 1) / cell tab i enterCol)%Q in
    if Qltb 0 ratio && ltInf ratio minRatio
    then (Some ratio, Some i)
    else (minRatio, leaveRow)
  else (minRatio, leaveRow).

Definition leaveRowOf (tab : Matrix) (enterCol : nat) : option nat :=
  snd (forRange 0 (length tab - 1) (leaveRowBody tab enterCol) (None, None)).

(** The pivot operation, inline in the loop. *)
Definition pivotTab (tab : Matrix) (leaveRow enterCol : nat) : Matrix :=
  let pivot := cell tab leaveRow enterCol in
  let tab :=
    forRange 0 (length (getRow tab leaveRow))
      (fun j tab => setCell tab leaveRow j (cell tab leaveRow j / pivot)%Q)
      tab in
  forRange 0 (length tab)
    (fun i tab =>
       if decide (i ≠ leaveRow) then
         let factor := cell tab i enterCol in
         forRange 0 (length (getRow tab i))
           (fun j tab' =>
              setCell tab' i j (cell tab' i j - factor * cell tab' leaveRow j)%Q)
           tab
       else tab)
    tab.

(** What the [while] loop mutates. *)
Record LoopState := mkLoop {
  tab : Matrix;
  iter : nat;
  iterations : list Matrix
}.

(** [while (iter < maxIter) { ... }]: both exits are [break]s; [None] only
    when the model's fuel runs out. *)
Fixpoint simplexLoop (fuel : nat) (st : LoopState) : option LoopState :=
  match fuel with
  | O => None
  | S fuel' =>
      if decide (iter st < maxIter) then
        let iterations := iterations st ++ [tab st] in
        match enterColOf (tab st) with
        | None => Some (mkLoop (tab st) (iter st) iterations)
        | Some enterCol =>
            match leaveRowOf (tab st) enterCol with
            | None => Some (mkLoop (tab st) (iter st) iterations)
            | Some leaveRow =>
                simplexLoop fuel'
                  (mkLoop (pivotTab (tab st) leaveRow enterCol) (S (iter st)) iterations)
            end
        end
      else Some st
  end.

(** The extraction of the quantity of column [j]: the column is read over
    every row of [tab], the objective row included. *)
Definition extractColumn (tab : Matrix) (j : nat) (amounts : list Q) : list Q :=
  let col := map (fun row => entry row j) tab in
  let nonZero := List.filter (fun v => Qltb epsilon (absQ v)) col in
  if (length nonZero =? 1) && Qltb (absQ (entry nonZero 0 - 1)) epsilon then
    match findIndex (fun v => Qltb (absQ (v - 1)) epsilon) col with
    | Some rowIdx =>
        <[j := max0 (entry (getRow tab rowIdx) (length (getRow tab rowIdx) - 1))]> amounts
    | None => amounts
    end
  else amounts.

Definition extractAmounts (tab : Matrix) (numVars : nat) : list Q :=
  forRange 0 numVars (extractColumn tab) (replicate numVars 0%Q).

(** The state the function sets: [solution], [tableau], [iteration] and
    [shadowPrices]. *)
Record Outcome := mkOutcome {
  amounts : list Q;
  totalCost : Q;
  tableau : list Matrix;
  iteration : nat;
  shadowPrices : list (string * Q)
}.

Definition outcomeOf (foods : list Food) (st : LoopState) : Outcome :=
  let numVars := length foods in
  let amounts := extractAmounts (tab st) numVars in
  mkOutcome amounts (totalCostOf amounts foods) (iterations st)
            (length (iterations st) - 1)
            (shadowPricesOf (tab st) (length (tab st)) numVars).

Definition simplexFuel (fuel : nat) (foods : list Food) (constraints : Constraints)
    : option Outcome :=
  match simplexLoop fuel (mkLoop (initialTab foods constraints) 0 []) with
  | Some st => Some (outcomeOf foods st)
  | None => None
  end.

(** [simplex()] on the foods and constraints of the component's state. *)
Definition simplex (foods : list Food) (constraints : Constraints) : option Outcome :=
  simplexFuel (S maxIter) foods constraints.

End Browser.

(** ** Further concrete inputs *)

(** A tableau whose one constraint row has the entry [-1e-7] in column 0,
    which is negative but not below [-epsilon]. *)
Definition smallEntryTableau : Tableau :=
  mkTableau 2 2 [ [- (1 # 10000000); 1]; [- 1; 0] ]%Q [0; 0].

(** * Further parts of the program *)

(** ** Readings of a tableau *)

(** The right-hand side of row [i]. *)
Definition rhsOf (t : Tableau) (i : nat) : Q := cell (matrix t) i (cols t - 1).

(** No requirement is negative. *)
Definition requirementsNonneg (constraints : Constraints) : Prop :=
  forall key, (0 <= constraintGet constraints key)%Q.

(** The position of a key in [constraintKeys]. *)
Definition keyIndex (k : Nutrient) : nat :=
  match k with
  | protein => 0
  | carbs => 1
  | fat => 2
  | fiber => 3
  | vitamins => 4
  end.

(** ** The handler of [/api/dual] *)

Record Interpretation := mkInterpretation {
  nutrient : string;
  shadowPrice : Q;
  meaning : string
}.

Record DualProblem := mkDualProblem {
  primal_objective : string;
  primal_constraints : string;
  primal_variables : list string;
  dual_objective : string;
  dual_constraints : string;
  dual_variables : list string;
  dual_shadowPrices : list (string * Q);
  interpretation : list Interpretation
}.

Inductive DualBody :=
| DualBodyError (error : string)
| DualBodyProblem (dualProblem : DualProblem)
| DualBodyInternalError.

Record DualResponse := mkDualResponse {
  dual_status : nat;
  dual_body : DualBody
}.

Section Dual.
(** [price.toFixed(6)]: the number formatting of the JavaScript runtime. *)
Variable toFixed6 : Q -> string.

(** [Object.entries(result.shadowPrices).map(([nutrient, price]) => ...)] *)
Definition interpretationOf (shadowPrices : list (string * Q)) : list Interpretation :=
  map (fun '(nutrient, price) =>
         mkInterpretation nutrient price
           ("Increasing " ++ nutrient
            ++ " constraint by 1 unit would increase minimum cost by $"
            ++ toFixed6 price))
      shadowPrices.

(** [app.post('/api/dual', ...)], with its [try] and [catch].  [foods] and
    [constraints] are [None] when falsy; otherwise [foods] is an array (an
    empty one included) and [constraints] an object with five numbers.  The
    handler checks neither: a truthy [foods] that is not an array and
    requirements that are not numbers are outside the model.  [None] as
    result only when the solver's fuel runs out. *)
Definition dualHandler (foods : option (list FoodItem))
    (constraints : option Constraints) : option DualResponse :=
  match foods, constraints with
  | Some items, Some constraints =>
      match simplexSolveItems items constraints, foodsOf items with
      | Returned None, _ => None
      | Returned (Some (SolveError e)), _ =>
          Some (mkDualResponse 400 (DualBodyError e))
      | Returned (Some (SolveOk result)), Some foods =>
          Some (mkDualResponse 200
                  (DualBodyProblem
                     (mkDualProblem
                        "Minimize cost" "Meet nutritional requirements"
                        (map name foods)
                        "Maximize nutritional value" "Stay within budget"
                        ["protein"; "carbs"; "fat"; "fiber"; "vitamins"]%string
                        (shadowPrices result)
                        (interpretationOf (shadowPrices result)))))
      | _, _ => Some (mkDualResponse 500 DualBodyInternalError)
      end
  | _, _ => Some (mkDualResponse 400 (DualBodyError "Missing foods or constraints"))
  end.
End Dual.

(** * Properties *)

(** ** Comparisons *)

Lemma Qltb_lt (x y : Q) : Qltb x y = true <-> (x < y)%Q.
Proof.
  unfold Qltb. rewrite Qlt_alt.
  destruct (x ?= y)%Q; split; congruence.
Qed.

Lemma Qltb_ge (x y : Q) : Qltb x y = false <-> (y <= x)%Q.
Proof.
  split; intros H.
  - apply Qnot_lt_le. intros Hlt. apply Qltb_lt in Hlt. congruence.
  - destruct (Qltb x y) eqn:E; [|done].
    apply Qltb_lt in E. exfalso. revert E. by apply Qle_not_lt.
Qed.

Lemma Qltb_reflect (x y : Q) : reflect (x < y)%Q (Qltb x y).
Proof.
  destruct (Qltb x y) eqn:E; constructor.
  - by apply Qltb_lt.
  - apply Qle_not_lt. by apply Qltb_ge.
Qed.

Lemma epsilon_pos : (0 < epsilon)%Q.
Proof. reflexivity. Qed.

Lemma max0_nonneg (x : Q) : (0 <= max0 x)%Q.
Proof.
  unfold max0. destruct (Qltb_reflect 0 x); lra.
Qed.

Lemma max0_Qmax (x : Q) : (max0 x == Qmax 0 x)%Q.
Proof.
  unfold max0. destruct (Qltb_reflect 0 x) as [H|H].
  - symmetry. apply Q.max_r. lra.
  - symmetry. rewrite Q.max_l; [reflexivity | lra].
Qed.

Lemma absQ_lt (x e : Q) : (absQ x < e)%Q <-> (- e < x < e)%Q.
Proof.
  unfold absQ. destruct (Qltb_reflect x 0); split; intros; lra.
Qed.

Lemma absQ_gt (x e : Q) : (0 <= e)%Q -> (e < absQ x)%Q <-> (x < - e \/ e < x)%Q.
Proof.
  intros He. unfold absQ. destruct (Qltb_reflect x 0); split; intros; lra.
Qed.

Lemma absQ_Qabs (x : Q) : (absQ x == Qabs x)%Q.
Proof.
  unfold absQ. destruct (Qltb_reflect x 0) as [H|H].
  - symmetry. apply Qabs_neg. lra.
  - symmetry. apply Qabs_pos. lra.
Qed.

(** ** Loops *)

Lemma forRange_S {S : Type} (n : nat) (body : nat -> S -> S) (s : S) :
  forRange 0 (Datatypes.S n) body s = body n (forRange 0 n body s).
Proof.
  unfold forRange. rewrite !Nat.sub_0_r, seq_S, foldl_app. reflexivity.
Qed.

(** The invariant rule of a counted loop. *)
Lemma forRange_inv {S : Type} (P : nat -> S -> Prop) (n : nat)
    (body : nat -> S -> S) (s : S) :
  P 0 s ->
  (forall i s', i < n -> P i s' -> P (Datatypes.S i) (body i s')) ->
  P n (forRange 0 n body s).
Proof.
  induction n as [|n IH]; intros H0 Hstep.
  - exact H0.
  - rewrite forRange_S. apply Hstep; [lia|].
    apply IH; [exact H0|]. intros i s' Hi. apply Hstep. lia.
Qed.

(** ** Matrices *)

Lemma getRow_setCell (m : Matrix) (i j k : nat) (v : Q) :
  getRow (setCell m i j v) k =
  if decide (k = i) then <[j := v]> (getRow m i) else getRow m k.
Proof.
  unfold getRow, setCell. destruct (decide (k = i)) as [->|Hne].
  - rewrite list_lookup_alter_eq. by destruct (m !! i).
  - by rewrite list_lookup_alter_ne.
Qed.

Lemma entry_insert (row : list Q) (j j' : nat) (v : Q) :
  entry (<[j := v]> row) j' =
  if decide (j' = j /\ j < length row) then v else entry row j'.
Proof.
  unfold entry. destruct (decide (j' = j /\ j < length row)) as [[-> Hlt]|Hn].
  - by rewrite list_lookup_insert_eq.
  - destruct (decide (j' = j)) as [->|Hne].
    + assert (length row <= j) as Hge by lia.
      by rewrite list_insert_ge.
    + by rewrite list_lookup_insert_ne.
Qed.

Lemma cell_setCell (m : Matrix) (i j i' j' : nat) (v : Q) :
  cell (setCell m i j v) i' j' =
  if decide (i' = i /\ j' = j /\ j < length (getRow m i)) then v else cell m i' j'.
Proof.
  unfold cell. rewrite getRow_setCell.
  destruct (decide (i' = i)) as [->|Hne].
  - rewrite entry_insert.
    destruct (decide (j' = j /\ j < length (getRow m i)));
      destruct (decide (i = i /\ j' = j /\ j < length (getRow m i))); tauto || done.
  - destruct (decide (i' = i /\ j' = j /\ j < length (getRow m i))); tauto || done.
Qed.

Lemma dims_setCell (m : Matrix) (r c i j : nat) (v : Q) :
  dims m r c -> dims (setCell m i j v) r c.
Proof.
  intros [Hlen Hrows]. split.
  - unfold setCell. by rewrite length_alter.
  - intros k Hk. rewrite getRow_setCell.
    destruct (decide (k = i)) as [->|]; [|by apply Hrows].
    rewrite length_insert. by apply Hrows.
Qed.

Lemma dims_replicate (r c : nat) : dims (replicate r (replicate c 0%Q)) r c.
Proof.
  split; [by rewrite length_replicate|].
  intros i Hi. unfold getRow.
  rewrite lookup_replicate_2 by done. simpl. by rewrite length_replicate.
Qed.

Lemma cell_replicate (r c i j : nat) : cell (replicate r (replicate c 0%Q)) i j = 0%Q.
Proof.
  unfold cell, getRow, entry.
  destruct (decide (i < r)) as [Hi|Hi].
  - rewrite lookup_replicate_2 by done. simpl.
    destruct (decide (j < c)) as [Hj|Hj].
    + by rewrite lookup_replicate_2.
    + rewrite (lookup_ge_None_2 (replicate c 0%Q) j); [done|].
      rewrite length_replicate. lia.
  - rewrite (lookup_ge_None_2 _ i); [done|]. rewrite length_replicate. lia.
Qed.

(** A loop that rewrites row [i] cell by cell, each new value a function
    [h j] of the old one, leaves the other rows alone. *)
Lemma row_loop (m : Matrix) (i n R C : nat) (g : nat -> Matrix -> Q)
    (h : nat -> Q -> Q) :
  dims m R C -> i < R -> n <= C ->
  (forall j (m' : Matrix),
      (forall k, k ≠ i -> getRow m' k = getRow m k) ->
      g j m' = h j (cell m' i j)) ->
  let m1 := forRange 0 n (fun j m' => setCell m' i j (g j m')) m in
  dims m1 R C /\
  (forall k, k ≠ i -> getRow m1 k = getRow m k) /\
  (forall j, cell m1 i j = if decide (j < n) then h j (cell m i j) else cell m i j).
Proof.
  intros Hd Hi Hn Hg m1. subst m1.
  pose (P := fun (n' : nat) (m' : Matrix) =>
              dims m' R C /\
              (forall k, k ≠ i -> getRow m' k = getRow m k) /\
              (forall j, cell m' i j =
                         if decide (j < n') then h j (cell m i j) else cell m i j)).
  apply (forRange_inv P); unfold P.
  - split; [done|]. split; [done|].
    intros j. destruct (decide (j < 0)); [lia|done].
  - intros j m' Hj (Hd' & Hrows & Hcells).
    split; [by apply dims_setCell|]. split.
    + intros k Hk. rewrite getRow_setCell.
      destruct (decide (k = i)); [done|]. by apply Hrows.
    + intros j'. rewrite cell_setCell.
      assert (length (getRow m' i) = C) as Hlen by (by apply Hd').
      destruct (decide (i = i /\ j' = j /\ j < length (getRow m' i)))
        as [(_ & -> & _)|Hno].
      * rewrite (Hg j m' Hrows), Hcells.
        destruct (decide (j < j)); [lia|].
        destruct (decide (j < S j)); [done|lia].
      * rewrite Hcells.
        assert (j' ≠ j) by (intros ->; apply Hno; split; [done|split; [done|lia]]).
        destruct (decide (j' < j)); destruct (decide (j' < S j)); done || lia.
Qed.

Lemma cell_getRow_eq (m m' : Matrix) (k j : nat) :
  getRow m' k = getRow m k -> cell m' k j = cell m k j.
Proof. unfold cell. by intros ->. Qed.

(** The tableau after [pivot], cell by cell. *)
Lemma pivot_cells (t : Tableau) (r c : nat) :
  dims (matrix t) (rows t) (cols t) -> r < rows t ->
  let m := matrix t in
  let p := cell m r c in
  let m' := matrix (pivot t r c) in
  dims m' (rows t) (cols t) /\
  forall i j, i < rows t -> j < cols t ->
    cell m' i j =
    if decide (i = r) then (cell m r j / p)%Q
    else (cell m i j - cell m i c * (cell m r j / p))%Q.
Proof.
  intros Hd Hr m p m'. subst m'. unfold pivot. cbn [matrix].
  fold m. fold p.
  set (m1 := forRange 0 (cols t) _ m).
  destruct (row_loop m r (cols t) (rows t) (cols t)
              (fun j m' => (cell m' r j / p)%Q) (fun j x => (x / p)%Q))
    as (Hd1 & Hrows1 & Hcells1); [done|done|lia|done|].
  fold m1 in Hd1, Hrows1, Hcells1.
  set (body := fun i m0 => if decide (i ≠ r) then _ else m0).
  assert (forall n, n <= rows t ->
            let m2 := forRange 0 n body m1 in
            dims m2 (rows t) (cols t) /\
            getRow m2 r = getRow m1 r /\
            forall k, k ≠ r -> k < rows t -> forall j,
              cell m2 k j =
              if decide (k < n /\ j < cols t)
              then (cell m1 k j - cell m1 k c * cell m1 r j)%Q
              else cell m1 k j) as Hloop.
  { intros n Hn. cbv zeta.
    pose (P := fun (n' : nat) (m2 : Matrix) =>
                dims m2 (rows t) (cols t) /\
                getRow m2 r = getRow m1 r /\
                forall k, k ≠ r -> k < rows t -> forall j,
                  cell m2 k j =
                  if decide (k < n' /\ j < cols t)
                  then (cell m1 k j - cell m1 k c * cell m1 r j)%Q
                  else cell m1 k j).
    apply (forRange_inv P); unfold P.
    - split; [done|]. split; [done|].
      intros k _ _ j. destruct (decide (k < 0 /\ j < cols t)); [lia|done].
    - intros i m2 Hi (Hd2 & Hr2 & Hc2).
      unfold body. destruct (decide (i ≠ r)) as [Hne|Heq].
      + destruct (row_loop m2 i (cols t) (rows t) (cols t)
                    (fun j m' => (cell m' i j - cell m2 i c * cell m' r j)%Q)
                    (fun j x => (x - cell m2 i c * cell m1 r j)%Q))
          as (Hd3 & Hrows3 & Hcells3); [done|lia|lia| |].
        { intros j m0 Hm0. f_equal. f_equal.
          rewrite (cell_getRow_eq m2 m0) by (apply Hm0; congruence).
          by apply cell_getRow_eq. }
        split; [done|]. split.
        { rewrite Hrows3 by congruence. done. }
        intros k Hk Hkr j. destruct (decide (k = i)) as [->|Hki].
        * rewrite Hcells3. rewrite !Hc2 by done.
          destruct (decide (i < i /\ j < cols t)); [lia|].
          destruct (decide (i < i /\ c < cols t)); [lia|].
          destruct (decide (j < cols t)); destruct (decide (i < S i /\ j < cols t));
            try lia; try done.
        * rewrite (cell_getRow_eq m2) by (by apply Hrows3).
          rewrite Hc2 by done.
          destruct (decide (k < i /\ j < cols t));
            destruct (decide (k < S i /\ j < cols t)); done || lia.
      + assert (i = r) as -> by (destruct (decide (i = r)); [done|tauto]).
        split; [done|]. split; [done|].
        intros k Hk Hkr j. rewrite Hc2 by done.
        destruct (decide (k < r /\ j < cols t));
          destruct (decide (k < S r /\ j < cols t)); done || lia. }
  destruct (Hloop (rows t)) as (Hd2 & Hr2 & Hc2); [lia|].
  split; [done|].
  intros i j Hi Hj. destruct (decide (i = r)) as [->|Hne].
  - rewrite (cell_getRow_eq m1) by done. rewrite Hcells1.
    destruct (decide (j < cols t)); [done|lia].
  - rewrite Hc2 by done.
    destruct (decide (i < rows t /\ j < cols t)); [|lia].
    rewrite !(cell_getRow_eq m m1) by (by apply Hrows1).
    rewrite Hcells1. destruct (decide (j < cols t)); [done|lia].
Qed.

(** ** The pivot selector *)

Lemma findPivotColumn_inv (t : Tableau) (n : nat) :
  let st := forRange 0 n
              (fun j '(minVal, pivotCol) =>
                 if Qltb (objEntry t j) minVal
                 then (objEntry t j, Some j)
                 else (minVal, pivotCol))
              (0%Q, None) in
  (forall j, j < n -> (fst st <= objEntry t j)%Q) /\
  match snd st with
  | None => fst st = 0%Q
  | Some c => c < n /\ fst st = objEntry t c /\ (objEntry t c < 0)%Q /\
              forall j, j < c -> (objEntry t c < objEntry t j)%Q
  end.
Proof.
  cbv zeta.
  pose (P := fun (n' : nat) (st : Q * option nat) =>
    (forall j, j < n' -> (fst st <= objEntry t j)%Q) /\
    match snd st with
    | None => fst st = 0%Q
    | Some c => c < n' /\ fst st = objEntry t c /\ (objEntry t c < 0)%Q /\
                forall j, j < c -> (objEntry t c < objEntry t j)%Q
    end).
  apply (forRange_inv P); unfold P.
  - split; [intros j Hj; lia|done].
  - intros j [minVal pivotCol] Hj [Hmin Hcol]. cbn [fst snd] in *.
    destruct (Qltb_reflect (objEntry t j) minVal) as [Hlt|Hge]; cbn [fst snd].
    + split.
      * intros j' Hj'. destruct (decide (j' = j)) as [->|]; [lra|].
        specialize (Hmin j' ltac:(lia)). lra.
      * split; [lia|]. split; [done|]. split.
        -- destruct pivotCol as [c|]; [|subst minVal; lra].
           destruct Hcol as (_ & -> & Hneg & _). lra.
        -- intros j' Hj'. specialize (Hmin j' Hj'). lra.
    + split.
      * intros j' Hj'. destruct (decide (j' = j)) as [->|]; [lra|].
        apply Hmin. lia.
      * destruct pivotCol as [c|]; [|done].
        destruct Hcol as (Hc & Heq & Hneg & Hlow). split; [lia|done].
Qed.

Lemma findPivotColumn_spec (t : Tableau) :
  match findPivotColumn t with
  | Some c => enteringColumn t c
  | None => forall j, j < cols t - 1 -> (0 <= objEntry t j)%Q
  end.
Proof.
  unfold findPivotColumn, enteringColumn.
  destruct (findPivotColumn_inv t (cols t - 1)) as [Hmin Hcol].
  cbv zeta in Hmin, Hcol. unfold objEntry in *.
  destruct (snd _) as [c|] eqn:E.
  - destruct Hcol as (Hc & Heq & Hneg & Hlow).
    split; [done|]. split; [done|]. split; [|done].
    intros j Hj. rewrite <- Heq. by apply Hmin.
  - intros j Hj. rewrite <- Hcol. by apply Hmin.
Qed.

Lemma findPivotRow_inv (t : Tableau) (c n : nat) :
  match forRange 0 n (pivotRowBody t c) (None, None) with
  | (None, None) => forall i, i < n -> ~ qualifies t c i
  | (Some q, Some r) =>
      r < n /\ qualifies t c r /\ q = ratioOf t c r /\
      (forall i, i < n -> qualifies t c i -> (ratioOf t c r <= ratioOf t c i)%Q) /\
      (forall i, i < r -> qualifies t c i -> (ratioOf t c r < ratioOf t c i)%Q)
  | _ => False
  end.
Proof.
  pose (P := fun (n' : nat) (st : option Q * option nat) =>
    match st with
    | (None, None) => forall i, i < n' -> ~ qualifies t c i
    | (Some q, Some r) =>
        r < n' /\ qualifies t c r /\ q = ratioOf t c r /\
        (forall i, i < n' -> qualifies t c i -> (ratioOf t c r <= ratioOf t c i)%Q) /\
        (forall i, i < r -> qualifies t c i -> (ratioOf t c r < ratioOf t c i)%Q)
    | _ => False
    end).
  apply (forRange_inv P); unfold P.
  - intros i Hi. lia.
  - intros i [minRatio pivotRow] Hi IH. unfold pivotRowBody.
    fold (ratioOf t c i).
    destruct (Qltb_reflect (cell (matrix t) i c) (- epsilon)) as [Helem|Helem].
    + destruct (Qltb_reflect 0 (ratioOf t c i)) as [Hpos|Hpos]; cbn [andb].
      * destruct minRatio as [q|], pivotRow as [r|]; try done; cbn [ltInf].
        -- destruct IH as (Hr & Hq & -> & Hmin & Hlow).
           destruct (Qltb_reflect (ratioOf t c i) (ratioOf t c r)) as [Hlt|Hge].
           ++ split; [lia|]. split; [done|]. split; [done|]. split.
              ** intros i' Hi' Hq'. destruct (decide (i' = i)) as [->|]; [lra|].
                 specialize (Hmin i' ltac:(lia) Hq'). lra.
              ** intros i' Hi' Hq'. specialize (Hmin i' ltac:(lia) Hq'). lra.
           ++ split; [lia|]. split; [done|]. split; [done|]. split; [|done].
              intros i' Hi' Hq'. destruct (decide (i' = i)) as [->|]; [lra|].
              apply Hmin; [lia|done].
        -- split; [lia|]. split; [done|]. split; [done|]. split.
           ++ intros i' Hi' Hq'. destruct (decide (i' = i)) as [->|]; [lra|].
              exfalso. apply (IH i'); [lia|done].
           ++ intros i' Hi' Hq'. exfalso. apply (IH i'); [lia|done].
      * destruct minRatio as [q|], pivotRow as [r|]; try done.
        -- destruct IH as (Hr & Hq & -> & Hmin & Hlow).
           split; [lia|]. split; [done|]. split; [done|]. split; [|done].
           intros i' Hi' [He' Hp']. destruct (decide (i' = i)) as [->|]; [lra|].
           apply Hmin; [lia|done].
        -- intros i' Hi' [He' Hp']. destruct (decide (i' = i)) as [->|]; [lra|].
           apply (IH i'); [lia|done].
    + destruct minRatio as [q|], pivotRow as [r|]; try done.
      * destruct IH as (Hr & Hq & -> & Hmin & Hlow).
        split; [lia|]. split; [done|]. split; [done|]. split; [|done].
        intros i' Hi' [He' Hp']. destruct (decide (i' = i)) as [->|]; [lra|].
        apply Hmin; [lia|done].
      * intros i' Hi' [He' Hp']. destruct (decide (i' = i)) as [->|]; [lra|].
        apply (IH i'); [lia|done].
Qed.

Lemma findPivotRow_spec (t : Tableau) (c : nat) :
  match findPivotRow t c with
  | Some r => leavingRow t c r
  | None => forall i, i < rows t - 1 -> ~ qualifies t c i
  end.
Proof.
  unfold findPivotRow, leavingRow.
  pose proof (findPivotRow_inv t c (rows t - 1)) as H.
  destruct (forRange 0 (rows t - 1) (pivotRowBody t c) (None, None))
    as [[q|] [r|]]; cbn [snd]; try done.
  destruct H as (Hr & Hq & _ & Hmin & Hlow). done.
Qed.

Lemma leavingRow_unique (t : Tableau) (c r r' : nat) :
  leavingRow t c r -> leavingRow t c r' -> r = r'.
Proof.
  intros (Hr & Hq & Hmin & Hlow) (Hr' & Hq' & Hmin' & Hlow').
  destruct (Nat.lt_trichotomy r r') as [Hlt|[Heq|Hgt]]; [|done|].
  - specialize (Hlow' r Hlt Hq). specialize (Hmin r' Hr' Hq'). lra.
  - specialize (Hlow r' Hgt Hq'). specialize (Hmin' r Hr Hq). lra.
Qed.

(** ** The initial tableau *)

Lemma forRange_matrix (n : nat) (f : nat -> Matrix -> Matrix) (tb : Tableau) :
  let tb' := forRange 0 n
               (fun j tb => mkTableau (rows tb) (cols tb) (f j (matrix tb)) (basis tb))
               tb in
  rows tb' = rows tb /\ cols tb' = cols tb /\ basis tb' = basis tb /\
  matrix tb' = forRange 0 n f (matrix tb).
Proof.
  induction n as [|n IH]; [done|].
  cbv zeta in *. rewrite !forRange_S. cbn.
  destruct IH as (-> & -> & -> & ->). done.
Qed.

Section InitialTableau.
Variable foods : list Food.
Variable constraints : Constraints.

Local Abbreviation n := (length foods).
Local Abbreviation R := (numConstraints + 1).
Local Abbreviation C := (length foods + numConstraints + 1).

Lemma fillConstraintRow_cells (i : nat) (tb : Tableau) :
  dims (matrix tb) R C -> i < numConstraints ->
  let tb' := fillConstraintRow foods constraints i tb in
  rows tb' = rows tb /\ cols tb' = cols tb /\
  length (basis tb') = length (basis tb) /\
  dims (matrix tb') R C /\
  (forall k j, k ≠ i -> cell (matrix tb') k j = cell (matrix tb) k j) /\
  (forall j, j < C ->
     cell (matrix tb') i j =
     if decide (j < n) then (- foodGet (foodAt foods j) (keyAt i))%Q
     else if decide (j = n + i) then (- 1)%Q
     else if decide (j = n + numConstraints)
          then (- constraintGet constraints (keyAt i))%Q
          else cell (matrix tb) i j).
Proof using Type.
  intros Hd Hi. unfold fillConstraintRow. cbv zeta. cbn [rows cols basis matrix].
  destruct (row_loop (matrix tb) i n R C
              (fun j _ => (- foodGet (foodAt foods j) (keyAt i))%Q)
              (fun j _ => (- foodGet (foodAt foods j) (keyAt i))%Q))
    as (Hd1 & Hrows1 & Hcells1); [done|lia|lia|done|].
  set (m1 := forRange 0 n _ (matrix tb)) in *.
  split; [done|]. split; [done|]. split; [by rewrite length_insert|].
  split; [by do 2 apply dims_setCell|]. split.
  - intros k j Hk. rewrite !cell_setCell.
    repeat (destruct (decide _) as [?|?]; [lia|]).
    by apply cell_getRow_eq, Hrows1.
  - intros j Hj. rewrite !cell_setCell.
    assert (length (getRow m1 i) = C) as Hlen1 by (apply Hd1; lia).
    assert (length (getRow (setCell m1 i (n + i) (- 1)%Q) i) = C) as Hlen2.
    { apply (dims_setCell m1 R C); [done|lia]. }
    rewrite Hlen1, Hlen2, Hcells1. unfold numConstraints in *.
    repeat (destruct (decide _) as [?|?]); try lia; try done.
Qed.

Lemma initialTableau_cells :
  let t := initialTableau foods constraints in
  rows t = R /\ cols t = C /\ wf t /\
  forall i j, i < R -> j < C ->
    cell (matrix t) i j = initCell foods constraints i j.
Proof using Type.
  cbv zeta. unfold initialTableau. cbv zeta.
  set (t0 := newTableau R C).
  set (t1 := forRange 0 numConstraints _ t0).
  assert (rows t1 = R /\ cols t1 = C /\ length (basis t1) = R /\
          dims (matrix t1) R C /\
          forall i j, i < R -> j < C ->
            cell (matrix t1) i j =
            if decide (i < numConstraints) then initCell foods constraints i j
            else 0%Q) as (Hr1 & Hc1 & Hb1 & Hd1 & Hcells1).
  { subst t1.
    pose (P := fun (k : nat) (tb : Tableau) =>
      rows tb = R /\ cols tb = C /\ length (basis tb) = R /\
      dims (matrix tb) R C /\
      forall i j, i < R -> j < C ->
        cell (matrix tb) i j =
        if decide (i < k) then initCell foods constraints i j else 0%Q).
    apply (forRange_inv P); unfold P.
    - split; [done|]. split; [done|].
      unfold t0, newTableau. cbn [basis matrix].
      split; [by rewrite length_replicate|].
      split; [apply dims_replicate|].
      intros i j _ _. destruct (decide (i < 0)); [lia|].
      apply cell_replicate.
    - intros i tb Hi (Hr & Hc & Hb & Hd & Hcells).
      destruct (fillConstraintRow_cells i tb Hd Hi)
        as (Hr' & Hc' & Hb' & Hd' & Hoth & Hrow).
      cbv zeta in *.
      split; [congruence|]. split; [congruence|]. split; [congruence|].
      split; [done|].
      intros k j Hk Hj. destruct (decide (k = i)) as [->|Hne].
      + rewrite Hrow by done. rewrite Hcells by done.
        destruct (decide (i < i)); [lia|].
        destruct (decide (i < S i)); [|lia].
        unfold initCell.
        destruct (decide (i < numConstraints)); [|lia].
        repeat (destruct (decide _) as [?|?]); try lia; try done.
      + rewrite Hoth by done. rewrite Hcells by done.
        destruct (decide (k < i)); destruct (decide (k < S i)); done || lia. }
  destruct (forRange_matrix n
              (fun j m => setCell m (R - 1) j (cost (foodAt foods j))) t1)
    as (Hr2 & Hc2 & Hb2 & Hm2).
  cbv zeta in Hr2, Hc2, Hb2, Hm2.
  set (t2 := forRange 0 n _ t1) in *.
  destruct (row_loop (matrix t1) (R - 1) n R C
              (fun j _ => cost (foodAt foods j))
              (fun j _ => cost (foodAt foods j)))
    as (Hd3 & Hrows3 & Hcells3); [done|lia|lia|done|].
  rewrite <- Hm2 in Hd3, Hrows3, Hcells3.
  split; [congruence|]. split; [congruence|]. split.
  { split; [by rewrite Hr2, Hc2, Hr1, Hc1|congruence]. }
  intros i j Hi Hj. destruct (decide (i = R - 1)) as [->|Hne].
  - rewrite Hcells3, Hcells1 by (done || lia).
    unfold initCell, numConstraints.
    repeat (destruct (decide _) as [?|?]); try lia; try done.
  - rewrite (cell_getRow_eq (matrix t1)) by (by apply Hrows3).
    rewrite Hcells1 by done. unfold numConstraints in *.
    destruct (decide (i < 5)); [done|lia].
Qed.
End InitialTableau.

(** ** The pivot *)

Lemma pivot_rows_cols (t : Tableau) (r c : nat) :
  rows (pivot t r c) = rows t /\ cols (pivot t r c) = cols t.
Proof. done. Qed.

Lemma wf_pivot (t : Tableau) (r c : nat) :
  wf t -> r < rows t -> wf (pivot t r c).
Proof.
  intros [Hd Hb] Hr. split.
  - by destruct (pivot_cells t r c Hd Hr) as [Hd' _].
  - unfold pivot. cbn [basis rows]. by rewrite length_insert.
Qed.

Lemma pivot_unit_column (t : Tableau) (r c : nat) :
  wf t -> r < rows t -> c < cols t ->
  ~ (cell (matrix t) r c == 0)%Q ->
  unitColumn (matrix (pivot t r c)) (rows t) c r /\
  basis (pivot t r c) !! r = Some c.
Proof.
  intros [Hd Hb] Hr Hc Hnz. split.
  - destruct (pivot_cells t r c Hd Hr) as [_ Hcells]. cbv zeta in Hcells.
    intros i Hi. rewrite Hcells by done.
    destruct (decide (i = r)) as [->|Hne]; field; done.
  - unfold pivot. cbn [basis]. apply list_lookup_insert_eq. lia.
Qed.

(** ** Runs of the engine *)

Lemma engineStep_inv (t t' : Tableau) :
  engineStep t t' ->
  exists c r, enteringColumn t c /\ leavingRow t c r /\ t' = pivot t r c.
Proof.
  intros [t0 c r Hc Hr]. exists c, r.
  pose proof (findPivotColumn_spec t0) as Hcs. rewrite Hc in Hcs.
  pose proof (findPivotRow_spec t0 c) as Hrs. rewrite Hr in Hrs. done.
Qed.

Lemma engineStep_wf (t t' : Tableau) : wf t -> engineStep t t' -> wf t'.
Proof.
  intros Hwf Hstep. destruct (engineStep_inv t t' Hstep) as (c & r & _ & Hr & ->).
  apply wf_pivot; [done|]. destruct Hr as [Hr _]. lia.
Qed.

Lemma engineStep_rows_cols (t t' : Tableau) :
  engineStep t t' -> rows t' = rows t /\ cols t' = cols t.
Proof. by intros [t0 c r _ _]. Qed.

Lemma engineStep_fun (t t1 t2 : Tableau) :
  engineStep t t1 -> engineStep t t2 -> t1 = t2.
Proof.
  intros H1 H2. destruct H1 as [t c r Hc Hr]. inversion H2; subst.
  congruence.
Qed.

Lemma pivots_wf (t t' : Tableau) (k : nat) : wf t -> pivots t k t' -> wf t'.
Proof.
  intros Hwf Hp. induction Hp as [|t t1 t' k Hstep _ IH]; [done|].
  apply IH. by apply (engineStep_wf t).
Qed.

Lemma pivots_rows_cols (t t' : Tableau) (k : nat) :
  pivots t k t' -> rows t' = rows t /\ cols t' = cols t.
Proof.
  intros Hp. induction Hp as [|t t1 t' k Hstep _ [IHr IHc]]; [done|].
  destruct (engineStep_rows_cols t t1 Hstep) as [Hr Hc]. split; congruence.
Qed.

Lemma pivots_snoc (t t1 t' : Tableau) (k : nat) :
  pivots t k t1 -> engineStep t1 t' -> pivots t (S k) t'.
Proof.
  intros Hp Hstep. induction Hp as [t|t t2 t1 k Hs _ IH].
  - apply (PivotsNext t t'); [done|constructor].
  - apply (PivotsNext t t2); [done|]. by apply IH.
Qed.

(** A run is determined by its length, and cannot be continued past a
    tableau where the engine does not pivot. *)
Lemma pivots_prefix (t ta tb : Tableau) (ka kb : nat) :
  pivots t ka ta -> pivots t kb tb -> ka <= kb ->
  pivots ta (kb - ka) tb.
Proof.
  intros Ha. revert kb tb. induction Ha as [t|t t1 ta ka Hs _ IH]; intros kb tb Hb Hle.
  - by rewrite Nat.sub_0_r.
  - destruct Hb as [t|t t2 tb kb Hs' Hb]; [lia|].
    assert (t1 = t2) as <- by (by apply (engineStep_fun t)).
    cbn. apply IH; [done|lia].
Qed.

(** What the loop does, whatever state it is entered in. *)
Lemma simplexLoop_run (fuel : nat) (st : LoopState) :
  maxIterations - ls_iteration st < fuel ->
  match simplexLoop fuel st with
  | LoopOutOfFuel => False
  | LoopUnbounded =>
      exists j t c,
        ls_iteration st + j < maxIterations /\
        pivots (ls_tableau st) j t /\
        findPivotColumn t = Some c /\ findPivotRow t c = None
  | LoopDone st' =>
      exists j,
        ls_iteration st' = ls_iteration st + j /\
        (ls_iteration st <= maxIterations -> ls_iteration st' <= maxIterations) /\
        pivots (ls_tableau st) j (ls_tableau st') /\
        ((ls_iteration st' < maxIterations /\
          findPivotColumn (ls_tableau st') = None /\
          length (ls_iterations st') = length (ls_iterations st) + j + 1) \/
         (maxIterations <= ls_iteration st' /\
          length (ls_iterations st') = length (ls_iterations st) + j))
  end.
Proof.
  revert st. induction fuel as [|fuel IH]; intros st Hfuel; [lia|].
  cbn [simplexLoop].
  destruct (decide (ls_iteration st < maxIterations)) as [Hlt|Hge].
  - destruct (findPivotColumn (ls_tableau st)) as [c|] eqn:Hc.
    + destruct (findPivotRow (ls_tableau st) c) as [r|] eqn:Hr.
      * assert (engineStep (ls_tableau st) (pivot (ls_tableau st) r c)) as Hstep
          by (by apply EngineStep).
        specialize (IH (mkLoop (pivot (ls_tableau st) r c) (S (ls_iteration st))
                               (ls_iterations st ++ [matrix (ls_tableau st)]))).
        cbn [ls_iteration ls_tableau ls_iterations] in IH.
        specialize (IH ltac:(lia)).
        destruct (simplexLoop fuel _) as [st'| |]; [| |done].
        -- destruct IH as (j & Hit & Hmax & Hp & Hend).
           exists (S j). split; [lia|]. split; [lia|].
           split; [by apply (PivotsNext _ _ _ _ Hstep)|].
           rewrite length_app in Hend. cbn [length] in Hend.
           destruct Hend as [(? & ? & ?)|(? & ?)]; [left|right];
             repeat split; done || lia.
        -- destruct IH as (j & t & c' & Hit & Hp & Hc' & Hr').
           exists (S j), t, c'.
           split; [lia|]. split; [by apply (PivotsNext _ _ _ _ Hstep)|done].
      * exists 0, (ls_tableau st), c.
        split; [lia|]. split; [constructor|done].
    + exists 0. cbn [ls_iteration ls_tableau ls_iterations].
      split; [lia|]. split; [lia|]. split; [constructor|]. left.
      rewrite length_app. cbn [length]. repeat split; done || lia.
  - exists 0. split; [lia|]. split; [lia|]. split; [constructor|]. right. split; lia.
Qed.

(** The loop does not depend on how much fuel it is given beyond what it needs. *)
Lemma simplexLoop_fuel_irrelevant (fuel fuel' : nat) (st : LoopState) :
  maxIterations - ls_iteration st < fuel ->
  maxIterations - ls_iteration st < fuel' ->
  simplexLoop fuel st = simplexLoop fuel' st.
Proof.
  revert fuel' st. induction fuel as [|fuel IH]; intros fuel' st H1 H2; [lia|].
  destruct fuel' as [|fuel']; [lia|]. cbn [simplexLoop].
  destruct (decide (ls_iteration st < maxIterations)) as [Hlt|Hge]; [|done].
  destruct (findPivotColumn (ls_tableau st)) as [c|]; [|done].
  destruct (findPivotRow (ls_tableau st) c) as [r|]; [|done].
  apply IH; cbn [ls_iteration]; lia.
Qed.

(** ** The extraction *)

Lemma forBreakOver_find {A S : Type} (body : A -> S -> S * bool) (p : A -> bool)
    (v : A -> S) (idx : list A) (s : S) :
  (forall a s', body a s' = if p a then (v a, true) else (s', false)) ->
  forBreakOver idx body s =
  match List.find p idx with
  | Some a => v a
  | None => s
  end.
Proof.
  intros Hbody. induction idx as [|a idx IH]; [done|].
  cbn [forBreakOver List.find]. rewrite Hbody.
  destruct (p a); [done|]. apply IH.
Qed.

Lemma basicRowOf_find (m : Matrix) (j : nat) :
  basicRowOf m j =
  match List.find (basicTest m j) (seq 0 numConstraints) with
  | Some i => (true, Some i)
  | None => (false, None)
  end.
Proof.
  unfold basicRowOf, forBreak. change (numConstraints - 0) with numConstraints.
  apply (forBreakOver_find _ (basicTest m j) (fun i => (true, Some i))).
  intros i [isBasic basicRow]. unfold basicTest.
  destruct (Qltb (absQ (cell m i j - 1)) epsilon); [|done]. cbn [andb].
  rewrite (forBreakOver_find _ (offRowBeyond m j i) (fun _ => false)); [|done].
  destruct (List.find _ _) as [k|] eqn:Hfind.
  - apply find_some in Hfind as [Hin Hk].
    assert (existsb (offRowBeyond m j i) (seq 0 numConstraints) = true) as ->; [|done].
    apply existsb_exists. by exists k.
  - assert (existsb (offRowBeyond m j i) (seq 0 numConstraints) = false) as ->; [|done].
    apply not_true_is_false. intros Hex. apply existsb_exists in Hex as (k & Hin & Hk).
    pose proof (find_none _ _ Hfind k Hin). congruence.
Qed.

Lemma basicTest_basicAt (m : Matrix) (j i : nat) :
  basicTest m j i = true <-> basicAt m j i.
Proof.
  unfold basicTest, basicAt. rewrite andb_true_iff, Qltb_lt, negb_true_iff.
  split; intros [Hone Hoff]; (split; [done|]).
  - intros k Hk Hne. apply Qltb_ge.
    destruct (Qltb epsilon (absQ (cell m k j))) eqn:E; [|done].
    exfalso. apply not_true_iff_false in Hoff. apply Hoff.
    apply existsb_exists. exists k. split.
    + apply in_seq. lia.
    + unfold offRowBeyond. rewrite E. by rewrite bool_decide_eq_true_2.
  - apply not_true_is_false. intros Hex.
    apply existsb_exists in Hex as (k & Hin & Hk).
    apply in_seq in Hin. unfold offRowBeyond in Hk.
    apply andb_true_iff in Hk as [Hne Hgt].
    apply bool_decide_eq_true in Hne. apply Qltb_lt in Hgt.
    specialize (Hoff k ltac:(lia) Hne). lra.
Qed.


(** The pair [basicRowOf] leaves, read through [basicAt]. *)
Lemma basicRowOf_spec (m : Matrix) (j : nat) :
  match basicRowOf m j with
  | (true, Some i) => i < numConstraints /\ basicAt m j i
  | (false, None) => forall i, i < numConstraints -> ~ basicAt m j i
  | _ => False
  end.
Proof.
  rewrite basicRowOf_find.
  destruct (List.find _ _) as [i|] eqn:Hfind.
  - apply find_some in Hfind as [Hin Ht]. apply in_seq in Hin.
    split; [lia|]. by apply basicTest_basicAt.
  - intros i Hi Hb. apply basicTest_basicAt in Hb.
    assert (i ∈ seq 0 numConstraints) as Hin by (apply elem_of_seq; lia).
    apply list_elem_of_In in Hin.
    pose proof (find_none _ _ Hfind i Hin). congruence.
Qed.

Lemma extractAmounts_lookup (m : Matrix) (n C : nat) :
  let amounts := extractAmounts m n n C in
  length amounts = n /\
  forall j, j < n -> amounts !! j = Some (amountOf m C j).
Proof.
  cbv zeta. unfold extractAmounts.
  pose (P := fun (k : nat) (amounts : list Q) =>
    length amounts = n /\
    forall j, j < n ->
      amounts !! j = Some (if decide (j < k) then amountOf m C j else 0%Q)).
  assert (P n (forRange 0 n
                 (fun j amounts =>
                    match basicRowOf m j with
                    | (true, Some basicRow) =>
                        <[j := max0 (cell m basicRow (C - 1))]> amounts
                    | _ => amounts
                    end)
                 (replicate n 0%Q))) as [Hlen Hlook].
  { apply (forRange_inv P); unfold P.
    - split; [by rewrite length_replicate|].
      intros j Hj. destruct (decide (j < 0)); [lia|].
      by apply lookup_replicate_2.
    - intros k amounts Hk [Hlen Hlook].
      assert (match basicRowOf m k with
              | (true, Some basicRow) =>
                  <[k := max0 (cell m basicRow (C - 1))]> amounts
              | _ => amounts
              end = <[k := amountOf m C k]> amounts) as ->.
      { assert (<[k := 0%Q]> amounts = amounts) as Hid.
        { apply list_insert_id. rewrite Hlook by done.
          destruct (decide (k < k)); [lia|done]. }
        unfold amountOf. by destruct (basicRowOf m k) as [[|] [r|]]. }
      split; [by rewrite length_insert|].
      intros j Hj. destruct (decide (j = k)) as [->|Hne].
      + rewrite list_lookup_insert_eq by lia.
        destruct (decide (k < S k)); [done|lia].
      + rewrite list_lookup_insert_ne by done. rewrite Hlook by done.
        destruct (decide (j < k)); destruct (decide (j < S k)); done || lia. }
  split; [done|]. intros j Hj. rewrite Hlook by done.
  destruct (decide (j < n)); [done|lia].
Qed.

Lemma amountOf_nonneg (m : Matrix) (C j : nat) : (0 <= amountOf m C j)%Q.
Proof.
  unfold amountOf. destruct (basicRowOf m j) as [[|] [r|]]; try lra.
  apply max0_nonneg.
Qed.


Lemma amountOf_not_basic (m : Matrix) (C j : nat) :
  (forall i, i < numConstraints -> ~ basicAt m j i) -> amountOf m C j = 0%Q.
Proof.
  intros Hno. unfold amountOf. pose proof (basicRowOf_spec m j) as Hspec.
  destruct (basicRowOf m j) as [[|] [r|]]; try done.
  destruct Hspec as [Hr Hbr]. exfalso. by apply (Hno r).
Qed.

(** ** The total cost *)

Lemma reduceFrom_app {A B : Type} (f : B -> A -> nat -> B) (i : nat)
    (l l' : list A) (acc : B) :
  reduceFrom f i (l ++ l') acc = reduceFrom f (i + length l) l' (reduceFrom f i l acc).
Proof.
  revert i acc. induction l as [|x l IH]; intros i acc; cbn.
  - by rewrite Nat.add_0_r.
  - rewrite IH. f_equal. lia.
Qed.

Lemma sumUpTo_ext (n : nat) (f g : nat -> Q) :
  (forall i, i < n -> f i = g i) -> sumUpTo n f = sumUpTo n g.
Proof.
  induction n as [|n IH]; intros Hfg; [done|].
  cbn [sumUpTo]. rewrite IH, Hfg by (intros; apply Hfg || idtac; lia). done.
Qed.


Lemma reduce_sum (g : nat -> Q -> Q) (l : list Q) :
  reduce (fun sum x i => (sum + g i x)%Q) l 0%Q =
  sumUpTo (length l) (fun i => g i (entry l i)).
Proof.
  unfold reduce. induction l as [|x l IH] using rev_ind; [done|].
  rewrite reduceFrom_app, length_app. cbn [length reduceFrom].
  rewrite Nat.add_1_r. cbn [sumUpTo Nat.add]. rewrite IH. f_equal.
  - apply sumUpTo_ext. intros i Hi. unfold entry. by rewrite lookup_app_l.
  - unfold entry. rewrite lookup_app_r by lia. by rewrite Nat.sub_diag.
Qed.

Lemma totalCostOf_sum (amounts : list Q) (foods : list Food) :
  totalCostOf amounts foods =
  sumUpTo (length amounts) (fun j => (entry amounts j * cost (foodAt foods j))%Q).
Proof.
  unfold totalCostOf.
  apply (reduce_sum (fun i x => (x * cost (foodAt foods i))%Q)).
Qed.

Lemma foodAt_cost_nonneg (foods : list Food) (j : nat) :
  Forall (fun fd => (0 <= cost fd)%Q) foods -> (0 <= cost (foodAt foods j))%Q.
Proof.
  intros Hall. unfold foodAt. destruct (foods !! j) as [fd|] eqn:E; cbn.
  - by apply (Forall_lookup_1 _ _ _ _ Hall E).
  - lra.
Qed.

Lemma entry_lookup (l : list Q) (j : nat) (x : Q) : l !! j = Some x -> entry l j = x.
Proof. unfold entry. by intros ->. Qed.

(** ** [simplexSolve] as a whole *)

(** Every call ends in one of two ways, after [k] pivots from the initial
    tableau: with the unbounded error at a tableau that has an entering
    column and no leaving row, or with the solution read off the tableau
    where the loop was left. *)
Lemma simplexSolve_run (foods : list Food) (constraints : Constraints) :
  exists k t,
    k <= maxIterations /\
    pivots (initialTableau foods constraints) k t /\
    ((k < maxIterations /\
      (exists c, findPivotColumn t = Some c /\ findPivotRow t c = None) /\
      simplexSolve foods constraints = Some (SolveError "Problem is unbounded")) \/
     ((findPivotColumn t = None \/ k = maxIterations) /\
      exists snaps,
        length snaps <= maxIterations /\
        simplexSolve foods constraints =
        Some (SolveOk (extractSolution foods (mkLoop t k snaps))))).
Proof.
  unfold simplexSolve, simplexSolveFuel.
  pose proof (simplexLoop_run (S maxIterations)
                (mkLoop (initialTableau foods constraints) 0 [])) as Hrun.
  cbn [ls_iteration ls_tableau ls_iterations] in Hrun.
  specialize (Hrun ltac:(lia)).
  destruct (simplexLoop _ _) as [[t k snaps]| |]; [| |done].
  - destruct Hrun as (j & Hit & Hmax & Hp & Hend).
    cbn [ls_iteration ls_tableau ls_iterations length] in *.
    assert (j = k) as -> by lia.
    exists k, t. split; [lia|]. split; [done|]. right. split.
    + destruct Hend as [(_ & Hopt & _)|[Hcap _]]; [by left|right; lia].
    + exists snaps. split; [|done].
      destruct Hend as [(? & _ & ?)|[? ?]]; lia.
  - destruct Hrun as (j & t & c & Hit & Hp & Hc & Hr).
    exists j, t. split; [lia|]. split; [done|]. left.
    split; [lia|]. split; [by exists c|done].
Qed.

(** A tableau where the engine finds no pivot ends every run through it. *)
Lemma pivots_stuck (t t' : Tableau) (k : nat) :
  (forall t1, ~ engineStep t t1) -> pivots t k t' -> k = 0 /\ t' = t.
Proof.
  intros Hstuck Hp. destruct Hp as [|t t1 t' k Hs _]; [done|].
  exfalso. by apply (Hstuck t1).
Qed.

Lemma no_step_unbounded (t : Tableau) (c : nat) :
  findPivotColumn t = Some c -> findPivotRow t c = None ->
  forall t1, ~ engineStep t t1.
Proof.
  intros Hc Hr t1 Hstep. inversion Hstep; subst. congruence.
Qed.

Lemma no_step_optimal (t : Tableau) :
  findPivotColumn t = None -> forall t1, ~ engineStep t t1.
Proof.
  intros Hc t1 Hstep. inversion Hstep; subst. congruence.
Qed.

(** The run of a call is unique: whichever tableau is reached after [k]
    pivots and is left without a pivot is where the call ends. *)
Lemma simplexSolve_unbounded_at (foods : list Food) (constraints : Constraints)
    (k c : nat) (t : Tableau) :
  k < maxIterations ->
  pivots (initialTableau foods constraints) k t ->
  findPivotColumn t = Some c -> findPivotRow t c = None ->
  simplexSolve foods constraints = Some (SolveError "Problem is unbounded").
Proof.
  intros Hk Hp Hc Hr.
  destruct (simplexSolve_run foods constraints)
    as (k' & t' & Hk' & Hp' & [(_ & _ & Hres)|(Hend & snaps & _ & Hres)]); [done|].
  exfalso.
  pose proof (no_step_unbounded t c Hc Hr) as Hstuck.
  destruct (decide (k <= k')) as [Hle|Hgt].
  - destruct (pivots_stuck t t' (k' - k) Hstuck) as [Hz ->].
    { by apply (pivots_prefix (initialTableau foods constraints)). }
    destruct Hend as [Hopt|Hcap]; [congruence|lia].
  - destruct Hend as [Hopt|Hcap]; [|lia].
    destruct (pivots_stuck t' t (k - k') (no_step_optimal t' Hopt)) as [Hz _].
    { apply (pivots_prefix (initialTableau foods constraints)); [done|done|lia]. }
    lia.
Qed.

Lemma simplexSolve_done_at (foods : list Food) (constraints : Constraints)
    (k : nat) (t : Tableau) :
  k <= maxIterations ->
  pivots (initialTableau foods constraints) k t ->
  findPivotColumn t = None \/ k = maxIterations ->
  exists snaps,
    simplexSolve foods constraints =
    Some (SolveOk (extractSolution foods (mkLoop t k snaps))).
Proof.
  intros Hk Hp Hend.
  destruct (simplexSolve_run foods constraints)
    as (k' & t' & Hk' & Hp' & [(Hlt & (c & Hc & Hr) & Hres)|(Hend' & snaps & _ & Hres)]).
  - exfalso. pose proof (no_step_unbounded t' c Hc Hr) as Hstuck.
    destruct (decide (k' <= k)) as [Hle|Hgt].
    + destruct (pivots_stuck t' t (k - k') Hstuck) as [Hz ->].
      { by apply (pivots_prefix (initialTableau foods constraints)). }
      destruct Hend as [Hopt|Hcap]; [congruence|lia].
    + destruct Hend as [Hopt|Hcap]; [|lia].
      destruct (pivots_stuck t t' (k' - k) (no_step_optimal t Hopt)) as [Hz _].
      { apply (pivots_prefix (initialTableau foods constraints)); [done|done|lia]. }
      lia.
  - exists snaps. rewrite Hres.
    assert (k' = k /\ t' = t) as [-> ->]; [|done].
    destruct (decide (k <= k')) as [Hle|Hgt].
    + destruct Hend as [Hopt|Hcap].
      * destruct (pivots_stuck t t' (k' - k) (no_step_optimal t Hopt)) as [Hz ->].
        { by apply (pivots_prefix (initialTableau foods constraints)). }
        split; [lia|done].
      * assert (k' = k) as -> by lia.
        apply (pivots_prefix _ _ _ _ _ Hp) in Hp'; [|done].
        rewrite Nat.sub_diag in Hp'. inversion Hp'. done.
    + destruct Hend' as [Hopt|Hcap]; [|lia].
      destruct (pivots_stuck t' t (k - k') (no_step_optimal t' Hopt)) as [Hz _].
      { apply (pivots_prefix (initialTableau foods constraints)); [done|done|lia]. }
      lia.
Qed.

(** * Double precision

    Facts about the IEEE operations, from the specification of the
    primitive floats, and about the tableau class over them. *)

(** ** The order of doubles

    [<] on doubles, from the specification of the primitive comparison:
    it is irreflexive and transitive, and total on the values that are not
    [NaN]. *)

Ltac cmp_cases :=
  repeat match goal with
  | H : context [Pos.compare_cont Eq ?a ?b] |- _ =>
      change (Pos.compare_cont Eq a b) with (Pos.compare a b) in H
  | |- context [Pos.compare_cont Eq ?a ?b] =>
      change (Pos.compare_cont Eq a b) with (Pos.compare a b)
  | H : context [Z.compare ?a ?b] |- _ => destruct (Z.compare_spec a b)
  | |- context [Z.compare ?a ?b] => destruct (Z.compare_spec a b)
  | H : context [Pos.compare ?a ?b] |- _ => destruct (Pos.compare_spec a b)
  | |- context [Pos.compare ?a ?b] => destruct (Pos.compare_spec a b)
  end;
  subst; cbn in *; try congruence; try lia.

Lemma SFltb_irrefl (x : spec_float) : SFltb x x = false.
Proof.
  unfold SFltb, SFcompare.
  destruct x as [[]|[]| |[] m e]; try reflexivity; cmp_cases.
Qed.

Lemma SFltb_trans (x y z : spec_float) :
  SFltb x y = true -> SFltb y z = true -> SFltb x z = true.
Proof.
  unfold SFltb, SFcompare.
  destruct x as [[]|[]| |[] mx ex], y as [[]|[]| |[] my ey],
           z as [[]|[]| |[] mz ez];
    try reflexivity; try discriminate; intros H1 H2; cmp_cases.
Qed.

Lemma SFltb_below (x y z : spec_float) :
  SFltb x y = true -> SFltb z y = false -> z <> S754_nan -> SFltb x z = true.
Proof.
  unfold SFltb, SFcompare.
  destruct x as [[]|[]| |[] mx ex], y as [[]|[]| |[] my ey],
           z as [[]|[]| |[] mz ez];
    try reflexivity; try discriminate; try congruence; intros H1 H2 H3; cmp_cases.
Qed.

Lemma ltb_irrefl (x : float) : (x <? x)%float = false.
Proof. rewrite ltb_spec. apply SFltb_irrefl. Qed.

Lemma ltb_trans (x y z : float) :
  (x <? y)%float = true -> (y <? z)%float = true -> (x <? z)%float = true.
Proof. rewrite !ltb_spec. apply SFltb_trans. Qed.

(** [x < y], [z] not below [y], and [z] above some [w] (so not [NaN]):
    [x < z]. *)
Lemma ltb_below (x y z w : float) :
  (x <? y)%float = true -> (z <? y)%float = false -> (w <? z)%float = true ->
  (x <? z)%float = true.
Proof.
  rewrite !ltb_spec. intros H1 H2 H3. apply (SFltb_below _ _ _ H1 H2).
  intros Hz. rewrite Hz in H3. unfold SFltb, SFcompare in H3.
  by destruct (Prim2SF w).
Qed.

(** ** The ratio test *)

Lemma double_findPivotRow_inv (t : Double.Tableau) (c n : nat) :
  match forRange 0 n (Double.pivotRowBody t c) (infinity, None) with
  | (minRatio, None) =>
      minRatio = infinity /\ forall i, i < n -> ~ Double.qualifies t c i
  | (minRatio, Some r) =>
      r < n /\ Double.qualifies t c r /\ minRatio = Double.ratioOf t c r /\
      (forall i, i < n -> Double.qualifies t c i ->
         (Double.ratioOf t c i <? Double.ratioOf t c r)%float = false) /\
      (forall i, i < r -> Double.qualifies t c i ->
         (Double.ratioOf t c r <? Double.ratioOf t c i)%float = true)
  end.
Proof.
  pose (P := fun (n' : nat) (st : float * option nat) =>
    match st with
    | (minRatio, None) =>
        minRatio = infinity /\ forall i, i < n' -> ~ Double.qualifies t c i
    | (minRatio, Some r) =>
        r < n' /\ Double.qualifies t c r /\ minRatio = Double.ratioOf t c r /\
        (forall i, i < n' -> Double.qualifies t c i ->
           (Double.ratioOf t c i <? Double.ratioOf t c r)%float = false) /\
        (forall i, i < r -> Double.qualifies t c i ->
           (Double.ratioOf t c r <? Double.ratioOf t c i)%float = true)
    end).
  apply (forRange_inv P); unfold P.
  - split; [done|]. intros i Hi. lia.
  - intros i [minRatio pivotRow] Hi IH. unfold Double.pivotRowBody.
    fold (Double.ratioOf t c i).
    destruct (Double.cell (Double.matrix t) i c <? - Double.epsilon)%float eqn:Helem;
      [destruct (0 <? Double.ratioOf t c i)%float eqn:Hpos; cbn [andb]|].
    + (* the row takes part with a positive ratio *)
      destruct pivotRow as [r|].
      * destruct IH as (Hr & Hq & -> & Hmin & Hlow).
        destruct (Double.ratioOf t c i <? Double.ratioOf t c r)%float eqn:Hlt.
        -- assert (Double.qualifies t c i) as Hqi.
           { split; [by split|].
             apply (ltb_trans _ _ _ Hlt). apply Hq. }
           split; [lia|]. split; [done|]. split; [done|]. split.
           ++ intros i' Hi' Hq'. destruct (decide (i' = i)) as [->|Hne].
              ** apply ltb_irrefl.
              ** specialize (Hmin i' ltac:(lia) Hq').
                 destruct (Double.ratioOf t c i' <? Double.ratioOf t c i)%float
                   eqn:E; [|done].
                 by rewrite (ltb_trans _ _ _ E Hlt) in Hmin.
           ++ intros i' Hi' Hq'. specialize (Hmin i' ltac:(lia) Hq').
              apply (ltb_below _ _ _ 0%float Hlt Hmin). apply Hq'.
        -- split; [lia|]. split; [done|]. split; [done|]. split; [|done].
           intros i' Hi' Hq'. destruct (decide (i' = i)) as [->|Hne]; [done|].
           apply Hmin; [lia|done].
      * destruct IH as [-> IH].
        destruct (Double.ratioOf t c i <? infinity)%float eqn:Hfin.
        -- split; [lia|]. split; [by repeat split|]. split; [done|]. split.
           ++ intros i' Hi' Hq'. destruct (decide (i' = i)) as [->|Hne].
              ** apply ltb_irrefl.
              ** exfalso. apply (IH i'); [lia|done].
           ++ intros i' Hi' Hq'. exfalso. apply (IH i'); [lia|done].
        -- split; [done|]. intros i' Hi' Hq'.
           destruct (decide (i' = i)) as [->|Hne].
           ++ destruct Hq' as [_ Hq']. congruence.
           ++ apply (IH i'); [lia|done].
    + (* the ratio is not positive *)
      destruct pivotRow as [r|].
      * destruct IH as (Hr & Hq & -> & Hmin & Hlow).
        split; [lia|]. split; [done|]. split; [done|]. split; [|done].
        intros i' Hi' Hq'. destruct (decide (i' = i)) as [->|Hne].
        -- destruct Hq' as [[_ Hq'] _]. congruence.
        -- apply Hmin; [lia|done].
      * destruct IH as [-> IH]. split; [done|]. intros i' Hi' Hq'.
        destruct (decide (i' = i)) as [->|Hne].
        -- destruct Hq' as [[_ Hq'] _]. congruence.
        -- apply (IH i'); [lia|done].
    + (* the entry is not below -epsilon *)
      destruct pivotRow as [r|].
      * destruct IH as (Hr & Hq & -> & Hmin & Hlow).
        split; [lia|]. split; [done|]. split; [done|]. split; [|done].
        intros i' Hi' Hq'. destruct (decide (i' = i)) as [->|Hne].
        -- destruct Hq' as [[Hq' _] _]. congruence.
        -- apply Hmin; [lia|done].
      * destruct IH as [-> IH]. split; [done|]. intros i' Hi' Hq'.
        destruct (decide (i' = i)) as [->|Hne].
        -- destruct Hq' as [[Hq' _] _]. congruence.
        -- apply (IH i'); [lia|done].
Qed.

Lemma double_findPivotRow_spec (t : Double.Tableau) (c : nat) :
  match Double.findPivotRow t c with
  | Some r => Double.leavingRow t c r
  | None => forall i, i < Double.rows t - 1 -> ~ Double.qualifies t c i
  end.
Proof.
  unfold Double.findPivotRow, Double.leavingRow.
  pose proof (double_findPivotRow_inv t c (Double.rows t - 1)) as H.
  destruct (forRange 0 (Double.rows t - 1) (Double.pivotRowBody t c) (infinity, None))
    as [minRatio [r|]]; cbn [snd].
  - destruct H as (Hr & Hq & _ & Hmin & Hlow). done.
  - apply H.
Qed.

Lemma double_leavingRow_unique (t : Double.Tableau) (c r r' : nat) :
  Double.leavingRow t c r -> Double.leavingRow t c r' -> r = r'.
Proof.
  intros (Hr & Hq & Hmin & Hlow) (Hr' & Hq' & Hmin' & Hlow').
  destruct (lt_eq_lt_dec r r') as [[Hlt|Heq]|Hgt]; [exfalso|done|exfalso].
  - specialize (Hlow' r Hlt Hq). specialize (Hmin r' Hr' Hq'). congruence.
  - specialize (Hlow r' Hgt Hq'). specialize (Hmin' r Hr Hq). congruence.
Qed.


(** ** Exact operations

    On finite doubles [x - x] is [0] and [x * 1] is [x], and [x / x] is [1]
    when [x] is not a zero: these operations do not round. *)

Lemma finite_spec (x : float) :
  Double.finite x <->
  (exists s, Prim2SF x = S754_zero s) \/ (exists s m e, Prim2SF x = S754_finite s m e).
Proof.
  unfold Double.finite. rewrite ltb_spec, abs_spec.
  change (Prim2SF infinity) with (S754_infinity false).
  destruct (Prim2SF x) as [s|s| |s m e]; cbn; split; try done.
  - intros _. left. by exists s.
  - intros [[s' H]|(s' & m & e & H)]; discriminate.
  - intros [[s' H]|(s' & m & e & H)]; discriminate.
  - intros _. right. by exists s, m, e.
Qed.

Lemma sub_self (x : float) : Double.finite x -> (x - x)%float = 0%float.
Proof.
  intros Hfin. apply Prim2SF_inj. rewrite sub_spec.
  change (Prim2SF 0) with (S754_zero false).
  apply finite_spec in Hfin as [[s ->]|(s & m & e & ->)].
  - by destruct s.
  - unfold SF64sub, SFsub. cbv zeta. rewrite Z.min_id.
    unfold shl_align. rewrite Z.sub_diag. reflexivity.
Qed.

Lemma shr_xO (n : nat) (m : positive) :
  Nat.iter n shr_1 {| shr_m := Zpos (Nat.iter n xO m); shr_r := false; shr_s := false |} =
  {| shr_m := Zpos m; shr_r := false; shr_s := false |}.
Proof.
  induction n as [|n IH]; [done|].
  rewrite Nat.iter_succ_r. cbn [Nat.iter shr_1 orb]. exact IH.
Qed.

Lemma digits2_xO (n : nat) (m : positive) :
  Zpos (digits2_pos (Nat.iter n xO m)) = (Zpos (digits2_pos m) + Z.of_nat n)%Z.
Proof.
  induction n as [|n IH]; [cbn; lia|].
  simpl. rewrite Pos2Z.inj_succ. lia.
Qed.

Lemma mul_one (x : float) : Double.finite x -> (x * 1)%float = x.
Proof.
  intros Hfin. apply Prim2SF_inj. rewrite mul_spec.
  pose proof (Prim2SF_valid x) as Hv.
  change (Prim2SF 1) with (S754_finite false 4503599627370496 (-52)).
  apply finite_spec in Hfin as [[s Hx]|(s & m & e & Hx)]; rewrite Hx in *.
  - by destruct s.
  - unfold SF64mul, SFmul. rewrite xorb_false_r.
    cbn [valid_binary] in Hv. unfold bounded in Hv.
    apply andb_prop in Hv as [Hcan Hle]. unfold canonical_mantissa in Hcan.
   
    apply Z.eqb_eq in Hcan.
    rewrite Pos.mul_comm.
    change (4503599627370496 * m)%positive with (Nat.iter 52 xO m).
    unfold binary_round_aux, shr_fexp. cbn [Zdigits2].
    rewrite digits2_xO.
    replace (Z.pos (digits2_pos m) + Z.of_nat 52 + (e + -52))%Z
      with (Z.pos (digits2_pos m) + e)%Z by lia.
    rewrite Hcan. replace (e - (e + -52))%Z with 52%Z by lia.
    unfold shr. cbn [shr_record_of_loc].
    change (SpecFloat.iter_pos shr_1 52 ?r) with (Nat.iter 52 shr_1 r).
    rewrite shr_xO. cbn [shr_m loc_of_shr_record round_nearest_even Zdigits2].
    replace (e + -52 + 52)%Z with e by lia.
    rewrite Hcan, Z.sub_diag. cbn [shr_record_of_loc shr_m].
    by rewrite Hle.
Qed.

Lemma div_self (x : float) :
  Double.finite x -> (x =? 0)%float = false -> (x / x)%float = 1%float.
Proof.
  intros Hfin Hnz. apply Prim2SF_inj. rewrite div_spec.
  rewrite FloatAxioms.eqb_spec in Hnz. change (Prim2SF 0) with (S754_zero false) in Hnz.
  change (Prim2SF 1) with (S754_finite false 4503599627370496 (-52)).
  apply finite_spec in Hfin as [[s Hx]|(s & m & e & Hx)]; rewrite Hx in *.
  - by destruct s.
  - unfold SF64div, SFdiv, SFdiv_core_binary. cbv zeta.
    rewrite Z.sub_diag. rewrite Z.sub_diag.
    change (Z.min (fexp prec emax 0) 0) with (-53)%Z.
    change (0 - -53)%Z with 53%Z. cbv iota.
    assert (Z.div_eucl (Z.shiftl (Z.pos m) 53) (Z.pos m) = (9007199254740992, 0)%Z)
      as ->.
    { rewrite Z.shiftl_mul_pow2 by lia.
      change (2 ^ 53)%Z with 9007199254740992%Z.
      pose proof (Z.div_eucl_eq (Z.pos m * 9007199254740992) (Z.pos m) ltac:(lia)) as Heq.
      pose proof (Z.mod_pos_bound (Z.pos m * 9007199254740992) (Z.pos m) ltac:(lia)) as Hb.
      unfold Z.modulo in Hb.
      destruct (Z.div_eucl (Z.pos m * 9007199254740992) (Z.pos m)) as [q r].
      assert (q = 9007199254740992%Z) by nia. subst q.
      f_equal. lia. }
    rewrite xorb_nilpotent.
    assert (new_location (Z.pos m) 0 = loc_Exact) as ->.
    { unfold new_location, new_location_even, new_location_odd.
      by destruct (Z.even (Z.pos m)). }
    vm_compute. reflexivity.
Qed.

(** ** The tableau after a pivot *)

Lemma double_getRow_setCell (m : Double.Matrix) (i j k : nat) (v : float) :
  Double.getRow (Double.setCell m i j v) k =
  if decide (k = i) then <[j := v]> (Double.getRow m i) else Double.getRow m k.
Proof.
  unfold Double.getRow, Double.setCell. destruct (decide (k = i)) as [->|Hne].
  - rewrite list_lookup_alter_eq. by destruct (m !! i).
  - by rewrite list_lookup_alter_ne.
Qed.

Lemma double_entry_insert (row : list float) (j j' : nat) (v : float) :
  Double.entry (<[j := v]> row) j' =
  if decide (j' = j /\ j < length row) then v else Double.entry row j'.
Proof.
  unfold Double.entry. destruct (decide (j' = j /\ j < length row)) as [[-> Hlt]|Hn].
  - by rewrite list_lookup_insert_eq.
  - destruct (decide (j' = j)) as [->|Hne].
    + assert (length row <= j) as Hge by lia.
      by rewrite list_insert_ge.
    + by rewrite list_lookup_insert_ne.
Qed.

Lemma double_cell_setCell (m : Double.Matrix) (i j i' j' : nat) (v : float) :
  Double.cell (Double.setCell m i j v) i' j' =
  if decide (i' = i /\ j' = j /\ j < length (Double.getRow m i)) then v else Double.cell m i' j'.
Proof.
  unfold Double.cell. rewrite double_getRow_setCell.
  destruct (decide (i' = i)) as [->|Hne].
  - rewrite double_entry_insert.
    destruct (decide (j' = j /\ j < length (Double.getRow m i)));
      destruct (decide (i = i /\ j' = j /\ j < length (Double.getRow m i))); tauto || done.
  - destruct (decide (i' = i /\ j' = j /\ j < length (Double.getRow m i))); tauto || done.
Qed.

Lemma double_dims_setCell (m : Double.Matrix) (r c i j : nat) (v : float) :
  Double.dims m r c -> Double.dims (Double.setCell m i j v) r c.
Proof.
  intros [Hlen Hrows]. split.
  - unfold Double.setCell. by rewrite length_alter.
  - intros k Hk. rewrite double_getRow_setCell.
    destruct (decide (k = i)) as [->|]; [|by apply Hrows].
    rewrite length_insert. by apply Hrows.
Qed.



(** A loop that rewrites row [i] cell by cell, each new value a function
    [h j] of the old one, leaves the other rows alone. *)
Lemma double_row_loop (m : Double.Matrix) (i n R C : nat)
    (g : nat -> Double.Matrix -> float) (h : nat -> float -> float) :
  Double.dims m R C -> i < R -> n <= C ->
  (forall j (m' : Double.Matrix),
      (forall k, k ≠ i -> Double.getRow m' k = Double.getRow m k) ->
      g j m' = h j (Double.cell m' i j)) ->
  let m1 := forRange 0 n (fun j m' => Double.setCell m' i j (g j m')) m in
  Double.dims m1 R C /\
  (forall k, k ≠ i -> Double.getRow m1 k = Double.getRow m k) /\
  (forall j, Double.cell m1 i j = if decide (j < n) then h j (Double.cell m i j) else Double.cell m i j).
Proof.
  intros Hd Hi Hn Hg m1. subst m1.
  pose (P := fun (n' : nat) (m' : Double.Matrix) =>
              Double.dims m' R C /\
              (forall k, k ≠ i -> Double.getRow m' k = Double.getRow m k) /\
              (forall j, Double.cell m' i j =
                         if decide (j < n') then h j (Double.cell m i j) else Double.cell m i j)).
  apply (forRange_inv P); unfold P.
  - split; [done|]. split; [done|].
    intros j. destruct (decide (j < 0)); [lia|done].
  - intros j m' Hj (Hd' & Hrows & Hcells).
    split; [by apply double_dims_setCell|]. split.
    + intros k Hk. rewrite double_getRow_setCell.
      destruct (decide (k = i)); [done|]. by apply Hrows.
    + intros j'. rewrite double_cell_setCell.
      assert (length (Double.getRow m' i) = C) as Hlen by (by apply Hd').
      destruct (decide (i = i /\ j' = j /\ j < length (Double.getRow m' i)))
        as [(_ & -> & _)|Hno].
      * rewrite (Hg j m' Hrows), Hcells.
        destruct (decide (j < j)); [lia|].
        destruct (decide (j < S j)); [done|lia].
      * rewrite Hcells.
        assert (j' ≠ j) by (intros ->; apply Hno; split; [done|split; [done|lia]]).
        destruct (decide (j' < j)); destruct (decide (j' < S j)); done || lia.
Qed.

Lemma double_cell_getRow_eq (m m' : Double.Matrix) (k j : nat) :
  Double.getRow m' k = Double.getRow m k -> Double.cell m' k j = Double.cell m k j.
Proof. unfold Double.cell. by intros ->. Qed.

(** The tableau after [pivot], cell by cell, with the IEEE operations. *)
Lemma double_pivot_cells (t : Double.Tableau) (r c : nat) :
  Double.dims (Double.matrix t) (Double.rows t) (Double.cols t) -> r < Double.rows t ->
  let m := Double.matrix t in
  let p := Double.cell m r c in
  let m' := Double.matrix (Double.pivot t r c) in
  Double.dims m' (Double.rows t) (Double.cols t) /\
  forall i j, i < Double.rows t -> j < Double.cols t ->
    Double.cell m' i j =
    if decide (i = r) then (Double.cell m r j / p)%float
    else (Double.cell m i j - Double.cell m i c * (Double.cell m r j / p))%float.
Proof.
  intros Hd Hr m p m'. subst m'. unfold Double.pivot. cbn [Double.matrix].
  fold m. fold p.
  set (m1 := forRange 0 (Double.cols t) _ m).
  destruct (double_row_loop m r (Double.cols t) (Double.rows t) (Double.cols t)
              (fun j m' => (Double.cell m' r j / p)%float) (fun j x => (x / p)%float))
    as (Hd1 & Hrows1 & Hcells1); [done|done|lia|done|].
  fold m1 in Hd1, Hrows1, Hcells1.
  set (body := fun i m0 => if decide (i ≠ r) then _ else m0).
  assert (forall n, n <= Double.rows t ->
            let m2 := forRange 0 n body m1 in
            Double.dims m2 (Double.rows t) (Double.cols t) /\
            Double.getRow m2 r = Double.getRow m1 r /\
            forall k, k ≠ r -> k < Double.rows t -> forall j,
              Double.cell m2 k j =
              if decide (k < n /\ j < Double.cols t)
              then (Double.cell m1 k j - Double.cell m1 k c * Double.cell m1 r j)%float
              else Double.cell m1 k j) as Hloop.
  { intros n Hn. cbv zeta.
    pose (P := fun (n' : nat) (m2 : Double.Matrix) =>
                Double.dims m2 (Double.rows t) (Double.cols t) /\
                Double.getRow m2 r = Double.getRow m1 r /\
                forall k, k ≠ r -> k < Double.rows t -> forall j,
                  Double.cell m2 k j =
                  if decide (k < n' /\ j < Double.cols t)
                  then (Double.cell m1 k j - Double.cell m1 k c * Double.cell m1 r j)%float
                  else Double.cell m1 k j).
    apply (forRange_inv P); unfold P.
    - split; [done|]. split; [done|].
      intros k _ _ j. destruct (decide (k < 0 /\ j < Double.cols t)); [lia|done].
    - intros i m2 Hi (Hd2 & Hr2 & Hc2).
      unfold body. destruct (decide (i ≠ r)) as [Hne|Heq].
      + destruct (double_row_loop m2 i (Double.cols t) (Double.rows t) (Double.cols t)
                    (fun j m' => (Double.cell m' i j - Double.cell m2 i c * Double.cell m' r j)%float)
                    (fun j x => (x - Double.cell m2 i c * Double.cell m1 r j)%float))
          as (Hd3 & Hrows3 & Hcells3); [done|lia|lia| |].
        { intros j m0 Hm0. f_equal. f_equal.
          rewrite (double_cell_getRow_eq m2 m0) by (apply Hm0; congruence).
          by apply double_cell_getRow_eq. }
        split; [done|]. split.
        { rewrite Hrows3 by congruence. done. }
        intros k Hk Hkr j. destruct (decide (k = i)) as [->|Hki].
        * rewrite Hcells3. rewrite !Hc2 by done.
          destruct (decide (i < i /\ j < Double.cols t)); [lia|].
          destruct (decide (i < i /\ c < Double.cols t)); [lia|].
          destruct (decide (j < Double.cols t)); destruct (decide (i < S i /\ j < Double.cols t));
            try lia; try done.
        * rewrite (double_cell_getRow_eq m2) by (by apply Hrows3).
          rewrite Hc2 by done.
          destruct (decide (k < i /\ j < Double.cols t));
            destruct (decide (k < S i /\ j < Double.cols t)); done || lia.
      + assert (i = r) as -> by (destruct (decide (i = r)); [done|tauto]).
        split; [done|]. split; [done|].
        intros k Hk Hkr j. rewrite Hc2 by done.
        destruct (decide (k < r /\ j < Double.cols t));
          destruct (decide (k < S r /\ j < Double.cols t)); done || lia. }
  destruct (Hloop (Double.rows t)) as (Hd2 & Hr2 & Hc2); [lia|].
  split; [done|].
  intros i j Hi Hj. destruct (decide (i = r)) as [->|Hne].
  - rewrite (double_cell_getRow_eq m1) by done. rewrite Hcells1.
    destruct (decide (j < Double.cols t)); [done|lia].
  - rewrite Hc2 by done.
    destruct (decide (i < Double.rows t /\ j < Double.cols t)); [|lia].
    rewrite !(double_cell_getRow_eq m m1) by (by apply Hrows1).
    rewrite Hcells1. destruct (decide (j < Double.cols t)); [done|lia].
Qed.

(** ** The pivot column after a pivot *)

(** A double below [-epsilon] is not a zero, nor is a finite double that is
    not within [epsilon] of 0. *)
Lemma double_below_nonzero (x : float) :
  (x <? - Double.epsilon)%float = true -> (x =? 0)%float = false.
Proof.
  rewrite ltb_spec, FloatAxioms.eqb_spec.
  destruct (Prim2SF x) as [[]|[]| |[] m e]; try reflexivity; vm_compute; discriminate.
Qed.

Lemma double_not_small_nonzero (x : float) :
  (abs x <? Double.epsilon)%float = false -> (x =? 0)%float = false.
Proof.
  rewrite ltb_spec, abs_spec, FloatAxioms.eqb_spec.
  destruct (Prim2SF x) as [[]|[]| |[] m e]; try reflexivity; vm_compute; discriminate.
Qed.

Lemma double_below_not_small (x : float) :
  (x <? - Double.epsilon)%float = true ->
  (abs x <? Double.epsilon)%float = false.
Proof.
  rewrite !ltb_spec, abs_spec.
  change (Prim2SF (- Double.epsilon)) with (SFopp (Prim2SF Double.epsilon)).
  destruct (Prim2SF Double.epsilon) as [[]|[]| |[] me ee] eqn:He;
    try (vm_compute in He; discriminate).
  destruct (Prim2SF x) as [[]|[]| |[] m e]; try reflexivity; try discriminate.
  cbn [SFopp SFabs negb]. unfold SFltb, SFcompare. intros H. cmp_cases.
Qed.

(** [findPivotColumn] returns a column before the last one. *)
Lemma double_findPivotColumn_range (t : Double.Tableau) (c : nat) :
  Double.findPivotColumn t = Some c -> c < Double.cols t - 1.
Proof.
  unfold Double.findPivotColumn. cbv zeta.
  pose (P := fun (n : nat) (st : float * option nat) =>
               match snd st with Some c' => c' < n | None => True end).
  assert (forall n, P n (forRange 0 n
            (fun j '(minVal, pivotCol) =>
               if (Double.entry (Double.getRow (Double.matrix t) (Double.rows t - 1)) j
                   <? minVal)%float
               then (Double.entry (Double.getRow (Double.matrix t) (Double.rows t - 1)) j,
                     Some j)
               else (minVal, pivotCol))
            (0%float, None))) as Hinv.
  { intros n. apply (forRange_inv P); unfold P.
    - done.
    - intros j [minVal pivotCol] Hj IH. cbn [snd] in IH.
      destruct (_ <? _)%float; cbn [snd]; [lia|].
      destruct pivotCol; [lia|done]. }
  intros Hc. specialize (Hinv (Double.cols t - 1)). unfold P in Hinv.
  by rewrite Hc in Hinv.
Qed.

(** On a well-formed tableau whose column [c] holds finite doubles, with a
    pivot element that is not a zero, [pivot(r, c)] leaves column [c] the
    unit vector of row [r], exactly, and records [c] in the basis. *)
Lemma double_pivot_unit_column (t : Double.Tableau) (r c : nat) :
  Double.wf t -> r < Double.rows t -> c < Double.cols t ->
  (forall i, i < Double.rows t -> Double.finite (Double.cell (Double.matrix t) i c)) ->
  (Double.cell (Double.matrix t) r c =? 0)%float = false ->
  Double.unitColumn (Double.matrix (Double.pivot t r c)) (Double.rows t) c r /\
  Double.basis (Double.pivot t r c) !! r = Some c.
Proof.
  intros [Hd Hb] Hr Hc Hfin Hnz. split.
  - destruct (double_pivot_cells t r c Hd Hr) as [_ Hcells]. cbv zeta in Hcells.
    intros i Hi. rewrite Hcells by done.
    rewrite (div_self _ (Hfin r Hr) Hnz).
    destruct (decide (i = r)) as [->|Hne]; [done|].
    rewrite (mul_one _ (Hfin i Hi)). apply sub_self. by apply Hfin.
  - unfold Double.pivot. cbn [Double.basis]. apply list_lookup_insert_eq. lia.
Qed.

(** * The claims *)

(** ** C1: the returned quantities against the requirements *)

(** With costs and nutrient values that are not negative the loop makes no
    pivot: no objective entry is negative at the start, every food column
    holds the negated nutrients, and every quantity comes out 0. *)
Lemma nonnegative_input_all_zero (foods : list Food) (constraints : Constraints) :
  Forall (fun fd => (0 <= cost fd)%Q) foods ->
  Forall (fun fd => forall key, (0 <= foodGet fd key)%Q) foods ->
  exists sol,
    simplexSolve foods constraints = Some (SolveOk sol) /\
    length (amounts sol) = length foods /\
    (forall j, j < length foods -> amounts sol !! j = Some 0%Q) /\
    totalCost sol = sumUpTo (length foods) (fun j => (0 * cost (foodAt foods j))%Q).
Proof.
  intros Hcost Hnut.
  destruct (initialTableau_cells foods constraints) as (Hr & Hc & Hwf & Hcells).
  cbv zeta in Hr, Hc, Hcells. set (t := initialTableau foods constraints) in *.
  assert (findPivotColumn t = None) as Hopt.
  { pose proof (findPivotColumn_spec t) as Hspec.
    destruct (findPivotColumn t) as [c|]; [exfalso|done].
    destruct Hspec as (Hlt & Hneg & _). unfold objEntry in Hneg.
    change (entry (getRow (matrix t) (rows t - 1)) c)
      with (cell (matrix t) (rows t - 1) c) in Hneg.
    rewrite Hr in Hneg. unfold numConstraints in *.
    rewrite Hcells in Hneg by lia.
    unfold initCell, numConstraints in Hneg.
    destruct (decide (5 + 1 - 1 < 5)); [lia|].
    destruct (decide (c < length foods)); [|lra].
    pose proof (foodAt_cost_nonneg foods c Hcost). lra. }
  destruct (simplexSolve_done_at foods constraints 0 t) as [snaps Hres];
    [unfold maxIterations; lia|constructor|by left|].
  eexists. split; [exact Hres|].
  unfold extractSolution. cbn [amounts totalCost ls_tableau].
  destruct (extractAmounts_lookup (matrix t) (length foods)
              (length foods + numConstraints + 1)) as [Hlen Hlook].
  cbv zeta in Hlen, Hlook.
  assert (forall j, j < length foods ->
            amountOf (matrix t) (length foods + numConstraints + 1) j = 0%Q) as Hzero.
  { intros j Hj. apply amountOf_not_basic. intros i Hi [Hone _].
    apply absQ_lt in Hone.
    rewrite Hcells in Hone by (unfold numConstraints in *; lia).
    unfold initCell in Hone.
    destruct (decide (i < numConstraints)); [|lia].
    destruct (decide (j < length foods)); [|lia].
    assert (0 <= foodGet (foodAt foods j) (keyAt i))%Q as Hge.
    { unfold foodAt. destruct (foods !! j) as [fd|] eqn:E; cbn.
      - by apply (Forall_lookup_1 _ _ _ _ Hnut E).
      - destruct (keyAt i); cbn; lra. }
    unfold epsilon in Hone. lra. }
  split; [done|]. split.
  - intros j Hj. rewrite Hlook by done. by rewrite Hzero.
  - rewrite totalCostOf_sum, Hlen. apply sumUpTo_ext. intros j Hj.
    by rewrite (entry_lookup _ _ _ (Hlook j Hj)), Hzero.
Qed.

(** The half of C1 that holds: no returned quantity is negative. *)
Lemma returned_amounts_nonneg (foods : list Food) (constraints : Constraints)
    (sol : Solution) (j : nat) (a : Q) :
  simplexSolve foods constraints = Some (SolveOk sol) ->
  amounts sol !! j = Some a -> (0 <= a)%Q.
Proof.
  intros Hsol Ha.
  destruct (simplexSolve_run foods constraints)
    as (k & t & _ & _ & [(_ & _ & Hres)|(_ & snaps & _ & Hres)]); [congruence|].
  rewrite Hres in Hsol. injection Hsol as <-.
  unfold extractSolution in Ha. cbn [amounts ls_tableau] in Ha.
  destruct (extractAmounts_lookup (matrix t) (length foods)
              (length foods + numConstraints + 1)) as [Hlen Hlook].
  cbv zeta in Hlen, Hlook.
  assert (j < length foods) as Hj.
  { rewrite <- Hlen. by apply lookup_lt_Some in Ha. }
  rewrite Hlook in Ha by done. injection Ha as <-. apply amountOf_nonneg.
Qed.

(** C1, at the reference diet of the repository (nonnegative costs,
    nutrients and requirements; a feasible linear program): the solver
    returns the quantity 0 for each of the five foods, so the protein
    delivered is 0, which is below the requirement of 50 minus epsilon.  The
    property claimed for feasible inputs fails here. *)
Theorem reference_diet_requirements_unmet :
  exists sol,
    simplexSolve referenceFoods referenceConstraints = Some (SolveOk sol) /\
    amounts sol = [0; 0; 0; 0; 0]%Q /\
    (delivered referenceFoods (amounts sol) protein
     < constraintGet referenceConstraints protein - epsilon)%Q.
Proof.
  eexists. split; [vm_compute; reflexivity|]. split; reflexivity.
Qed.

(** ** C2: the extraction of quantities and total cost *)




(** ** C3: the bound on the number of pivots *)

(** C3: every call makes [k <= 100] pivots from the initial tableau and then
    returns: either the unbounded error, before the cap, or the solution read
    off the tableau at which the loop was left, which happens when no
    entering column is found or when the counter has reached 100.  The
    counter is the number of pivots made.  The fuel of the model never runs
    out: any larger amount gives the same result. *)
Theorem solve_makes_at_most_100_pivots (foods : list Food)
    (constraints : Constraints) :
  (exists k t,
     k <= 100 /\
     pivots (initialTableau foods constraints) k t /\
     ((k < 100 /\
       (exists c, findPivotColumn t = Some c /\ findPivotRow t c = None) /\
       simplexSolve foods constraints = Some (SolveError "Problem is unbounded")) \/
      ((findPivotColumn t = None \/ k = 100) /\
       exists snaps,
         length snaps <= 100 /\
         simplexSolve foods constraints =
         Some (SolveOk (extractSolution foods (mkLoop t k snaps)))))) /\
  (forall fuel, 100 < fuel ->
     simplexSolveFuel fuel foods constraints = simplexSolve foods constraints).
Proof.
  split.
  - exact (simplexSolve_run foods constraints).
  - intros fuel Hfuel. unfold simplexSolve, simplexSolveFuel.
    rewrite (simplexLoop_fuel_irrelevant fuel (S maxIterations)); [done| |];
      cbn [ls_iteration]; unfold maxIterations; lia.
Qed.

Lemma solve_makes_at_most_100_pivots_witness :
  simplexSolveFuel 250 referenceFoods referenceConstraints =
  simplexSolve referenceFoods referenceConstraints.
Proof.
  apply (proj2 (solve_makes_at_most_100_pivots referenceFoods referenceConstraints)).
  lia.
Defined.


(** ** C4: the unbounded failure *)

(** The server: when, before the cap, the engine is at a tableau where
    [findPivotColumn] returns a column and [findPivotRow] returns none for
    it, the call returns the error [Problem is unbounded] and nothing else:
    no solution is extracted. *)
Lemma unbounded_failure_is_returned (foods : list Food)
    (constraints : Constraints) (k c : nat) (t : Tableau) :
  k < 100 ->
  pivots (initialTableau foods constraints) k t ->
  findPivotColumn t = Some c ->
  findPivotRow t c = None ->
  simplexSolve foods constraints = Some (SolveError "Problem is unbounded").
Proof.
  intros Hk Hp Hc Hr.
  by apply (simplexSolve_unbounded_at foods constraints k c t).
Qed.

Lemma foodsOf_objects (foods : list Food) : foodsOf (ItemFood <$> foods) = Some foods.
Proof.
  unfold foodsOf. induction foods as [|fd foods IH]; [done|].
  cbn. cbn in IH. by rewrite IH.
Qed.

(** The handler on a non-empty array and a constraints object. *)
Lemma optimizeHandler_array (items : list FoodItem) (get : Nutrient -> option Q) :
  items ≠ [] ->
  optimizeHandler (mkOptimizeBody (FoodsArray items) (ConstraintsObject get)) =
  match firstInvalidKey get with
  | Some key =>
      Some (mkResponse 400
              (BodyError ("Missing or invalid constraint: " ++ keyName key)))
  | None =>
      match simplexSolveItems items (constraintsOf get) with
      | Thrown => Some (mkResponse 500 BodyInternalError)
      | Returned None => None
      | Returned (Some (SolveError e)) => Some (mkResponse 400 (BodyError e))
      | Returned (Some (SolveOk sol)) => Some (mkResponse 200 (BodyResult sol))
      end
  end.
Proof. intros Hne. by destruct items. Qed.

(** The handler passes the failure on unchanged, with status 400. *)
Lemma optimizeHandler_unbounded (foods : list Food) (get : Nutrient -> option Q) :
  foods ≠ [] ->
  firstInvalidKey get = None ->
  simplexSolve foods (constraintsOf get) = Some (SolveError "Problem is unbounded") ->
  optimizeHandler (mkOptimizeBody (FoodsArray (ItemFood <$> foods))
                                  (ConstraintsObject get)) =
  Some (mkResponse 400 (BodyError "Problem is unbounded")).
Proof.
  intros Hne Hkeys Hres. rewrite optimizeHandler_array by (by destruct foods).
  rewrite Hkeys. unfold simplexSolveItems. by rewrite foodsOf_objects, Hres.
Qed.

(** The browser copy leaves its loop by [break] at such a tableau, with the
    tableau as it stands and one more snapshot. *)
Lemma browser_loop_breaks_when_unbounded (fuel : nat) (st : Browser.LoopState)
    (c : nat) :
  Browser.iter st < Browser.maxIter ->
  Browser.enterColOf (Browser.tab st) = Some c ->
  Browser.leaveRowOf (Browser.tab st) c = None ->
  Browser.simplexLoop (S fuel) st =
  Some (Browser.mkLoop (Browser.tab st) (Browser.iter st)
          (Browser.iterations st ++ [Browser.tab st])).
Proof.
  intros Hit Hc Hr. cbn [Browser.simplexLoop].
  destruct (decide (Browser.iter st < Browser.maxIter)); [|done].
  by rewrite Hc, Hr.
Qed.

(** C4, in the browser copy: when the search for the entering column finds
    a column and the ratio test finds no row for it, [simplex] does not
    fail: it leaves the loop, at whatever turn this happens, and reads
    quantities, total cost and shadow prices off the tableau at which the
    ratio test failed.  So it is at the first turn for the one food
    [payingFood] with the reference requirements, where the server's
    [simplexSolve] returns the error [Problem is unbounded]. *)
Theorem browser_copy_extracts_amounts_when_unbounded :
  (forall (fuel : nat) (st : Browser.LoopState) (c : nat),
     Browser.iter st < Browser.maxIter ->
     Browser.enterColOf (Browser.tab st) = Some c ->
     Browser.leaveRowOf (Browser.tab st) c = None ->
     Browser.simplexLoop (S fuel) st =
     Some (Browser.mkLoop (Browser.tab st) (Browser.iter st)
             (Browser.iterations st ++ [Browser.tab st]))) /\
  (forall (foods : list Food) (constraints : Constraints) (c : nat),
     Browser.enterColOf (Browser.initialTab foods constraints) = Some c ->
     Browser.leaveRowOf (Browser.initialTab foods constraints) c = None ->
     Browser.simplex foods constraints =
     Some (Browser.outcomeOf foods
             (Browser.mkLoop (Browser.initialTab foods constraints) 0
                [Browser.initialTab foods constraints]))) /\
  Browser.enterColOf (Browser.initialTab [payingFood] referenceConstraints) = Some 0 /\
  Browser.leaveRowOf (Browser.initialTab [payingFood] referenceConstraints) 0 = None /\
  (exists out,
     Browser.simplex [payingFood] referenceConstraints = Some out /\
     Browser.amounts out = [0%Q] /\ Browser.totalCost out = 0%Q) /\
  findPivotColumn (initialTableau [payingFood] referenceConstraints) = Some 0 /\
  findPivotRow (initialTableau [payingFood] referenceConstraints) 0 = None /\
  simplexSolve [payingFood] referenceConstraints =
  Some (SolveError "Problem is unbounded").
Proof.
  split; [|split; [|split; [|split; [|split; [|split; [|split]]]]]].
  - exact browser_loop_breaks_when_unbounded.
  - intros foods constraints c Hc Hr.
    unfold Browser.simplex, Browser.simplexFuel.
    rewrite (browser_loop_breaks_when_unbounded _ _ c);
      [done|cbn; unfold Browser.maxIter; lia|done|done].
  - vm_compute. reflexivity.
  - vm_compute. reflexivity.
  - eexists. split; [vm_compute; reflexivity|]. split; reflexivity.
  - vm_compute. reflexivity.
  - vm_compute. reflexivity.
  - vm_compute. reflexivity.
Qed.

Lemma browser_copy_extracts_amounts_when_unbounded_witness :
  Browser.simplex [payingFood] referenceConstraints =
  Some (Browser.outcomeOf [payingFood]
          (Browser.mkLoop (Browser.initialTab [payingFood] referenceConstraints) 0
             [Browser.initialTab [payingFood] referenceConstraints])).
Proof.
  apply (proj1 (proj2 browser_copy_extracts_amounts_when_unbounded)
           [payingFood] referenceConstraints 0).
  - vm_compute. reflexivity.
  - vm_compute. reflexivity.
Defined.

(** ** C5: the leaving row *)

(** In exact arithmetic: [findPivotRow] returns row [r] exactly when [r] is
    the lowest constraint row with the smallest positive ratio among the
    rows whose entry is below [-epsilon], and none exactly when there is no
    such row. *)
Lemma findPivotRow_exact_leaving_row (t : Tableau) (c : nat) :
  (forall r, findPivotRow t c = Some r <-> leavingRow t c r) /\
  (findPivotRow t c = None <->
   forall i, i < rows t - 1 -> ~ qualifies t c i).
Proof.
  pose proof (findPivotRow_spec t c) as Hspec. split.
  - intros r. split.
    + intros Hr. by rewrite Hr in Hspec.
    + intros Hlr. destruct (findPivotRow t c) as [r'|].
      * f_equal. by apply (leavingRow_unique t c).
      * exfalso. destruct Hlr as (Hr & Hq & _). by apply (Hspec r).
  - split.
    + intros Hr. by rewrite Hr in Hspec.
    + intros Hno. destruct (findPivotRow t c) as [r|]; [exfalso|done].
      destruct Hspec as (Hr & Hq & _). by apply (Hno r).
Qed.

(** C5, as the code has it (amended), in double precision: [findPivotRow]
    returns row [r] exactly when [r] is a constraint row whose entry in the
    entering column is below [-epsilon] and whose computed ratio
    [-RHS[r] / matrix[r][c]] is above 0 and below [Infinity], no such row
    has a smaller ratio, and every such row above [r] has a strictly larger
    one; it returns none exactly when no constraint row is such.  A row
    whose ratio overflows to [Infinity] is never returned. *)
Theorem findPivotRow_smallest_finite_positive_ratio (t : Double.Tableau) (c : nat) :
  (forall r, Double.findPivotRow t c = Some r <-> Double.leavingRow t c r) /\
  (Double.findPivotRow t c = None <->
   forall i, i < Double.rows t - 1 -> ~ Double.qualifies t c i) /\
  (forall r, Double.findPivotRow t c = Some r ->
     Double.ratioOf t c r <> infinity).
Proof.
  pose proof (double_findPivotRow_spec t c) as Hspec. split; [|split].
  - intros r. split.
    + intros Hr. by rewrite Hr in Hspec.
    + intros Hlr. destruct (Double.findPivotRow t c) as [r'|].
      * f_equal. by apply (double_leavingRow_unique t c).
      * exfalso. destruct Hlr as (Hr & Hq & _). by apply (Hspec r).
  - split.
    + intros Hr. by rewrite Hr in Hspec.
    + intros Hno. destruct (Double.findPivotRow t c) as [r|]; [exfalso|done].
      destruct Hspec as (Hr & Hq & _). by apply (Hno r).
  - intros r Hr. rewrite Hr in Hspec. destruct Hspec as (_ & [_ Hfin] & _).
    intros Hinf. rewrite Hinf in Hfin. vm_compute in Hfin. discriminate.
Qed.

Lemma findPivotRow_smallest_finite_positive_ratio_witness :
  Double.findPivotRow Double.tieTableau 0 = Some 0 /\
  Double.leavingRow Double.tieTableau 0 0.
Proof.
  assert (Double.findPivotRow Double.tieTableau 0 = Some 0) as Hr
    by (vm_compute; reflexivity).
  split; [exact Hr|].
  apply (proj1 (findPivotRow_smallest_finite_positive_ratio Double.tieTableau 0) 0).
  exact Hr.
Defined.

(** C5 as stated fails.  On [Double.overflowTableau] the one constraint row
    has an entry below [-epsilon] and a strictly positive ratio, which is
    [Infinity], and [findPivotRow] returns none.  And the browser copy takes
    a row whose entry, [-1e-7], is not below [-epsilon], where the server's
    function returns none. *)
Lemma findPivotRow_overflowing_ratio_counterexample :
  (Double.rows Double.overflowTableau - 1 = 1 /\
   Double.positiveRatio Double.overflowTableau 0 0 /\
   Double.ratioOf Double.overflowTableau 0 0 = infinity /\
   Double.findPivotRow Double.overflowTableau 0 = None) /\
  (~ (cell (matrix smallEntryTableau) 0 0 < - epsilon)%Q /\
   Browser.leaveRowOf (matrix smallEntryTableau) 0 = Some 0 /\
   findPivotRow smallEntryTableau 0 = None).
Proof.
  split; [split; [|split; [|split]]|split; [|split]].
  - reflexivity.
  - split; vm_compute; reflexivity.
  - vm_compute. reflexivity.
  - vm_compute. reflexivity.
  - vm_compute. discriminate.
  - vm_compute. reflexivity.
  - vm_compute. reflexivity.
Qed.

(** ** C6: the pivot column after a pivot *)

(** In exact arithmetic every pivot the engine makes is at an element below
    [-epsilon], leaves the pivot column a unit vector and records it in the
    basis. *)
Lemma engineStep_unit_column (t t' : Tableau) :
  wf t ->
  engineStep t t' ->
  exists r c,
    t' = pivot t r c /\
    (cell (matrix t) r c < - epsilon)%Q /\
    unitColumn (matrix t') (rows t') c r /\
    basis t' !! r = Some c.
Proof.
  intros Hwf Hstep.
  destruct (engineStep_inv t t' Hstep) as (c & r & Hc & Hr & ->).
  exists r, c. split; [done|].
  destruct Hc as (Hc & _). destruct Hr as (Hr & [Helem _] & _).
  split; [done|].
  change (rows (pivot t r c)) with (rows t).
  apply pivot_unit_column; [done|lia|lia|].
  intros Hz. rewrite Hz in Helem. unfold epsilon in Helem. lra.
Qed.

(** C6, as the code has it (amended), in double precision.  On a
    well-formed tableau whose entries in column [c] are finite, for a row
    [r] and column [c] in range whose pivot element is not within epsilon of
    0, [pivot(r, c)] leaves column [c] the unit vector of row [r] (exactly 1
    in row [r] and 0 in every other row, the objective row included) and
    sets [basis[r] = c].  Every pivot the engine makes is at an element
    below [-epsilon] of a constraint row, and leaves its column so when the
    entries of that column were finite. *)
Theorem pivot_column_is_unit_vector :
  (forall (t : Double.Tableau) (r c : nat),
     Double.wf t -> r < Double.rows t -> c < Double.cols t ->
     (forall i, i < Double.rows t ->
        Double.finite (Double.cell (Double.matrix t) i c)) ->
     (abs (Double.cell (Double.matrix t) r c) <? Double.epsilon)%float = false ->
     Double.unitColumn (Double.matrix (Double.pivot t r c)) (Double.rows t) c r /\
     Double.basis (Double.pivot t r c) !! r = Some c) /\
  (forall t t' : Double.Tableau,
     Double.wf t ->
     Double.engineStep t t' ->
     exists r c,
       t' = Double.pivot t r c /\
       r < Double.rows t - 1 /\ c < Double.cols t - 1 /\
       (Double.cell (Double.matrix t) r c <? - Double.epsilon)%float = true /\
       (abs (Double.cell (Double.matrix t) r c) <? Double.epsilon)%float = false /\
       ((forall i, i < Double.rows t ->
           Double.finite (Double.cell (Double.matrix t) i c)) ->
        Double.unitColumn (Double.matrix t') (Double.rows t) c r /\
        Double.basis t' !! r = Some c)).
Proof.
  split.
  - intros t r c Hwf Hr Hc Hfin Hp.
    apply double_pivot_unit_column; [done|done|done|done|].
    by apply double_not_small_nonzero.
  - intros t t' Hwf Hstep. destruct Hstep as [t c r Hc Hr].
    exists r, c. split; [done|].
    pose proof (double_findPivotRow_spec t c) as Hspec. rewrite Hr in Hspec.
    destruct Hspec as (Hrr & [[Helem _] _] & _).
    pose proof (double_findPivotColumn_range t c Hc) as Hcr.
    split; [done|]. split; [done|]. split; [done|].
    split; [by apply double_below_not_small|].
    intros Hfin. apply double_pivot_unit_column; [done|lia|lia|done|].
    by apply double_below_nonzero.
Qed.

Lemma double_tieTableau_wf : Double.wf Double.tieTableau.
Proof.
  split; [split|]; [reflexivity| |reflexivity].
  intros i Hi. cbn in Hi. destruct i as [|[|[|[|i]]]]; [reflexivity..|lia].
Defined.

Lemma double_tieTableau_finite (i : nat) :
  i < 4 -> Double.finite (Double.cell (Double.matrix Double.tieTableau) i 0).
Proof.
  intros Hi. destruct i as [|[|[|[|i]]]]; [vm_compute; reflexivity..|lia].
Defined.

Lemma pivot_column_is_unit_vector_witness :
  (Double.unitColumn (Double.matrix (Double.pivot Double.tieTableau 0 0)) 4 0 0 /\
   Double.basis (Double.pivot Double.tieTableau 0 0) !! 0 = Some 0) /\
  (exists r c,
     Double.pivot Double.tieTableau 0 0 = Double.pivot Double.tieTableau r c /\
     r < 4 - 1 /\ c < 3 - 1 /\
     (Double.cell (Double.matrix Double.tieTableau) r c <? - Double.epsilon)%float
     = true /\
     (abs (Double.cell (Double.matrix Double.tieTableau) r c) <? Double.epsilon)%float
     = false /\
     ((forall i, i < 4 ->
         Double.finite (Double.cell (Double.matrix Double.tieTableau) i c)) ->
      Double.unitColumn (Double.matrix (Double.pivot Double.tieTableau 0 0)) 4 c r /\
      Double.basis (Double.pivot Double.tieTableau 0 0) !! r = Some c)).
Proof.
  split.
  - apply (proj1 pivot_column_is_unit_vector Double.tieTableau 0 0).
    + exact double_tieTableau_wf.
    + cbn. lia.
    + cbn. lia.
    + exact double_tieTableau_finite.
    + vm_compute. reflexivity.
  - apply (proj2 pivot_column_is_unit_vector Double.tieTableau
             (Double.pivot Double.tieTableau 0 0)).
    + exact double_tieTableau_wf.
    + apply Double.EngineStep; vm_compute; reflexivity.
Defined.

(** C6 as stated fails.  The numbers of [Double.overflowFoods] and
    [Double.overflowConstraints] are finite.  The engine pivots at row 0,
    column 0, where the product of [2^700] with itself overflows to
    [Infinity] in row 1, column 1; it then pivots at row 2, column 1, at the
    element [-1], and that pivot writes [Infinity - Infinity * 1], which is
    [NaN], into row 1 of its own pivot column. *)
Lemma engine_pivot_column_nan_counterexample :
  let t0 := Double.initialTableau Double.overflowFoods Double.overflowConstraints in
  let t1 := Double.pivot t0 0 0 in
  let t2 := Double.pivot t1 2 1 in
  Double.engineStep t0 t1 /\
  Double.cell (Double.matrix t1) 1 1 = infinity /\
  Double.engineStep t1 t2 /\
  Double.cell (Double.matrix t1) 2 1 = (- 1)%float /\
  is_nan (Double.cell (Double.matrix t2) 1 1) = true /\
  (abs (Double.cell (Double.matrix t2) 1 1) <? Double.epsilon)%float = false.
Proof.
  cbv zeta. split; [|split; [|split; [|split; [|split]]]].
  - apply Double.EngineStep; vm_compute; reflexivity.
  - vm_compute. reflexivity.
  - apply Double.EngineStep; vm_compute; reflexivity.
  - vm_compute. reflexivity.
  - vm_compute. reflexivity.
  - vm_compute. reflexivity.
Qed.

(** ** C7: what the optimize handler rejects *)

Lemma firstInvalidKey_None (get : Nutrient -> option Q) :
  firstInvalidKey get = None <-> forall key, is_Some (get key).
Proof.
  unfold firstInvalidKey, constraintKeys. cbn [forBreakOver]. split.
  - intros H key.
    destruct (get protein) eqn:E1; [|done].
    destruct (get carbs) eqn:E2; [|done].
    destruct (get fat) eqn:E3; [|done].
    destruct (get fiber) eqn:E4; [|done].
    destruct (get vitamins) eqn:E5; [|done].
    destruct key; by eexists.
  - intros H.
    destruct (H protein) as [? ->]. destruct (H carbs) as [? ->].
    destruct (H fat) as [? ->]. destruct (H fiber) as [? ->].
    by destruct (H vitamins) as [? ->].
Qed.

Lemma simplexSolve_total (foods : list Food) (constraints : Constraints) :
  exists res, simplexSolve foods constraints = Some res.
Proof.
  destruct (simplexSolve_run foods constraints)
    as (k & t & _ & _ & [(_ & _ & Hres)|(_ & snaps & _ & Hres)]); by eexists.
Qed.

Lemma foodsOf_null (items : list FoodItem) : ItemNull ∈ items -> foodsOf items = None.
Proof.
  unfold foodsOf. induction items as [|item items IH]; intros Hin.
  - by apply elem_of_nil in Hin.
  - apply elem_of_cons in Hin as [<-|Hin]; [done|].
    cbn. destruct item; [done|]. cbn. cbn in IH. by rewrite IH.
Qed.

(** What the handler makes of an array with an element that is [null] or
    [undefined]: [simplexSolve] throws, and the [catch] answers with status
    500. *)
Lemma optimizeHandler_null_item (items : list FoodItem) (get : Nutrient -> option Q) :
  ItemNull ∈ items ->
  (forall key, is_Some (get key)) ->
  optimizeHandler (mkOptimizeBody (FoodsArray items) (ConstraintsObject get)) =
  Some (mkResponse 500 BodyInternalError).
Proof.
  intros Hin Hkeys. rewrite optimizeHandler_array.
  - rewrite (proj2 (firstInvalidKey_None get) Hkeys). unfold simplexSolveItems.
    by rewrite foodsOf_null.
  - intros ->. by apply elem_of_nil in Hin.
Qed.

(** C7, as the code has it (amended): a request with no items is answered
    with status 400 and an error message without [simplexSolve] being
    called; the sign of a number is no ground for rejection: a request
    whose foods are a non-empty array of objects with numeric fields and
    whose five requirements are numbers, whatever their signs, goes to
    [simplexSolve], whose result is the answer. *)
Theorem optimize_rejects_empty_not_negative :
  (forall req : OptimizeBody,
     b_foods req = FoodsArray [] ->
     optimizeHandler req =
     Some (mkResponse 400
             (BodyError (match b_constraints req with
                         | ConstraintsFalsy => "Missing foods or constraints"
                         | ConstraintsObject _ => "Invalid foods array"
                         end)))) /\
  (forall (foods : list Food) (get : Nutrient -> option Q),
     foods ≠ [] ->
     (forall key, is_Some (get key)) ->
     exists res,
       simplexSolve foods (constraintsOf get) = Some res /\
       optimizeHandler (mkOptimizeBody (FoodsArray (ItemFood <$> foods))
                                       (ConstraintsObject get)) =
       Some (match res with
             | SolveError e => mkResponse 400 (BodyError e)
             | SolveOk sol => mkResponse 200 (BodyResult sol)
             end)).
Proof.
  split.
  - intros [fds cs] Hf. cbn in Hf. subst fds. unfold optimizeHandler.
    cbn [b_foods b_constraints]. by destruct cs.
  - intros foods get Hne Hkeys.
    destruct (simplexSolve_total foods (constraintsOf get)) as [res Hres].
    exists res. split; [done|].
    rewrite optimizeHandler_array by (by destruct foods).
    rewrite (proj2 (firstInvalidKey_None get) Hkeys). unfold simplexSolveItems.
    rewrite foodsOf_objects, Hres. by destruct res.
Qed.

Lemma optimize_rejects_empty_not_negative_witness :
  optimizeHandler (requestOf [] referenceConstraints) =
  Some (mkResponse 400 (BodyError "Invalid foods array")) /\
  exists res,
    simplexSolve negativeFoods
      (constraintsOf (fun key => Some (constraintGet negativeConstraints key))) =
    Some res /\
    optimizeHandler (requestOf negativeFoods negativeConstraints) =
    Some (match res with
          | SolveError e => mkResponse 400 (BodyError e)
          | SolveOk sol => mkResponse 200 (BodyResult sol)
          end).
Proof.
  split.
  - apply (proj1 optimize_rejects_empty_not_negative
             (requestOf [] referenceConstraints)).
    reflexivity.
  - apply (proj2 optimize_rejects_empty_not_negative negativeFoods
             (fun key => Some (constraintGet negativeConstraints key))).
    + discriminate.
    + intros key. eexists. reflexivity.
Defined.

(** C7 as stated fails: [negativeFoods] has negative unit costs and a
    negative nutrient value, [negativeConstraints] has negative
    requirements, and the handler answers with status 200 and a solution. *)
Lemma optimize_accepts_negative_input :
  (exists fd, fd ∈ negativeFoods /\ (cost fd < 0)%Q /\ (foodGet fd protein < 0)%Q) /\
  (constraintGet negativeConstraints protein < 0)%Q /\
  exists sol,
    optimizeHandler (requestOf negativeFoods negativeConstraints) =
    Some (mkResponse 200 (BodyResult sol)).
Proof.
  split; [|split].
  - exists (mkFood "B" (- (1 # 10000000)) (- 1) (1 # 10000000) 0 0 0).
    split; [|split; reflexivity].
    unfold negativeFoods. apply list_elem_of_further, list_elem_of_here.
  - reflexivity.
  - eexists. vm_compute. reflexivity.
Qed.

(** ** C8: an item that delivers nothing *)

(** A column that is 0 in every constraint row stays so under a pivot. *)
Lemma pivot_zero_column (t : Tableau) (r c j : nat) :
  wf t -> r < rows t - 1 -> j < cols t ->
  (forall i, i < rows t - 1 -> (cell (matrix t) i j == 0)%Q) ->
  forall i, i < rows t - 1 -> (cell (matrix (pivot t r c)) i j == 0)%Q.
Proof.
  intros [Hd _] Hr Hj Hzero i Hi.
  destruct (pivot_cells t r c Hd ltac:(lia)) as [_ Hcells]. cbv zeta in Hcells.
  rewrite Hcells by lia. destruct (decide (i = r)) as [->|Hne].
  - rewrite (Hzero r Hr). unfold Qdiv. ring.
  - rewrite (Hzero r Hr), (Hzero i Hi). unfold Qdiv. ring.
Qed.

(** And the objective entry of such a column is left as it is. *)
Lemma pivot_zero_column_objective (t : Tableau) (r c j : nat) :
  wf t -> r < rows t - 1 -> j < cols t ->
  (forall i, i < rows t - 1 -> (cell (matrix t) i j == 0)%Q) ->
  (objEntry (pivot t r c) j == objEntry t j)%Q.
Proof.
  intros [Hd _] Hr Hj Hzero. unfold objEntry.
  change (rows (pivot t r c)) with (rows t).
  change (entry (getRow ?m ?i) ?j) with (cell m i j).
  destruct (pivot_cells t r c Hd ltac:(lia)) as [_ Hcells]. cbv zeta in Hcells.
  rewrite Hcells by lia. destruct (decide (rows t - 1 = r)) as [Heq|Hne]; [lia|].
  rewrite (Hzero r Hr). unfold Qdiv. ring.
Qed.

Lemma pivots_zero_column (t t' : Tableau) (k j : nat) :
  pivots t k t' ->
  wf t -> j < cols t ->
  (forall i, i < rows t - 1 -> (cell (matrix t) i j == 0)%Q) ->
  (forall i, i < rows t' - 1 -> (cell (matrix t') i j == 0)%Q) /\
  (objEntry t' j == objEntry t j)%Q.
Proof.
  intros Hp. induction Hp as [t|t t1 t' k Hstep _ IH]; intros Hwf Hj Hzero; [done|].
  destruct (engineStep_inv t t1 Hstep) as (c & r & _ & (Hr & _) & ->).
  destruct IH as [IH1 IH2].
  - apply wf_pivot; [done|lia].
  - done.
  - change (rows (pivot t r c)) with (rows t). by apply pivot_zero_column.
  - split; [done|]. rewrite IH2. by apply pivot_zero_column_objective.
Qed.

(** The column of an item without nutrients, at every tableau of a run: 0
    in the constraint rows and the unit cost in the objective row. *)
Lemma zero_nutrient_column (foods : list Food) (constraints : Constraints)
    (j k : nat) (fd : Food) (t : Tableau) :
  foods !! j = Some fd ->
  (forall key, (foodGet fd key == 0)%Q) ->
  pivots (initialTableau foods constraints) k t ->
  (forall i, i < numConstraints -> (cell (matrix t) i j == 0)%Q) /\
  (objEntry t j == cost fd)%Q.
Proof.
  intros Hfd Hzero Hp.
  destruct (initialTableau_cells foods constraints) as (Hr0 & Hc0 & Hwf0 & Hcells).
  cbv zeta in Hr0, Hc0, Hcells. unfold numConstraints in *.
  assert (j < length foods) as Hj by (by apply lookup_lt_Some in Hfd).
  destruct (pivots_rows_cols _ _ _ Hp) as [Hrt _].
  destruct (pivots_zero_column _ _ _ j Hp) as [Hz Hobj]; [done|lia| |].
  - intros i Hi. rewrite Hr0 in Hi. rewrite Hcells by lia.
    unfold initCell, numConstraints.
    destruct (decide (i < 5)); [|lia].
    destruct (decide (j < length foods)); [|lia].
    unfold foodAt. rewrite Hfd. cbn. rewrite Hzero. reflexivity.
  - split.
    + intros i Hi. apply Hz. lia.
    + rewrite Hobj. unfold objEntry.
      change (entry (getRow ?m ?i) ?j) with (cell m i j).
      rewrite Hr0, Hcells by lia. unfold initCell, numConstraints.
      destruct (decide (5 + 1 - 1 < 5)); [lia|].
      destruct (decide (j < length foods)); [|lia].
      unfold foodAt. rewrite Hfd. reflexivity.
Qed.

(** C8, as the code has it (amended).  Let the item at index [j] have
    nutrient values that are all 0.  If its unit cost is 0, its column is
    never chosen as entering column, at any tableau of the run; its quantity
    is 0 in every solution returned; and when the call returns the
    unbounded error, the entering column for which the ratio test failed is
    another one.  The call returns the unbounded error on account of the
    item only when its column is chosen as entering column before the cap,
    and then the unit cost of the item is negative. *)
Theorem zero_cost_item_never_enters (foods : list Food)
    (constraints : Constraints) (j : nat) (fd : Food) :
  foods !! j = Some fd ->
  (forall key, (foodGet fd key == 0)%Q) ->
  ((cost fd == 0)%Q ->
   (forall k t,
      pivots (initialTableau foods constraints) k t ->
      findPivotColumn t <> Some j) /\
   (forall sol,
      simplexSolve foods constraints = Some (SolveOk sol) ->
      amounts sol !! j = Some 0%Q) /\
   (simplexSolve foods constraints = Some (SolveError "Problem is unbounded") ->
    exists k t c,
      k < 100 /\ pivots (initialTableau foods constraints) k t /\
      findPivotColumn t = Some c /\ c <> j /\ findPivotRow t c = None)) /\
  (forall k t,
     k < 100 ->
     pivots (initialTableau foods constraints) k t ->
     findPivotColumn t = Some j ->
     (cost fd < 0)%Q /\
     simplexSolve foods constraints = Some (SolveError "Problem is unbounded")).
Proof.
  intros Hfd Hzero.
  assert (j < length foods) as Hj by (by apply lookup_lt_Some in Hfd).
  assert (forall k t,
            pivots (initialTableau foods constraints) k t ->
            findPivotColumn t = Some j -> (cost fd < 0)%Q) as Hneg.
  { intros k t Hp Hc.
    destruct (zero_nutrient_column foods constraints j k fd t Hfd Hzero Hp)
      as [_ Hobj].
    pose proof (findPivotColumn_spec t) as Hspec. rewrite Hc in Hspec.
    destruct Hspec as (_ & Hlt & _). by rewrite Hobj in Hlt. }
  split.
  - intros Hcost.
    assert (forall k t,
              pivots (initialTableau foods constraints) k t ->
              findPivotColumn t <> Some j) as Hnever.
    { intros k t Hp Hc. pose proof (Hneg k t Hp Hc) as Hlt. lra. }
    split; [exact Hnever|]. split.
    + intros sol Hsol.
      destruct (simplexSolve_run foods constraints)
        as (k & t & _ & Hp & [(_ & _ & Hres)|(_ & snaps & _ & Hres)]); [congruence|].
      rewrite Hres in Hsol. injection Hsol as <-.
      unfold extractSolution. cbn [amounts ls_tableau].
      destruct (extractAmounts_lookup (matrix t) (length foods)
                  (length foods + numConstraints + 1)) as [_ Hlook].
      cbv zeta in Hlook. rewrite Hlook by done. f_equal.
      apply amountOf_not_basic. intros i Hi [Hone _].
      apply absQ_lt in Hone.
      destruct (zero_nutrient_column foods constraints j k fd t Hfd Hzero Hp)
        as [Hz _].
      rewrite (Hz i Hi) in Hone. unfold epsilon in Hone. lra.
    + intros Hres.
      destruct (simplexSolve_run foods constraints)
        as (k & t & _ & Hp & [(Hk & (c & Hc & Hr) & _)|(_ & snaps & _ & Hres')]);
        [|congruence].
      exists k, t, c. unfold maxIterations in Hk.
      split; [done|]. split; [done|]. split; [done|]. split; [|done].
      intros ->. by apply (Hnever k t).
  - intros k t Hk Hp Hc. split; [by apply (Hneg k t)|].
    assert (findPivotRow t j = None) as Hr.
    { pose proof (findPivotRow_spec t j) as Hspec.
      destruct (findPivotRow t j) as [r|]; [exfalso|done].
      destruct Hspec as (Hr & [Helem _] & _).
      destruct (zero_nutrient_column foods constraints j k fd t Hfd Hzero Hp)
        as [Hz _].
      destruct (pivots_rows_cols _ _ _ Hp) as [Hrt _].
      destruct (initialTableau_cells foods constraints) as (Hr0 & _).
      cbv zeta in Hr0. unfold numConstraints in *.
      rewrite (Hz r ltac:(lia)) in Helem. unfold epsilon in Helem. lra. }
    by apply (simplexSolve_unbounded_at foods constraints k j t).
Qed.

Lemma zero_cost_item_never_enters_witness :
  ((forall k t,
      pivots (initialTableau (referenceFoods ++ [zeroFood]) referenceConstraints) k t ->
      findPivotColumn t <> Some 5) /\
   (forall sol,
      simplexSolve (referenceFoods ++ [zeroFood]) referenceConstraints =
      Some (SolveOk sol) ->
      amounts sol !! 5 = Some 0%Q) /\
   (simplexSolve (referenceFoods ++ [zeroFood]) referenceConstraints =
    Some (SolveError "Problem is unbounded") ->
    exists k t c,
      k < 100 /\
      pivots (initialTableau (referenceFoods ++ [zeroFood]) referenceConstraints) k t /\
      findPivotColumn t = Some c /\ c <> 5 /\ findPivotRow t c = None)) /\
  (findPivotColumn (initialTableau [payingFood] referenceConstraints) = Some 0 /\
   (cost payingFood < 0)%Q /\
   simplexSolve [payingFood] referenceConstraints =
   Some (SolveError "Problem is unbounded")).
Proof.
  split.
  - apply (proj1 (zero_cost_item_never_enters (referenceFoods ++ [zeroFood])
                    referenceConstraints 5 zeroFood eq_refl
                    ltac:(intros key; destruct key; reflexivity))).
    reflexivity.
  - assert (findPivotColumn (initialTableau [payingFood] referenceConstraints) = Some 0)
      as Hc by (vm_compute; reflexivity).
    split; [exact Hc|].
    apply (proj2 (zero_cost_item_never_enters [payingFood] referenceConstraints
                    0 payingFood eq_refl
                    ltac:(intros key; destruct key; reflexivity))
             0 (initialTableau [payingFood] referenceConstraints)).
    + lia.
    + constructor.
    + exact Hc.
Defined.

(** C8 as stated fails: with the reference foods and an item of cost 0 and
    all-zero nutrient values added, the call returns a solution (every
    quantity 0), not the unbounded error; so it does for that item alone. *)
Lemma zero_cost_item_is_not_unbounded :
  cost zeroFood = 0%Q /\
  (forall key, foodGet zeroFood key = 0%Q) /\
  (exists sol,
     simplexSolve (referenceFoods ++ [zeroFood]) referenceConstraints =
     Some (SolveOk sol) /\
     amounts sol = [0; 0; 0; 0; 0; 0]%Q) /\
  (exists sol,
     simplexSolve [zeroFood] referenceConstraints = Some (SolveOk sol) /\
     amounts sol = [0%Q]).
Proof.
  split; [reflexivity|]. split; [by intros []|]. split.
  - eexists. split; [vm_compute; reflexivity|reflexivity].
  - eexists. split; [vm_compute; reflexivity|reflexivity].
Qed.

(** ** C9: the sensitivity sweep *)

Lemma sweepOf_points (fd : Food) (amount : Q) :
  sweepOf fd amount = map (sweepPoint fd amount) sweepPercents.
Proof. reflexivity. Qed.

Lemma isUsed_spec (amounts : list Q) (j : nat) :
  isUsed amounts j = true <-> exists a, amounts !! j = Some a /\ (epsilon < a)%Q.
Proof.
  unfold isUsed. destruct (amounts !! j) as [a|]; split.
  - intros H. exists a. split; [done|]. by apply Qltb_lt.
  - intros (a' & [= <-] & H). by apply Qltb_lt.
  - done.
  - by intros (a' & [=] & _).
Qed.

Lemma sensitivity_reduceFrom (amounts : list Q) (foods : list Food) (i : nat)
    (acc : list SensEntry) :
  reduceFrom
    (fun sensData fd idx =>
       if isUsed amounts idx then
         sensData ++ [mkSensEntry (name fd) (cost fd) (entry amounts idx)
                                  (sweepOf fd (entry amounts idx))]
       else sensData)
    i foods acc =
  acc ++ map (sensEntryOf amounts)
             (List.filter (fun p => isUsed amounts (fst p))
                          (imap (fun k fd => (i + k, fd)) foods)).
Proof.
  revert i acc. induction foods as [|fd foods IH]; intros i acc.
  - cbn. by rewrite app_nil_r.
  - cbn [reduceFrom imap List.filter fst]. rewrite IH, Nat.add_0_r.
    assert (imap ((fun k fd0 => (i + k, fd0)) ∘ S) foods =
            imap (fun k fd0 => (S i + k, fd0)) foods) as ->.
    { apply imap_ext. intros k x _. cbn. f_equal. lia. }
    destruct (isUsed amounts i); [|done].
    cbn [map]. rewrite <- app_assoc. cbn [app]. do 2 f_equal.
Qed.

(** C9: the sensitivity report has one entry per item [j] with
    [amounts[j] > epsilon], in the order of the items and for no other item;
    each entry sweeps [pct] over -50, -40, ..., 40, 50 with
    [newCost = unitCost * (1 + pct / 100)] and
    [costImpact = amount * (newCost - unitCost)]; and in every entry the
    impact at [pct = 0] is 0. *)
Theorem sensitivity_sweeps_used_items (amounts : list Q) (foods : list Food) :
  sensitivityData amounts foods = map (sensEntryOf amounts) (usedItems amounts foods) /\
  (forall j fd, (j, fd) ∈ usedItems amounts foods <->
     foods !! j = Some fd /\ exists a, amounts !! j = Some a /\ (epsilon < a)%Q) /\
  (forall e p, e ∈ sensitivityData amounts foods -> p ∈ analysis e ->
     priceChange p = 0%Z -> (impactOnTotal p == 0)%Q) /\
  (forall e, e ∈ sensitivityData amounts foods ->
     exists p, p ∈ analysis e /\ priceChange p = 0%Z).
Proof.
  assert (sensitivityData amounts foods =
          map (sensEntryOf amounts) (usedItems amounts foods)) as Heq.
  { unfold sensitivityData, reduce, usedItems.
    rewrite sensitivity_reduceFrom. cbn [app Nat.add]. done. }
  split; [exact Heq|]. split; [|split].
  - intros j fd. unfold usedItems. rewrite list_elem_of_In, filter_In.
    rewrite <- list_elem_of_In, list_elem_of_lookup. cbn [fst].
    rewrite isUsed_spec. split.
    + intros [[i Hi] Hused]. rewrite list_lookup_imap in Hi.
      destruct (foods !! i) as [fd'|] eqn:E; [|done].
      cbn in Hi. by injection Hi as <- <-.
    + intros [Hfd Hused]. split; [|done].
      exists j. rewrite list_lookup_imap, Hfd. done.
  - intros e p He Hp Hz. rewrite Heq in He.
    apply list_elem_of_fmap in He as (q & -> & _).
    unfold sensEntryOf in Hp. cbn [analysis] in Hp.
    apply list_elem_of_fmap in Hp as (pct & -> & _).
    cbn [priceChange sweepPoint] in Hz. subst pct.
    unfold sweepPoint. cbn [impactOnTotal]. unfold Qdiv.
    change (inject_Z 0) with 0%Q. ring.
  - intros e He. rewrite Heq in He.
    apply list_elem_of_fmap in He as (q & -> & _).
    exists (sweepPoint (snd q) (entry amounts (fst q)) 0). split; [|done].
    unfold sensEntryOf. cbn [analysis]. apply list_elem_of_fmap.
    exists 0%Z. split; [done|]. unfold sweepPercents.
    do 5 apply list_elem_of_further. apply list_elem_of_here.
Qed.

Lemma sensitivity_sweeps_used_items_witness :
  (2, mkFood "Brown Rice" (3 # 10) (13 # 5) 23 (9 # 10) (9 # 5) 5)
    ∈ usedItems [2; 0; 3]%Q referenceFoods /\
  (impactOnTotal (sweepPoint (mkFood "Oatmeal" (1 # 2) 5 27 3 4 15) 2 0) == 0)%Q.
Proof.
  split.
  - apply (proj1 (proj2 (sensitivity_sweeps_used_items [2; 0; 3]%Q referenceFoods))).
    split; [reflexivity|]. exists 3%Q. split; reflexivity.
  - apply (proj1 (proj2 (proj2 (sensitivity_sweeps_used_items [2; 0; 3]%Q referenceFoods)))
             (sensEntryOf [2; 0; 3]%Q (0, mkFood "Oatmeal" (1 # 2) 5 27 3 4 15))).
    + apply list_elem_of_here.
    + cbn [sensEntryOf analysis snd fst map sweepPercents].
      do 5 apply list_elem_of_further. apply list_elem_of_here.
    + reflexivity.
Defined.

(** ** C10: the [feasible] flag *)

(** At the cap the loop is left whatever the tableau holds. *)
Lemma simplexLoop_at_cap (fuel : nat) (st : LoopState) :
  ls_iteration st = maxIterations ->
  simplexLoop (S fuel) st = LoopDone st.
Proof.
  intros Hcap. cbn [simplexLoop].
  destruct (decide (ls_iteration st < maxIterations)); [lia|done].
Qed.

(** C10: whenever [simplexSolve] returns a solution its [feasible] field is
    [true]; a call returns either the unbounded error or such a solution,
    also when the loop was left at the cap, so no third outcome exists; and
    the flag is [true] at the reference diet, where the protein delivered is
    below the requirement. *)
Theorem feasible_flag_is_always_true :
  (forall (foods : list Food) (constraints : Constraints) (sol : Solution),
     simplexSolve foods constraints = Some (SolveOk sol) -> feasible sol = true) /\
  (forall (foods : list Food) (constraints : Constraints),
     exists k t,
       k <= 100 /\ pivots (initialTableau foods constraints) k t /\
       (simplexSolve foods constraints = Some (SolveError "Problem is unbounded") \/
        ((findPivotColumn t = None \/ k = 100) /\
         exists sol,
           simplexSolve foods constraints = Some (SolveOk sol) /\
           feasible sol = true))) /\
  (exists sol,
     simplexSolve referenceFoods referenceConstraints = Some (SolveOk sol) /\
     feasible sol = true /\
     (delivered referenceFoods (amounts sol) protein
      < constraintGet referenceConstraints protein - epsilon)%Q).
Proof.
  split; [|split].
  - intros foods constraints sol Hsol.
    destruct (simplexSolve_run foods constraints)
      as (k & t & _ & _ & [(_ & _ & Hres)|(_ & snaps & _ & Hres)]); [congruence|].
    rewrite Hres in Hsol. by injection Hsol as <-.
  - intros foods constraints.
    destruct (simplexSolve_run foods constraints)
      as (k & t & Hk & Hp & [(_ & _ & Hres)|(Hend & snaps & _ & Hres)]);
      exists k, t; (split; [done|]); (split; [done|]); [by left|right].
    split; [done|]. eexists. split; [exact Hres|done].
  - eexists. split; [vm_compute; reflexivity|]. split; reflexivity.
Qed.

Lemma feasible_flag_is_always_true_witness :
  feasible (extractSolution referenceFoods
              (mkLoop (initialTableau referenceFoods referenceConstraints) 0
                      [matrix (initialTableau referenceFoods referenceConstraints)]))
  = true.
Proof.
  apply (proj1 feasible_flag_is_always_true referenceFoods referenceConstraints).
  vm_compute. reflexivity.
Defined.

(** * Further properties *)

(** ** The entering column, in double precision *)

(** A double that is below another is not [NaN]. *)
Lemma ltb_below_left (x y z w : float) :
  (x <? y)%float = true -> (z <? y)%float = false -> (z <? w)%float = true ->
  (x <? z)%float = true.
Proof.
  rewrite !ltb_spec. intros H1 H2 H3. apply (SFltb_below _ _ _ H1 H2).
  intros Hz. rewrite Hz in H3. done.
Qed.

Lemma double_findPivotColumn_inv (t : Double.Tableau) (n : nat) :
  match forRange 0 n
          (fun j '(minVal, pivotCol) =>
             if (Double.objEntry t j <? minVal)%float
             then (Double.objEntry t j, Some j)
             else (minVal, pivotCol))
          (0%float, None) with
  | (minVal, None) =>
      minVal = 0%float /\
      forall j, j < n -> (Double.objEntry t j <? 0)%float = false
  | (minVal, Some c) =>
      c < n /\ minVal = Double.objEntry t c /\
      (Double.objEntry t c <? 0)%float = true /\
      (forall j, j < n -> (Double.objEntry t j <? Double.objEntry t c)%float = false) /\
      (forall j, j < c -> (Double.objEntry t j <? 0)%float = true ->
         (Double.objEntry t c <? Double.objEntry t j)%float = true)
  end.
Proof.
  pose (P := fun (n' : nat) (st : float * option nat) =>
    match st with
    | (minVal, None) =>
        minVal = 0%float /\
        forall j, j < n' -> (Double.objEntry t j <? 0)%float = false
    | (minVal, Some c) =>
        c < n' /\ minVal = Double.objEntry t c /\
        (Double.objEntry t c <? 0)%float = true /\
        (forall j, j < n' ->
           (Double.objEntry t j <? Double.objEntry t c)%float = false) /\
        (forall j, j < c -> (Double.objEntry t j <? 0)%float = true ->
           (Double.objEntry t c <? Double.objEntry t j)%float = true)
    end).
  apply (forRange_inv P); unfold P.
  - split; [done|]. intros j Hj. lia.
  - intros j [minVal pivotCol] Hj IH.
    destruct pivotCol as [c|].
    + destruct IH as (Hc & -> & Hneg & Hmin & Hlow).
      destruct (Double.objEntry t j <? Double.objEntry t c)%float eqn:Hlt.
      * split; [lia|]. split; [done|]. split; [by apply (ltb_trans _ _ _ Hlt)|].
        split.
        -- intros j' Hj'. destruct (decide (j' = j)) as [->|Hne];
             [apply ltb_irrefl|].
           specialize (Hmin j' ltac:(lia)).
           destruct (Double.objEntry t j' <? Double.objEntry t j)%float eqn:E;
             [|done].
           by rewrite (ltb_trans _ _ _ E Hlt) in Hmin.
        -- intros j' Hj' Hneg'. specialize (Hmin j' ltac:(lia)).
           by apply (ltb_below_left _ _ _ 0%float Hlt Hmin).
      * split; [lia|]. split; [done|]. split; [done|]. split; [|done].
        intros j' Hj'. destruct (decide (j' = j)) as [->|Hne]; [done|].
        apply Hmin. lia.
    + destruct IH as [-> IH].
      destruct (Double.objEntry t j <? 0)%float eqn:Hlt.
      * split; [lia|]. split; [done|]. split; [done|]. split.
        -- intros j' Hj'. destruct (decide (j' = j)) as [->|Hne];
             [apply ltb_irrefl|].
           specialize (IH j' ltac:(lia)).
           destruct (Double.objEntry t j' <? Double.objEntry t j)%float eqn:E;
             [|done].
           by rewrite (ltb_trans _ _ _ E Hlt) in IH.
        -- intros j' Hj' Hneg'. rewrite IH in Hneg' by lia. done.
      * split; [done|]. intros j' Hj'.
        destruct (decide (j' = j)) as [->|Hne]; [done|]. apply IH. lia.
Qed.

Lemma double_findPivotColumn_spec (t : Double.Tableau) :
  match Double.findPivotColumn t with
  | Some c => Double.enteringColumn t c
  | None => forall j, j < Double.cols t - 1 -> (Double.objEntry t j <? 0)%float = false
  end.
Proof.
  unfold Double.findPivotColumn, Double.enteringColumn. cbv zeta.
  pose proof (double_findPivotColumn_inv t (Double.cols t - 1)) as H.
  unfold Double.objEntry in H at 1 2.
  destruct (forRange 0 (Double.cols t - 1) _ (0%float, None)) as [minVal [c|]];
    cbn [snd].
  - destruct H as (Hc & _ & Hneg & Hmin & Hlow). done.
  - apply H.
Qed.

Lemma double_enteringColumn_unique (t : Double.Tableau) (c c' : nat) :
  Double.enteringColumn t c -> Double.enteringColumn t c' -> c = c'.
Proof.
  intros (Hc & Hneg & Hmin & Hlow) (Hc' & Hneg' & Hmin' & Hlow').
  destruct (lt_eq_lt_dec c c') as [[Hlt|Heq]|Hgt]; [exfalso|done|exfalso].
  - specialize (Hlow' c Hlt Hneg). specialize (Hmin c' Hc'). congruence.
  - specialize (Hlow c' Hgt Hneg'). specialize (Hmin' c Hc). congruence.
Qed.

(** X1: in double precision [findPivotColumn] returns column [c] exactly
    when [c] is the lowest column, the right-hand side excluded, whose
    objective entry is below 0 and has no entry below it; it returns none
    exactly when no objective entry left of the right-hand side is below 0.
    A column whose objective entry is [NaN] is never returned. *)
Theorem findPivotColumn_lowest_most_negative (t : Double.Tableau) :
  (forall c, Double.findPivotColumn t = Some c <-> Double.enteringColumn t c) /\
  (Double.findPivotColumn t = None <->
   forall j, j < Double.cols t - 1 -> (Double.objEntry t j <? 0)%float = false) /\
  (forall c, Double.findPivotColumn t = Some c ->
     is_nan (Double.objEntry t c) = false).
Proof.
  pose proof (double_findPivotColumn_spec t) as Hspec. split; [|split].
  - intros c. split.
    + intros Hc. by rewrite Hc in Hspec.
    + intros Hec. destruct (Double.findPivotColumn t) as [c'|].
      * f_equal. by apply (double_enteringColumn_unique t).
      * exfalso. destruct Hec as (Hc & Hneg & _).
        rewrite (Hspec c Hc) in Hneg. done.
  - split.
    + intros Hc. by rewrite Hc in Hspec.
    + intros Hall. destruct (Double.findPivotColumn t) as [c|]; [exfalso|done].
      destruct Hspec as (Hc & Hneg & _). rewrite (Hall c Hc) in Hneg. done.
  - intros c Hc. rewrite Hc in Hspec. destruct Hspec as (_ & Hneg & _).
    unfold is_nan. rewrite FloatAxioms.eqb_spec. rewrite ltb_spec in Hneg.
    destruct (Prim2SF (Double.objEntry t c)) as [[]|[]| |[] m e];
      try done; cbn; unfold SFeqb, SFcompare;
      by rewrite Z.compare_refl, Pos.compare_cont_refl.
Qed.

Lemma findPivotColumn_lowest_most_negative_witness :
  Double.findPivotColumn Double.tieTableau = Some 0 /\
  Double.enteringColumn Double.tieTableau 0.
Proof.
  assert (Double.findPivotColumn Double.tieTableau = Some 0) as Hc
    by (vm_compute; reflexivity).
  split; [exact Hc|].
  apply (proj1 (findPivotColumn_lowest_most_negative Double.tieTableau) 0). exact Hc.
Defined.

(** ** The initial tableau *)

Lemma forRange_fill_basis (foods : list Food) (constraints : Constraints)
    (k : nat) (tb : Tableau) :
  k <= length (basis tb) ->
  let tb' := forRange 0 k (fillConstraintRow foods constraints) tb in
  length (basis tb') = length (basis tb) /\
  forall i, i < length (basis tb) ->
    basis tb' !! i = if decide (i < k) then Some (length foods + i) else basis tb !! i.
Proof.
  intros Hk. cbv zeta.
  pose (P := fun (k' : nat) (tb' : Tableau) =>
    length (basis tb') = length (basis tb) /\
    forall i, i < length (basis tb) ->
      basis tb' !! i =
      if decide (i < k') then Some (length foods + i) else basis tb !! i).
  apply (forRange_inv P); unfold P.
  - split; [done|]. intros i Hi. destruct (decide (i < 0)); [lia|done].
  - intros i tb' Hi [Hlen Hlook]. unfold fillConstraintRow. cbn [basis].
    split; [by rewrite length_insert|].
    intros i' Hi'. destruct (decide (i' = i)) as [->|Hne].
    + rewrite list_lookup_insert_eq by lia.
      destruct (decide (i < S i)); [done|lia].
    + rewrite list_lookup_insert_ne by done. rewrite Hlook by done.
      destruct (decide (i' < i)); destruct (decide (i' < S i)); done || lia.
Qed.

Lemma initialTableau_basis (foods : list Food) (constraints : Constraints) :
  basis (initialTableau foods constraints) =
  [length foods; length foods + 1; length foods + 2; length foods + 3;
   length foods + 4; 0].
Proof.
  unfold initialTableau. cbv zeta.
  set (t0 := newTableau _ _).
  destruct (forRange_matrix (length foods)
              (fun j m => setCell m (numConstraints + 1 - 1) j (cost (foodAt foods j)))
              (forRange 0 numConstraints (fillConstraintRow foods constraints) t0))
    as (_ & _ & Hb & _).
  cbv zeta in Hb. rewrite Hb. clear Hb.
  destruct (forRange_fill_basis foods constraints numConstraints t0) as [Hlen Hlook].
  { subst t0. unfold newTableau. cbn [basis]. rewrite length_replicate.
    unfold numConstraints. lia. }
  cbv zeta in Hlen, Hlook.
  set (b := basis (forRange 0 numConstraints _ t0)) in *.
  assert (length (basis t0) = 6) as Hl0
    by (subst t0; unfold newTableau; cbn [basis]; by rewrite length_replicate).
  rewrite Hl0 in Hlen, Hlook.
  apply list_eq. intros i. destruct (decide (i < 6)) as [Hi|Hi].
  - rewrite Hlook by done. unfold numConstraints.
    destruct i as [|[|[|[|[|[|i]]]]]]; try lia;
      repeat (destruct (decide _) as [?|?]); try lia;
      cbn [lookup list_lookup]; try (f_equal; lia).
  - rewrite !lookup_ge_None_2; [done|cbn; lia|lia].
Qed.

(** The initial tableau, region by region. *)
Lemma initial_layout (foods : list Food) (constraints : Constraints) :
  let t := initialTableau foods constraints in
  let n := length foods in
  rows t = 6 /\ cols t = n + 6 /\ wf t /\
  (forall i j, i < 5 -> j < n ->
     cell (matrix t) i j = (- foodGet (foodAt foods j) (keyAt i))%Q) /\
  (forall i j, i < 5 -> j < 5 ->
     cell (matrix t) i (n + j) = if decide (j = i) then (- 1)%Q else 0%Q) /\
  (forall i, i < 5 ->
     cell (matrix t) i (n + 5) = (- constraintGet constraints (keyAt i))%Q) /\
  (forall j, j < n -> cell (matrix t) 5 j = cost (foodAt foods j)) /\
  (forall j, j < 6 -> cell (matrix t) 5 (n + j) = 0%Q) /\
  basis t = [n; n + 1; n + 2; n + 3; n + 4; 0].
Proof.
  cbv zeta.
  destruct (initialTableau_cells foods constraints) as (Hr & Hc & Hwf & Hcells).
  cbv zeta in Hr, Hc, Hcells. unfold numConstraints in *.
  split; [by rewrite Hr|]. split; [rewrite Hc; lia|]. split; [done|].
  repeat split.
  - intros i j Hi Hj. rewrite Hcells by lia. unfold initCell, numConstraints.
    repeat (destruct (decide _) as [?|?]); try lia; try done.
  - intros i j Hi Hj. rewrite Hcells by lia. unfold initCell, numConstraints.
    repeat (destruct (decide _) as [?|?]); try lia; try done.
  - intros i Hi. rewrite Hcells by lia. unfold initCell, numConstraints.
    repeat (destruct (decide _) as [?|?]); try lia; try done.
  - intros j Hj. rewrite Hcells by lia. unfold initCell, numConstraints.
    repeat (destruct (decide _) as [?|?]); try lia; try done.
  - intros j Hj. rewrite Hcells by lia. unfold initCell, numConstraints.
    repeat (destruct (decide _) as [?|?]); try lia; try done.
  - apply initialTableau_basis.
Qed.

(** X2: the tableau built for [n] foods has 6 rows and [n + 6] columns and
    is well formed; constraint row [i] holds the negated nutrient values, -1
    in slack column [n + i], the negated requirement in the last column and 0
    elsewhere; the objective row holds the unit costs and 0 elsewhere; and
    [basis] names the slack column of each constraint row. *)
Theorem initial_tableau_layout (foods : list Food) (constraints : Constraints) :
  let t := initialTableau foods constraints in
  let n := length foods in
  rows t = 6 /\ cols t = n + 6 /\ wf t /\
  (forall i j, i < 5 -> j < n ->
     cell (matrix t) i j = (- foodGet (foodAt foods j) (keyAt i))%Q) /\
  (forall i j, i < 5 -> j < 5 ->
     cell (matrix t) i (n + j) = if decide (j = i) then (- 1)%Q else 0%Q) /\
  (forall i, i < 5 ->
     cell (matrix t) i (n + 5) = (- constraintGet constraints (keyAt i))%Q) /\
  (forall j, j < n -> cell (matrix t) 5 j = cost (foodAt foods j)) /\
  (forall j, j < 6 -> cell (matrix t) 5 (n + j) = 0%Q) /\
  basis t = [n; n + 1; n + 2; n + 3; n + 4; 0].
Proof.
  cbv zeta.
  destruct (initialTableau_cells foods constraints) as (Hr & Hc & Hwf & Hcells).
  cbv zeta in Hr, Hc, Hcells. unfold numConstraints in *.
  split; [by rewrite Hr|]. split; [rewrite Hc; lia|]. split; [done|].
  repeat split.
  - intros i j Hi Hj. rewrite Hcells by lia. unfold initCell, numConstraints.
    repeat (destruct (decide _) as [?|?]); try lia; try done.
  - intros i j Hi Hj. rewrite Hcells by lia. unfold initCell, numConstraints.
    repeat (destruct (decide _) as [?|?]); try lia; try done.
  - intros i Hi. rewrite Hcells by lia. unfold initCell, numConstraints.
    repeat (destruct (decide _) as [?|?]); try lia; try done.
  - intros j Hj. rewrite Hcells by lia. unfold initCell, numConstraints.
    repeat (destruct (decide _) as [?|?]); try lia; try done.
  - intros j Hj. rewrite Hcells by lia. unfold initCell, numConstraints.
    repeat (destruct (decide _) as [?|?]); try lia; try done.
  - apply initialTableau_basis.
Qed.

Lemma initial_tableau_layout_witness :
  cell (matrix (initialTableau referenceFoods referenceConstraints)) 1 2 = (- 23)%Q /\
  cell (matrix (initialTableau referenceFoods referenceConstraints)) 5 3 = (3 # 2)%Q.
Proof.
  destruct (initial_tableau_layout referenceFoods referenceConstraints)
    as (_ & _ & _ & Hfood & _ & _ & Hcost & _).
  split.
  - apply (Hfood 1 2); cbn; lia.
  - apply (Hcost 3). cbn. lia.
Defined.

(** ** Requirements that are not negative *)

(** The leaving row has a positive right-hand side and a negative entry. *)
Lemma leavingRow_rhs_pos (t : Tableau) (c r : nat) :
  leavingRow t c r -> (0 < rhsOf t r)%Q /\ (cell (matrix t) r c < 0)%Q.
Proof.
  intros (_ & [Helem Hratio] & _). unfold ratioOf in Hratio. fold (rhsOf t r) in Hratio.
  assert (cell (matrix t) r c < 0)%Q as Hneg by (unfold epsilon in Helem; lra).
  split; [|done].
  destruct (Qlt_le_dec 0 (rhsOf t r)) as [|Hle]; [done|exfalso].
  assert (0 <= - rhsOf t r)%Q as Hnn by lra.
  assert (0 < / - cell (matrix t) r c)%Q as Hinv by (apply Qinv_lt_0_compat; lra).
  assert (/ - cell (matrix t) r c == - / cell (matrix t) r c)%Q as Heq.
  { field. intros H0. rewrite H0 in Hneg. lra. }
  rewrite Heq in Hinv.
  assert (0 <= - rhsOf t r * - / cell (matrix t) r c)%Q
    by (apply Qmult_le_0_compat; lra).
  unfold Qdiv in Hratio. lra.
Qed.


Lemma initial_rhs_nonpos (foods : list Food) (constraints : Constraints) (i : nat) :
  requirementsNonneg constraints -> i < 6 ->
  (rhsOf (initialTableau foods constraints) i <= 0)%Q.
Proof.
  intros Hreq Hi.
  destruct (initial_layout foods constraints)
    as (_ & Hc & _ & _ & _ & Hrhs & _ & Hobj & _).
  cbv zeta in *. unfold rhsOf. rewrite Hc.
  replace (length foods + 6 - 1) with (length foods + 5) by lia.
  destruct (decide (i = 5)) as [->|Hne].
  - rewrite Hobj by lia. lra.
  - rewrite Hrhs by lia. specialize (Hreq (keyAt i)). lra.
Qed.

Lemma initial_no_leaving_row (foods : list Food) (constraints : Constraints)
    (c : nat) :
  requirementsNonneg constraints ->
  findPivotRow (initialTableau foods constraints) c = None.
Proof.
  intros Hreq.
  pose proof (findPivotRow_spec (initialTableau foods constraints) c) as Hspec.
  destruct (findPivotRow _ c) as [r|]; [exfalso|done].
  destruct (leavingRow_rhs_pos _ _ _ Hspec) as [Hpos _].
  destruct Hspec as (Hr & _).
  destruct (initial_layout foods constraints) as (Hr0 & _).
  cbv zeta in Hr0. rewrite Hr0 in Hr.
  pose proof (initial_rhs_nonpos foods constraints r Hreq ltac:(lia)). lra.
Qed.

Lemma simplexLoop_no_entering (fuel : nat) (st : LoopState) :
  ls_iteration st < maxIterations ->
  findPivotColumn (ls_tableau st) = None ->
  simplexLoop (S fuel) st =
  LoopDone (mkLoop (ls_tableau st) (ls_iteration st)
                   (ls_iterations st ++ [matrix (ls_tableau st)])).
Proof.
  intros Hlt Hopt. cbn [simplexLoop].
  destruct (decide (ls_iteration st < maxIterations)); [|done].
  by rewrite Hopt.
Qed.

Lemma simplexSolve_no_entering (foods : list Food) (constraints : Constraints) :
  findPivotColumn (initialTableau foods constraints) = None ->
  simplexSolve foods constraints =
  Some (SolveOk (extractSolution foods
                   (mkLoop (initialTableau foods constraints) 0
                           [matrix (initialTableau foods constraints)]))).
Proof.
  intros Hopt. unfold simplexSolve, simplexSolveFuel.
  rewrite simplexLoop_no_entering; [done| |done].
  cbn [ls_iteration]. unfold maxIterations. lia.
Qed.

Lemma initial_amountOf_zero (foods : list Food) (constraints : Constraints) (j : nat) :
  requirementsNonneg constraints ->
  amountOf (matrix (initialTableau foods constraints))
           (length foods + numConstraints + 1) j = 0%Q.
Proof.
  intros Hreq. unfold amountOf.
  pose proof (basicRowOf_spec (matrix (initialTableau foods constraints)) j) as Hspec.
  destruct (basicRowOf _ j) as [[|] [r|]]; try done.
  destruct Hspec as [Hr _]. unfold numConstraints in Hr.
  pose proof (initial_rhs_nonpos foods constraints r Hreq ltac:(lia)) as Hle.
  unfold rhsOf in Hle.
  destruct (initial_layout foods constraints) as (_ & Hc & _).
  cbv zeta in Hc. rewrite Hc in Hle.
  replace (length foods + numConstraints + 1 - 1) with (length foods + 6 - 1)
    by (unfold numConstraints; lia).
  unfold max0. by destruct (Qltb_reflect 0
    (cell (matrix (initialTableau foods constraints)) r (length foods + 6 - 1)));
    [lra|].
Qed.

Lemma sumUpTo_zero (n : nat) (f : nat -> Q) :
  (forall i, i < n -> (f i == 0)%Q) -> (sumUpTo n f == 0)%Q.
Proof.
  induction n as [|n IH]; intros Hf; cbn [sumUpTo]; [reflexivity|].
  rewrite IH by (intros; apply Hf; lia). rewrite (Hf n) by lia. ring.
Qed.

Lemma negative_cost_enters (foods : list Food) (constraints : Constraints)
    (j : nat) (fd : Food) :
  foods !! j = Some fd -> (cost fd < 0)%Q ->
  exists c, findPivotColumn (initialTableau foods constraints) = Some c.
Proof.
  intros Hfd Hneg.
  pose proof (findPivotColumn_spec (initialTableau foods constraints)) as Hspec.
  destruct (findPivotColumn _) as [c|]; [by exists c|exfalso].
  assert (j < length foods) as Hj by (by apply lookup_lt_Some in Hfd).
  destruct (initial_layout foods constraints)
    as (Hr & Hc & _ & _ & _ & _ & Hcost & _).
  cbv zeta in *. specialize (Hspec j ltac:(lia)).
  unfold objEntry in Hspec. rewrite Hr in Hspec.
  change (entry (getRow (matrix (initialTableau foods constraints)) (6 - 1)) j)
    with (cell (matrix (initialTableau foods constraints)) 5 j) in Hspec.
  rewrite Hcost in Hspec by done. unfold foodAt in Hspec. rewrite Hfd in Hspec.
  cbn in Hspec. lra.
Qed.

(** X3: when no requirement is negative the engine never pivots.  If some
    unit cost is negative the call returns the unbounded error; otherwise it
    returns a solution with every quantity 0, total cost 0, every shadow
    price 0 and the initial tableau as its only snapshot.  The nutrient
    values play no part. *)
Theorem nonnegative_requirements_never_pivot (foods : list Food)
    (constraints : Constraints) :
  requirementsNonneg constraints ->
  ((exists fd, fd ∈ foods /\ (cost fd < 0)%Q) ->
   simplexSolve foods constraints = Some (SolveError "Problem is unbounded")) /\
  (Forall (fun fd => (0 <= cost fd)%Q) foods ->
   exists sol,
     simplexSolve foods constraints = Some (SolveOk sol) /\
     amounts sol = replicate (length foods) 0%Q /\
     (totalCost sol == 0)%Q /\
     (forall kv, kv ∈ shadowPrices sol -> snd kv = 0%Q) /\
     iterations sol = [matrix (initialTableau foods constraints)]).
Proof.
  intros Hreq. split.
  - intros (fd & Hin & Hneg). apply list_elem_of_lookup in Hin as [j Hj].
    destruct (negative_cost_enters foods constraints j fd Hj Hneg) as [c Hc].
    apply (simplexSolve_unbounded_at foods constraints 0 c
             (initialTableau foods constraints));
      [unfold maxIterations; lia|constructor|done|].
    by apply initial_no_leaving_row.
  - intros Hcost.
    assert (findPivotColumn (initialTableau foods constraints) = None) as Hopt.
    { pose proof (findPivotColumn_spec (initialTableau foods constraints)) as Hspec.
      destruct (findPivotColumn _) as [c|]; [exfalso|done].
      destruct Hspec as (Hc & Hneg & _).
      destruct (initial_layout foods constraints)
        as (Hr & Hcols & _ & _ & _ & _ & Hcst & Hobj & _).
      cbv zeta in *. unfold objEntry in Hneg. rewrite Hr in Hneg.
      change (entry (getRow (matrix (initialTableau foods constraints)) (6 - 1)) c)
        with (cell (matrix (initialTableau foods constraints)) 5 c) in Hneg.
      destruct (decide (c < length foods)) as [Hlt|Hge].
      - rewrite Hcst in Hneg by done.
        pose proof (foodAt_cost_nonneg foods c Hcost). lra.
      - replace c with (length foods + (c - length foods)) in Hneg by lia.
        rewrite Hobj in Hneg by lia. lra. }
    eexists. split; [by apply simplexSolve_no_entering|].
    unfold extractSolution. cbn [amounts totalCost shadowPrices iterations ls_tableau
                                 ls_iterations].
    destruct (extractAmounts_lookup (matrix (initialTableau foods constraints))
                (length foods) (length foods + numConstraints + 1)) as [Hlen Hlook].
    cbv zeta in Hlen, Hlook.
    set (am := extractAmounts _ _ _ _) in *.
    assert (am = replicate (length foods) 0%Q) as Ham.
    { apply list_eq. intros j. destruct (decide (j < length foods)) as [Hj|Hj].
      - rewrite Hlook by done. rewrite lookup_replicate_2 by done.
        by rewrite initial_amountOf_zero.
      - rewrite !lookup_ge_None_2; [done|rewrite length_replicate; lia|lia]. }
    split; [done|]. split; [|split; [|done]].
    + rewrite totalCostOf_sum, Hlen. apply sumUpTo_zero. intros j Hj.
      rewrite Ham. unfold entry. rewrite lookup_replicate_2 by done. cbn. ring.
    + intros kv Hin. unfold shadowPricesOf in Hin.
      apply list_elem_of_lookup in Hin as [i Hi].
      rewrite list_lookup_imap in Hi.
      destruct (constraintKeys !! i) as [key|] eqn:Hkey; [|done].
      cbn in Hi. injection Hi as <-. cbn [snd].
      assert (i < 5) as Hi5 by (apply lookup_lt_Some in Hkey; cbn in Hkey; lia).
      destruct (initial_layout foods constraints)
        as (_ & _ & _ & _ & _ & _ & _ & Hobj & _).
      cbv zeta in Hobj. unfold numConstraints.
      change (5 + 1 - 1) with 5. rewrite Hobj by lia. reflexivity.
Qed.

Lemma nonnegative_requirements_never_pivot_witness :
  simplexSolve [payingFood] referenceConstraints =
  Some (SolveError "Problem is unbounded") /\
  exists sol,
    simplexSolve referenceFoods referenceConstraints = Some (SolveOk sol) /\
    amounts sol = replicate (length referenceFoods) 0%Q /\
    (totalCost sol == 0)%Q /\
    (forall kv, kv ∈ shadowPrices sol -> snd kv = 0%Q) /\
    iterations sol = [matrix (initialTableau referenceFoods referenceConstraints)].
Proof.
  assert (requirementsNonneg referenceConstraints) as Hreq
    by (intros key; destruct key; cbn; discriminate).
  split.
  - apply (proj1 (nonnegative_requirements_never_pivot [payingFood]
                    referenceConstraints Hreq)).
    exists payingFood. split; [apply list_elem_of_here|reflexivity].
  - apply (proj2 (nonnegative_requirements_never_pivot referenceFoods
                    referenceConstraints Hreq)).
    repeat constructor; cbn; discriminate.
Defined.

(** ** The snapshots *)

(** The snapshots the loop appends are the tableaux of its run, in order. *)
Lemma simplexLoop_snapshots (fuel : nat) (st : LoopState) :
  match simplexLoop fuel st with
  | LoopDone st' =>
      exists l,
        ls_iterations st' = ls_iterations st ++ l /\
        (ls_iteration st < maxIterations -> l ≠ []) /\
        forall j m, l !! j = Some m ->
          exists t, pivots (ls_tableau st) j t /\ m = matrix t
  | _ => True
  end.
Proof.
  revert st. induction fuel as [|fuel IH]; intros st; [done|].
  cbn [simplexLoop].
  destruct (decide (ls_iteration st < maxIterations)) as [Hlt|Hge].
  - destruct (findPivotColumn (ls_tableau st)) as [c|] eqn:Hc.
    + destruct (findPivotRow (ls_tableau st) c) as [r|] eqn:Hr; [|done].
      specialize (IH (mkLoop (pivot (ls_tableau st) r c) (S (ls_iteration st))
                             (ls_iterations st ++ [matrix (ls_tableau st)]))).
      destruct (simplexLoop fuel _) as [st'| |]; [|done|done].
      destruct IH as (l & Heq & _ & Hl).
      cbn [ls_iterations ls_tableau] in Heq, Hl.
      exists (matrix (ls_tableau st) :: l). split; [|split; [done|]].
      * by rewrite Heq, <- app_assoc.
      * intros [|j] m Hm.
        -- cbn in Hm. injection Hm as <-. exists (ls_tableau st).
           split; [constructor|done].
        -- cbn in Hm. destruct (Hl j m Hm) as (t & Hp & ->).
           exists t. split; [|done].
           apply (PivotsNext _ (pivot (ls_tableau st) r c)); [|done].
           by apply EngineStep.
    + exists [matrix (ls_tableau st)]. cbn [ls_iterations].
      split; [done|]. split; [done|].
      intros [|j] m Hm; [|done]. cbn in Hm. injection Hm as <-.
      exists (ls_tableau st). split; [constructor|done].
  - exists []. split; [by rewrite app_nil_r|]. split; [lia|]. by intros j m Hm.
Qed.

(** X4: the [iterations] of a returned solution hold between 1 and 100
    snapshots, and snapshot [j] is the matrix of the tableau reached after
    [j] pivots; in particular the first is the initial tableau. *)
Theorem snapshots_are_the_run (foods : list Food) (constraints : Constraints)
    (sol : Solution) :
  simplexSolve foods constraints = Some (SolveOk sol) ->
  1 <= length (iterations sol) <= 100 /\
  (forall j m, iterations sol !! j = Some m ->
     exists t, pivots (initialTableau foods constraints) j t /\ m = matrix t) /\
  iterations sol !! 0 = Some (matrix (initialTableau foods constraints)).
Proof.
  intros Hsol.
  assert (1 <= length (iterations sol) /\
          forall j m, iterations sol !! j = Some m ->
            exists t, pivots (initialTableau foods constraints) j t /\ m = matrix t)
    as [Hlen Hrun].
  { unfold simplexSolve, simplexSolveFuel in Hsol.
    pose proof (simplexLoop_snapshots (S maxIterations)
                  (mkLoop (initialTableau foods constraints) 0 [])) as Hsn.
    destruct (simplexLoop _ _) as [st'| |]; [|done|done].
    injection Hsol as <-. destruct Hsn as (l & Heq & Hne & Hl).
    cbn [ls_iterations ls_iteration ls_tableau app] in Heq, Hne, Hl.
    unfold extractSolution. cbn [iterations]. rewrite Heq. split; [|done].
    destruct l; [|cbn; lia]. exfalso. apply Hne; [unfold maxIterations; lia|done]. }
  split; [split; [done|]|split; [done|]].
  - destruct (simplexSolve_run foods constraints)
      as (k & t & _ & _ & [(_ & _ & Hres)|(_ & snaps & Hsn & Hres)]); [congruence|].
    rewrite Hres in Hsol. injection Hsol as <-.
    unfold extractSolution. cbn [iterations ls_iterations].
    unfold maxIterations in Hsn. done.
  - destruct (iterations sol) as [|m l] eqn:E; [cbn in Hlen; lia|].
    destruct (Hrun 0 m) as (t & Hp & ->); [by rewrite ?E|].
    cbn. f_equal. inversion Hp. done.
Qed.

Lemma snapshots_are_the_run_witness :
  exists sol,
    simplexSolve negativeFoods negativeConstraints = Some (SolveOk sol) /\
    1 <= length (iterations sol) <= 100 /\
    iterations sol !! 0 = Some (matrix (initialTableau negativeFoods negativeConstraints)).
Proof.
  eexists. split; [vm_compute; reflexivity|].
  match goal with
  | |- context [iterations ?s] =>
      destruct (snapshots_are_the_run negativeFoods negativeConstraints s)
        as (Hlen & _ & Hfirst)
  end.
  - vm_compute. reflexivity.
  - split; [exact Hlen|exact Hfirst].
Defined.


(** ** The handler of [/api/optimize] *)

Lemma foodsOf_Some (items : list FoodItem) (foods : list Food) :
  foodsOf items = Some foods <-> items = ItemFood <$> foods.
Proof.
  split.
  - unfold foodsOf. revert foods.
    induction items as [|item items IH]; intros foods H.
    + cbn in H. by injection H as <-.
    + cbn in H. destruct item as [|fd]; [done|]. cbn in H.
      destruct (mapM _ items) as [fs|] eqn:E; [|done].
      cbn in H. injection H as <-. cbn. f_equal. by apply IH.
  - intros ->. apply foodsOf_objects.
Qed.

Lemma foodsOf_None (items : list FoodItem) :
  foodsOf items = None <-> ItemNull ∈ items.
Proof.
  split; [|apply foodsOf_null].
  unfold foodsOf. induction items as [|item items IH]; intros H; [done|].
  cbn in H. destruct item as [|fd]; [apply list_elem_of_here|]. cbn in H.
  destruct (mapM _ items) as [fs|] eqn:E; [done|].
  apply list_elem_of_further. by apply IH.
Qed.

Lemma firstInvalidKey_first (get : Nutrient -> option Q) (key : Nutrient) :
  get key = None ->
  (forall key', keyIndex key' < keyIndex key -> is_Some (get key')) ->
  firstInvalidKey get = Some key.
Proof.
  intros Hnone Hbefore. unfold firstInvalidKey, constraintKeys. cbn [forBreakOver].
  destruct key; cbn in Hbefore;
    repeat match goal with
    | |- context [get ?k] =>
        first [ rewrite Hnone
              | let H := fresh in
                destruct (Hbefore k ltac:(cbn; lia)) as [? H]; rewrite H ]
    end; done.
Qed.

(** X5: with a non-empty array of foods, whatever its elements, when the
    requirement under [key] is not a number and those under the keys before
    it (in the order protein, carbs, fat, fiber, vitamins) are, the handler
    answers 400 with the message naming [key], and [simplexSolve] is not
    called. *)
Theorem optimize_names_first_invalid_constraint (items : list FoodItem)
    (get : Nutrient -> option Q) (key : Nutrient) :
  items ≠ [] ->
  get key = None ->
  (forall key', keyIndex key' < keyIndex key -> is_Some (get key')) ->
  optimizeHandler (mkOptimizeBody (FoodsArray items) (ConstraintsObject get)) =
  Some (mkResponse 400
          (BodyError ("Missing or invalid constraint: " ++ keyName key))).
Proof.
  intros Hne Hnone Hbefore. rewrite optimizeHandler_array by done.
  by rewrite (firstInvalidKey_first get key Hnone Hbefore).
Qed.

Lemma optimize_names_first_invalid_constraint_witness :
  optimizeHandler
    (mkOptimizeBody (FoodsArray [ItemNull])
       (ConstraintsObject (fun key => match key with
                                      | protein => Some 50%Q
                                      | carbs => Some 130%Q
                                      | _ => None
                                      end))) =
  Some (mkResponse 400 (BodyError "Missing or invalid constraint: fat")).
Proof.
  apply (optimize_names_first_invalid_constraint [ItemNull] _ fat).
  - discriminate.
  - reflexivity.
  - intros key' Hlt. destruct key'; cbn in Hlt; try lia; by eexists.
Defined.

(** X6: the optimize handler always answers, with status 200, 400 or 500.
    The status is 200 exactly when the body is a solution, which happens
    only for a non-empty array of food objects and five numeric requirements
    on which [simplexSolve] returns that solution; it is 500 exactly when
    the array is not empty, the five requirements are numbers and some
    element of the array is [null] or [undefined]. *)
Theorem optimize_status_200_400_500 (req : OptimizeBody) :
  exists resp,
    optimizeHandler req = Some resp /\
    (status resp = 200 \/ status resp = 400 \/ status resp = 500) /\
    (status resp = 200 <-> exists sol, body resp = BodyResult sol) /\
    (forall sol, body resp = BodyResult sol ->
       exists foods get,
         b_foods req = FoodsArray (ItemFood <$> foods) /\ foods ≠ [] /\
         b_constraints req = ConstraintsObject get /\
         (forall key, is_Some (get key)) /\
         simplexSolve foods (constraintsOf get) = Some (SolveOk sol)) /\
    (status resp = 500 <->
     exists items get,
       b_foods req = FoodsArray items /\ ItemNull ∈ items /\
       b_constraints req = ConstraintsObject get /\
       (forall key, is_Some (get key))).
Proof.
  destruct req as [fds cs]. cbn [b_foods b_constraints].
  assert (forall msg,
            (forall items get,
               fds = FoodsArray items -> ItemNull ∈ items ->
               cs = ConstraintsObject get -> (forall key, is_Some (get key)) ->
               False) ->
            exists resp, Some (mkResponse 400 (BodyError msg)) = Some resp /\
              (status resp = 200 \/ status resp = 400 \/ status resp = 500) /\
              (status resp = 200 <-> exists sol, body resp = BodyResult sol) /\
              (forall sol, body resp = BodyResult sol ->
                 exists foods get,
                   fds = FoodsArray (ItemFood <$> foods) /\ foods ≠ [] /\
                   cs = ConstraintsObject get /\
                   (forall key, is_Some (get key)) /\
                   simplexSolve foods (constraintsOf get) = Some (SolveOk sol)) /\
              (status resp = 500 <->
               exists items get,
                 fds = FoodsArray items /\ ItemNull ∈ items /\
                 cs = ConstraintsObject get /\
                 (forall key, is_Some (get key))))
    as Hreject.
  { intros msg Hno. eexists. split; [done|]. cbn. split; [by right; left|]. split.
    - split; [done|]. by intros [sol Hsol].
    - split; [by intros sol Hsol|]. split; [done|].
      intros (items & get & Hf & Hin & Hc & Hk). exfalso. by apply (Hno items get). }
  destruct fds as [| |items]; [| |destruct cs as [|get]];
    try (unfold optimizeHandler; cbn [b_foods b_constraints];
         try destruct cs; apply Hreject; by intros items' get').
  - unfold optimizeHandler. cbn [b_foods b_constraints].
    destruct items; apply Hreject; by intros items' get'.
  - assert (items = [] \/ items ≠ []) as [->|Hitems]
      by (destruct items; [by left|by right]).
    { unfold optimizeHandler. cbn [b_foods b_constraints]. apply Hreject.
      intros items'' get' [= <-] Hin. by apply elem_of_nil in Hin. }
    rewrite optimizeHandler_array by done.
    destruct (firstInvalidKey get) as [key|] eqn:Hkeys.
    { apply Hreject. intros items'' get' _ _ [= <-] Hk.
      apply firstInvalidKey_None in Hk. congruence. }
    unfold simplexSolveItems. destruct (foodsOf items) as [foods|] eqn:Hfoods.
    + apply foodsOf_Some in Hfoods.
      destruct (simplexSolve_total foods (constraintsOf get)) as [res Hres].
      rewrite Hres. destruct res as [e|sol].
      { apply Hreject. intros items'' get' [= <-] Hin _ _.
        apply foodsOf_None in Hin. rewrite Hfoods, foodsOf_objects in Hin. done. }
      eexists. split; [done|]. cbn. split; [by left|]. split.
      * split; [by exists sol|done].
      * split.
        -- intros sol' [= <-]. exists foods, get.
           split; [by rewrite Hfoods|]. split.
           ++ intros ->. by apply Hitems.
           ++ split; [done|]. split; [by apply firstInvalidKey_None|done].
        -- split; [done|]. intros (items'' & get' & [= <-] & Hin & _).
           apply foodsOf_None in Hin. rewrite Hfoods, foodsOf_objects in Hin. done.
    + eexists. split; [done|]. cbn. split; [by right; right|]. split.
      * split; [done|]. by intros [sol Hsol].
      * split; [by intros sol Hsol|]. split; [|done]. intros _.
        exists items, get. split; [done|]. split; [by apply foodsOf_None|].
        split; [done|]. by apply firstInvalidKey_None.
Qed.

(** ** The sensitivity report of a solution *)

Lemma filter_all_false {A : Type} (f : A -> bool) (l : list A) :
  (forall x, x ∈ l -> f x = false) -> List.filter f l = [].
Proof.
  induction l as [|x l IH]; intros Hf; [done|]. cbn.
  rewrite (Hf x) by apply list_elem_of_here.
  apply IH. intros y Hy. apply Hf. by apply list_elem_of_further.
Qed.

Lemma sensitivityData_unused (amounts : list Q) (foods : list Food) :
  (forall j a, amounts !! j = Some a -> (a <= epsilon)%Q) ->
  sensitivityData amounts foods = [].
Proof.
  intros Hsmall. unfold sensitivityData, reduce.
  rewrite sensitivity_reduceFrom. cbn [app].
  rewrite filter_all_false; [done|].
  intros [j fd] _. cbn [fst]. unfold isUsed.
  destruct (amounts !! j) as [a|] eqn:E; [|done].
  apply Qltb_ge. by apply (Hsmall j).
Qed.

Lemma nonneg_requirements_amounts (foods : list Food) (constraints : Constraints)
    (sol : Solution) :
  requirementsNonneg constraints ->
  simplexSolve foods constraints = Some (SolveOk sol) ->
  amounts sol = replicate (length foods) 0%Q.
Proof.
  intros Hreq Hsol.
  destruct (simplexSolve_run foods constraints)
    as (k & t & _ & Hp & [(_ & _ & Hres)|(_ & snaps & _ & Hres)]); [congruence|].
  rewrite Hres in Hsol. injection Hsol as <-.
  destruct (pivots_stuck (initialTableau foods constraints) t k) as [-> ->];
    [|done|].
  { intros t1 Hstep. inversion Hstep as [t0 c r Hc Hr]; subst.
    rewrite (initial_no_leaving_row foods constraints c Hreq) in Hr. done. }
  unfold extractSolution. cbn [amounts ls_tableau].
  destruct (extractAmounts_lookup (matrix (initialTableau foods constraints))
              (length foods) (length foods + numConstraints + 1)) as [Hlen Hlook].
  cbv zeta in Hlen, Hlook.
  apply list_eq. intros j. destruct (decide (j < length foods)) as [Hj|Hj].
  - rewrite Hlook by done. rewrite lookup_replicate_2 by done.
    by rewrite initial_amountOf_zero.
  - rewrite !lookup_ge_None_2; [done|rewrite length_replicate; lia|lia].
Qed.

(** X7: when no requirement is negative, the sensitivity report computed
    from a solution of [simplexSolve] and the same foods is empty: no food is
    in use. *)
Theorem sensitivity_of_solution_is_empty (foods : list Food)
    (constraints : Constraints) (sol : Solution) :
  requirementsNonneg constraints ->
  simplexSolve foods constraints = Some (SolveOk sol) ->
  sensitivityHandler (Some (amounts sol)) (Some foods) =
  mkResponse 200 (BodySensitivity []).
Proof.
  intros Hreq Hsol. unfold sensitivityHandler.
  rewrite (nonneg_requirements_amounts foods constraints sol Hreq Hsol).
  rewrite sensitivityData_unused; [done|].
  intros j a Ha. apply lookup_replicate in Ha as [-> _]. unfold epsilon. lra.
Qed.

Lemma sensitivity_of_solution_is_empty_witness :
  exists sol,
    simplexSolve referenceFoods referenceConstraints = Some (SolveOk sol) /\
    sensitivityHandler (Some (amounts sol)) (Some referenceFoods) =
    mkResponse 200 (BodySensitivity []).
Proof.
  eexists. split; [vm_compute; reflexivity|].
  match goal with
  | |- context [amounts ?s] =>
      apply (sensitivity_of_solution_is_empty referenceFoods referenceConstraints s)
  end.
  - intros key. destruct key; cbn; discriminate.
  - vm_compute. reflexivity.
Defined.


(** ** The handler of [/api/dual] *)

Lemma simplexSolve_no_foods (constraints : Constraints) :
  exists sol,
    simplexSolve [] constraints = Some (SolveOk sol) /\
    amounts sol = [] /\
    shadowPrices sol =
    [("protein", 0); ("carbs", 0); ("fat", 0); ("fiber", 0); ("vitamins", 0)]%string%Q.
Proof.
  eexists. split.
  - apply simplexSolve_no_entering. vm_compute. reflexivity.
  - split; vm_compute; reflexivity.
Qed.

(** X8: the dual handler does not test the foods for emptiness: with an
    empty array of foods, which the optimize handler rejects, it answers 200
    with no primal variable and five shadow prices of 0.  Whenever it answers
    with a problem, the foods are objects, the shadow prices are those of
    [simplexSolve] and the interpretation lists the same five keys and
    prices in the same order.  An element that is [null] or [undefined]
    makes it answer 500. *)
Theorem dual_handler_accepts_no_foods (toFixed6 : Q -> string) :
  (forall constraints : Constraints,
     optimizeHandler (requestOf [] constraints) =
     Some (mkResponse 400 (BodyError "Invalid foods array")) /\
     exists d,
       dualHandler toFixed6 (Some []) (Some constraints) =
       Some (mkDualResponse 200 (DualBodyProblem d)) /\
       primal_variables d = [] /\
       dual_shadowPrices d =
       [("protein", 0); ("carbs", 0); ("fat", 0); ("fiber", 0); ("vitamins", 0)]%string%Q) /\
  (forall (items : list FoodItem) (constraints : Constraints) (d : DualProblem),
     dualHandler toFixed6 (Some items) (Some constraints) =
     Some (mkDualResponse 200 (DualBodyProblem d)) ->
     exists foods sol,
       items = ItemFood <$> foods /\
       simplexSolve foods constraints = Some (SolveOk sol) /\
       primal_variables d = map name foods /\
       dual_shadowPrices d = shadowPrices sol /\
       map (fun e => (nutrient e, shadowPrice e)) (interpretation d) = shadowPrices sol /\
       map nutrient (interpretation d) = dual_variables d) /\
  (forall (items : list FoodItem) (constraints : Constraints),
     ItemNull ∈ items ->
     dualHandler toFixed6 (Some items) (Some constraints) =
     Some (mkDualResponse 500 DualBodyInternalError)).
Proof.
  split; [|split].
  - intros constraints. split; [done|].
    destruct (simplexSolve_no_foods constraints) as (sol & Hsol & _ & Hsp).
    eexists. unfold dualHandler, simplexSolveItems. cbn [foodsOf mapM].
    change (mret []) with (Some (@nil Food)). cbv iota. rewrite Hsol.
    split; [done|]. cbn [primal_variables dual_shadowPrices map]. done.
  - intros items constraints d Hd. unfold dualHandler, simplexSolveItems in Hd.
    destruct (foodsOf items) as [foods|] eqn:Hfoods; [|done].
    destruct (simplexSolve foods constraints) as [[e|sol]|] eqn:Hres; try done.
    injection Hd as <-. exists foods, sol.
    split; [by apply foodsOf_Some|]. split; [done|].
    cbn [primal_variables dual_shadowPrices interpretation dual_variables].
    split; [done|]. split; [done|].
    destruct (simplexSolve_run foods constraints)
      as (k & t & _ & _ & [(_ & _ & Hres')|(_ & snaps & _ & Hres')]); [congruence|].
    rewrite Hres' in Hres. injection Hres as <-.
    unfold extractSolution, shadowPricesOf. cbn [shadowPrices]. done.
  - intros items constraints Hin. unfold dualHandler, simplexSolveItems.
    by rewrite (foodsOf_null items Hin).
Qed.

Lemma dual_handler_accepts_no_foods_witness :
  exists d,
    dualHandler (fun _ => EmptyString) (Some (ItemFood <$> negativeFoods))
                (Some negativeConstraints) =
    Some (mkDualResponse 200 (DualBodyProblem d)) /\
    primal_variables d = ["C"; "B"]%string /\
    map nutrient (interpretation d) = dual_variables d.
Proof.
  eexists. split; [vm_compute; reflexivity|].
  match goal with
  | |- context [primal_variables ?d] =>
      destruct (proj1 (proj2 (dual_handler_accepts_no_foods (fun _ => EmptyString)))
                  (ItemFood <$> negativeFoods) negativeConstraints d)
        as (foods & sol & Hitems & _ & Hv & _ & _ & Hn)
  end.
  - vm_compute. reflexivity.
  - split; [|exact Hn]. vm_compute. reflexivity.
Defined.

(** ** The row operations of [pivot], in double precision *)

(** X9: on a well-formed tableau [pivot(r, c)] keeps the shape; it replaces
    every entry of row [r] by its quotient by the pivot element, and every
    entry [m[i][j]] of another row by [m[i][j] - m[i][c] * (m[r][j] / p)],
    where the entries on the right are those before the call and each
    operation is the IEEE one, in this order; and it changes [basis] at [r]
    only. *)
Theorem pivot_row_operations (t : Double.Tableau) (r c : nat) :
  Double.wf t -> r < Double.rows t ->
  Double.wf (Double.pivot t r c) /\
  Double.rows (Double.pivot t r c) = Double.rows t /\
  Double.cols (Double.pivot t r c) = Double.cols t /\
  (forall i j, i < Double.rows t -> j < Double.cols t ->
     Double.cell (Double.matrix (Double.pivot t r c)) i j =
     if decide (i = r)
     then (Double.cell (Double.matrix t) r j / Double.cell (Double.matrix t) r c)%float
     else (Double.cell (Double.matrix t) i j
           - Double.cell (Double.matrix t) i c
             * (Double.cell (Double.matrix t) r j / Double.cell (Double.matrix t) r c))%float) /\
  Double.basis (Double.pivot t r c) = <[r := c]> (Double.basis t).
Proof.
  intros [Hd Hb] Hr.
  destruct (double_pivot_cells t r c Hd Hr) as [Hd' Hcells]. cbv zeta in Hd', Hcells.
  split; [|split; [done|split; [done|split; [done|done]]]].
  split; [done|]. unfold Double.pivot. cbn [Double.basis Double.rows].
  by rewrite length_insert.
Qed.

Lemma pivot_row_operations_witness :
  Double.cell (Double.matrix (Double.pivot Double.tieTableau 0 0)) 1 2 = 0%float /\
  Double.cell (Double.matrix (Double.pivot Double.tieTableau 0 0)) 0 2 = (- 2)%float.
Proof.
  destruct (pivot_row_operations Double.tieTableau 0 0 double_tieTableau_wf
              ltac:(cbn; lia)) as (_ & _ & _ & Hcells & _).
  split.
  - rewrite (Hcells 1 2) by (cbn; lia). vm_compute. reflexivity.
  - rewrite (Hcells 0 2) by (cbn; lia). vm_compute. reflexivity.
Defined.

(** ** The browser copy *)

(** Pushing one value per element is [map]. *)
Lemma reduceFrom_push {A B : Type} (f : A -> B) (l : list A) (i : nat) (acc : list B) :
  reduceFrom (fun row x _ => row ++ [f x]) i l acc = acc ++ map f l.
Proof.
  revert i acc. induction l as [|x l IH]; intros i acc; cbn.
  - by rewrite app_nil_r.
  - rewrite IH, <- app_assoc. done.
Qed.

(** The tableau of the browser copy, row by row. *)
Lemma browser_initialTab_rows (foods : list Food) (constraints : Constraints) :
  Browser.initialTab foods constraints =
  [ map (fun fd => - f_protein fd) foods ++ [- 1; 0; 0; 0; 0; - c_protein constraints];
    map (fun fd => - f_carbs fd) foods ++ [0; - 1; 0; 0; 0; - c_carbs constraints];
    map (fun fd => - f_fat fd) foods ++ [0; 0; - 1; 0; 0; - c_fat constraints];
    map (fun fd => - f_fiber fd) foods ++ [0; 0; 0; - 1; 0; - c_fiber constraints];
    map (fun fd => - f_vitamins fd) foods ++ [0; 0; 0; 0; - 1; - c_vitamins constraints];
    map cost foods ++ [0; 0; 0; 0; 0; 0] ]%Q.
Proof.
  unfold Browser.initialTab, reduce, constraintKeys. cbv zeta.
  cbn [reduceFrom app].
  rewrite !(reduceFrom_push (fun fd => (- foodGet fd _)%Q)).
  rewrite (reduceFrom_push cost).
  unfold forRange. cbn [seq Nat.sub foldl app foodGet constraintGet].
  repeat (destruct (decide _) as [?|?]; try lia).
  by rewrite <- !app_assoc.
Qed.

(** Two matrices of the same shape with the same cells are equal. *)
Lemma dims_cells_eq (m m' : Matrix) (R C : nat) :
  dims m R C -> dims m' R C ->
  (forall i j, i < R -> j < C -> cell m i j = cell m' i j) ->
  m = m'.
Proof.
  intros [Hlen Hrows] [Hlen' Hrows'] Hcells. apply list_eq. intros i.
  destruct (decide (i < R)) as [Hi|Hi].
  - specialize (Hrows i Hi). specialize (Hrows' i Hi).
    unfold getRow in Hrows, Hrows'.
    destruct (m !! i) as [row|] eqn:E;
      [|apply lookup_ge_None_1 in E; lia].
    destruct (m' !! i) as [row'|] eqn:E';
      [|apply lookup_ge_None_1 in E'; lia].
    cbn in Hrows, Hrows'. f_equal. apply list_eq. intros j.
    destruct (decide (j < C)) as [Hj|Hj].
    + specialize (Hcells i j Hi Hj). unfold cell, getRow, entry in Hcells.
      rewrite E, E' in Hcells. cbn in Hcells.
      destruct (row !! j) as [x|] eqn:Ex;
        [|apply lookup_ge_None_1 in Ex; lia].
      destruct (row' !! j) as [x'|] eqn:Ex';
        [|apply lookup_ge_None_1 in Ex'; lia].
      cbn in Hcells. by subst.
    + rewrite !lookup_ge_None_2; [done|lia|lia].
  - rewrite !lookup_ge_None_2; [done|lia|lia].
Qed.

Lemma entry_map_app {A : Type} (f : A -> Q) (l : list A) (tl : list Q) (j : nat) :
  entry (map f l ++ tl) j =
  match l !! j with
  | Some x => f x
  | None => entry tl (j - length l)
  end.
Proof.
  unfold entry. destruct (l !! j) as [x|] eqn:E.
  - rewrite lookup_app_l by (rewrite length_map; by apply lookup_lt_Some in E).
    by rewrite list_lookup_fmap, E.
  - apply lookup_ge_None_1 in E.
    rewrite lookup_app_r by (rewrite length_map; lia). by rewrite length_map.
Qed.

(** X10: the browser copy starts from the same tableau as the server: the
    matrix it builds by pushing rows is the matrix [simplexSolve] fills in
    place. *)
Theorem browser_initial_tableau_is_the_servers (foods : list Food)
    (constraints : Constraints) :
  Browser.initialTab foods constraints = matrix (initialTableau foods constraints).
Proof.
  destruct (initialTableau_cells foods constraints) as (Hr & Hc & [Hd _] & Hcells).
  cbv zeta in Hr, Hc, Hd, Hcells. rewrite Hr, Hc in Hd. unfold numConstraints in *.
  symmetry. apply (dims_cells_eq _ _ (5 + 1) (length foods + 5 + 1)); [done| |].
  - rewrite browser_initialTab_rows. split; [done|].
    intros i Hi. destruct i as [|[|[|[|[|[|i]]]]]]; [..|lia];
      unfold getRow; simpl; rewrite length_app, length_map; simpl; lia.
  - intros i j Hi Hj. rewrite Hcells by done. rewrite browser_initialTab_rows.
    unfold initCell, numConstraints, cell.
    destruct i as [|[|[|[|[|[|i]]]]]]; [..|lia];
      unfold getRow; simpl;
      rewrite entry_map_app; unfold foodAt;
      (destruct (foods !! j) as [fd|] eqn:E;
       [apply lookup_lt_Some in E|apply lookup_ge_None_1 in E]);
      repeat (destruct (decide _) as [?|?]; try lia); try done;
      try (replace (j - length foods) with 5 by lia; done);
      try (replace (j - length foods) with 4 by lia; done);
      try (replace (j - length foods) with 3 by lia; done);
      try (replace (j - length foods) with 2 by lia; done);
      try (replace (j - length foods) with 1 by lia; done);
      try (replace (j - length foods) with 0 by lia; done).
    all: destruct (j - length foods) as [|[|[|[|[|[|k]]]]]] eqn:Ek; try done; lia.
Qed.

(** The loop of the browser copy, from any state below the cap: it ends
    after at most [maxIter - iter] further pivots, and the snapshots it adds
    are one per turn. *)
Lemma browser_loop_ends (fuel : nat) (st : Browser.LoopState) :
  Browser.iter st <= Browser.maxIter ->
  Browser.maxIter - Browser.iter st < fuel ->
  exists st',
    Browser.simplexLoop fuel st = Some st' /\
    Browser.iter st <= Browser.iter st' <= Browser.maxIter /\
    length (Browser.iterations st) + (Browser.iter st' - Browser.iter st)
    <= length (Browser.iterations st') /\
    length (Browser.iterations st')
    <= length (Browser.iterations st) + (Browser.iter st' - Browser.iter st) + 1 /\
    (Browser.iter st < Browser.maxIter ->
     length (Browser.iterations st) < length (Browser.iterations st')) /\
    (length (Browser.iterations st')
     = length (Browser.iterations st) + (Browser.iter st' - Browser.iter st) + 1 ->
     Browser.iter st' < Browser.maxIter).
Proof.
  revert st. induction fuel as [|fuel IH]; intros st Hle Hfuel; [lia|].
  cbn [Browser.simplexLoop].
  destruct (decide (Browser.iter st < Browser.maxIter)) as [Hlt|Hge].
  - destruct (Browser.enterColOf (Browser.tab st)) as [c|].
    + destruct (Browser.leaveRowOf (Browser.tab st) c) as [r|].
      * destruct (IH (Browser.mkLoop (Browser.pivotTab (Browser.tab st) r c)
                        (S (Browser.iter st))
                        (Browser.iterations st ++ [Browser.tab st])))
          as (st' & Hst' & Hit & Hlo & Hhi & Hne & Hcap);
          [cbn [Browser.iter]; lia|cbn [Browser.iter]; lia|].
        cbn [Browser.iter Browser.iterations] in Hit, Hlo, Hhi, Hne, Hcap.
        rewrite length_app in Hlo, Hhi, Hne, Hcap. cbn [length] in Hlo, Hhi, Hne, Hcap.
        exists st'. split; [done|]. repeat split; try lia.
      * eexists. split; [done|]. cbn [Browser.iter Browser.iterations].
        rewrite length_app. cbn [length]. repeat split; try lia.
    + eexists. split; [done|]. cbn [Browser.iter Browser.iterations].
      rewrite length_app. cbn [length]. repeat split; try lia.
  - exists st. split; [done|]. repeat split; try lia.
Qed.

(** X11: the browser copy is capped at 50 turns, not 100.  [simplex] always
    ends, after [k <= 50] pivots, with between 1 and 50 snapshots, and sets
    a solution whatever made the loop end; the fuel of the model never runs
    out. *)
Theorem browser_simplex_makes_at_most_50_pivots (foods : list Food)
    (constraints : Constraints) :
  (exists st,
     Browser.simplexLoop (S Browser.maxIter)
       (Browser.mkLoop (Browser.initialTab foods constraints) 0 []) = Some st /\
     Browser.iter st <= 50 /\
     1 <= length (Browser.iterations st) <= 50 /\
     Browser.iter st <= length (Browser.iterations st) <= Browser.iter st + 1 /\
     Browser.simplex foods constraints = Some (Browser.outcomeOf foods st)) /\
  (forall fuel, 50 < fuel ->
     Browser.simplexFuel fuel foods constraints = Browser.simplex foods constraints).
Proof.
  assert (forall fuel, 50 < fuel ->
            exists st,
              Browser.simplexLoop fuel
                (Browser.mkLoop (Browser.initialTab foods constraints) 0 []) = Some st /\
              Browser.iter st <= 50 /\
              1 <= length (Browser.iterations st) <= 50 /\
              Browser.iter st <= length (Browser.iterations st) <= Browser.iter st + 1)
    as Hends.
  { intros fuel Hfuel.
    destruct (browser_loop_ends fuel
                (Browser.mkLoop (Browser.initialTab foods constraints) 0 []))
      as (st & Hst & Hit & Hlo & Hhi & Hne & Hcap);
      [cbn [Browser.iter]; lia|cbn [Browser.iter]; unfold Browser.maxIter; lia|].
    cbn [Browser.iter Browser.iterations length] in Hit, Hlo, Hhi, Hne, Hcap.
    unfold Browser.maxIter in *.
    exists st. split; [done|]. split; [lia|]. split; [|lia].
    split; [lia|].
    destruct (decide (length (Browser.iterations st) = 0 + (Browser.iter st - 0) + 1));
      [specialize (Hcap ltac:(done))|]; lia. }
  split.
  - destruct (Hends (S Browser.maxIter)) as (st & Hst & H1 & H2 & H3);
      [unfold Browser.maxIter; lia|].
    exists st. split; [done|]. split; [done|]. split; [done|]. split; [done|].
    unfold Browser.simplex, Browser.simplexFuel. by rewrite Hst.
  - intros fuel Hfuel. unfold Browser.simplex, Browser.simplexFuel.
    assert (forall f1 f2 st st1,
              Browser.simplexLoop f1 st = Some st1 -> f1 <= f2 ->
              Browser.simplexLoop f2 st = Some st1) as Hmono.
    { induction f1 as [|f1 IH1]; intros f2 st st1 H1 Hle; [done|].
      destruct f2 as [|f2]; [lia|]. cbn [Browser.simplexLoop] in H1 |- *.
      destruct (decide (Browser.iter st < Browser.maxIter)); [|done].
      destruct (Browser.enterColOf (Browser.tab st)) as [c|]; [|done].
      destruct (Browser.leaveRowOf (Browser.tab st) c) as [r|]; [|done].
      apply (IH1 f2); [done|lia]. }
    destruct (Hends fuel Hfuel) as (st & Hst & _).
    destruct (Hends (S Browser.maxIter)) as (st' & Hst' & _);
      [unfold Browser.maxIter; lia|].
    destruct (decide (fuel <= S Browser.maxIter)) as [Hle|Hgt].
    + rewrite (Hmono _ _ _ _ Hst Hle) in Hst'. injection Hst' as <-.
      by rewrite Hst, (Hmono _ _ _ _ Hst Hle).
    + assert (S Browser.maxIter <= fuel) as Hle by lia.
      rewrite (Hmono _ _ _ _ Hst' Hle) in Hst. injection Hst as <-.
      by rewrite Hst', (Hmono _ _ _ _ Hst' Hle).
Qed.
